(** * StockAnalysis: indicator engine, signal classifier, fetch client and
      run orchestrator of [monitor.js] (daily digest) and [script.js]
      (browser application), embedded in Rocq.

    JavaScript numbers are IEEE 754 binary64 values; they are embedded as
    Rocq's primitive [float], whose operations are the same binary64
    operations.  The indicator functions are written once over the
    interface [Number] of the arithmetic they use: what is proved of their
    array handling holds for any arithmetic, what is proved of their values
    is proved for [float]. *)

From Stdlib Require Import ZArith List Lia Reals Lra Floats String Ascii Bool
  Sorted.
From stdpp Require Import base list gmap strings pretty sorting.
Import ListNotations.

Set Default Proof Using "Type".

(** ** The arithmetic of JavaScript numbers used by the program *)

Declare Scope js_scope.
Delimit Scope js_scope with js.

Class Number (num : Type) : Type := {
  ofNat : nat -> num;                  (* integer literals, [.length], periods *)
  nadd : num -> num -> num;
  nsub : num -> num -> num;
  nmul : num -> num -> num;
  ndiv : num -> num -> num;
  nneg : num -> num;                   (* unary minus *)
  ngt : num -> num -> bool;            (* [a > b] *)
  nlt : num -> num -> bool;            (* [a < b] *)
  nseq : num -> num -> bool;           (* [a === b] on numbers *)
  Math_abs : num -> num;
  Math_max : num -> num -> num;
  Math_sqrt : num -> num
}.

Infix "+" := nadd : js_scope.
Infix "-" := nsub : js_scope.
Infix "*" := nmul : js_scope.
Infix "/" := ndiv : js_scope.
Infix ">?" := ngt (at level 70, no associativity) : js_scope.
Infix "<?" := nlt : js_scope.
Infix "===" := nseq (at level 70, no associativity) : js_scope.

(** ** Indicator engine ([monitor.js], lines 54-143; [calculateSMA] is the
       same function in [script.js], lines 125-132)

    Price arrays are newest first.  A JavaScript [null] result is [None]. *)

Module Engine.
Section WithNumber.
Context {num : Type} `{Number num}.
Local Open Scope js_scope.

(** [arr.reduce((a, b) => a + b, 0)] *)
Definition sum (arr : list num) : num := fold_left nadd arr (ofNat 0).

(** [Math.pow(x, 2)], taken as the rounded square. *)
Definition Math_pow2 (x : num) : num := x * x.

Definition calculateSMA (prices : list num) (period : nat) : option num :=
  if (length prices <? period)%nat then None
  else Some (sum (firstn period prices) / ofNat period).

(** The [for] loop of [_emaArray]: [prev] is [result[i - 1]], [rest] is
    [oldestFirst] from index [i] on. *)
Fixpoint ema_loop (k prev : num) (rest : list num) : list (option num) :=
  match rest with
  | [] => []
  | p :: rest' =>
      let e := p * k + prev * (ofNat 1 - k) in
      Some e :: ema_loop k e rest'
  end.

(** [new Array(n).fill(null)] with index [period - 1] set to the seed and
    the later indices filled by the loop.  For [period = 0] the seed is
    stored under the property [-1], which is no element of the array, and
    the loop starts at index 0 reading it. *)
Definition _emaArray (oldestFirst : list num) (period : nat)
  : list (option num) :=
  if (length oldestFirst <? period)%nat then []
  else
    let k := ofNat 2 / (ofNat period + ofNat 1) in
    let seed := sum (firstn period oldestFirst) / ofNat period in
    replicate (period - 1) None
      ++ (if (period =? 0)%nat then [] else [Some seed])
      ++ ema_loop k seed (skipn period oldestFirst).

(** [oldest.map((p, i) => i === 0 ? 0 : p - oldest[i - 1]).slice(1)];
    the index [i - 1] is in range whenever [i] is not 0. *)
Definition changesOf (oldest : list num) : list num :=
  tail (imap (fun i p =>
                if (i =? 0)%nat then ofNat 0
                else p - nth (i - 1) oldest (ofNat 0)) oldest).

(** One round of the seeding loop on [changes[i]]. *)
Definition seedStep (acc : num * num) (c : num) : num * num :=
  let '(avgGain, avgLoss) := acc in
  if c >? ofNat 0 then (avgGain + c, avgLoss)
  else (avgGain, avgLoss + Math_abs c).

(** One round of the Wilder smoothing loop on [changes[i]]. *)
Definition wilderStep (period : nat) (acc : num * num) (c : num)
  : num * num :=
  let '(avgGain, avgLoss) := acc in
  ((avgGain * (ofNat period - ofNat 1) + Math_max c (ofNat 0))
     / ofNat period,
   (avgLoss * (ofNat period - ofNat 1) + Math_max (nneg c) (ofNat 0))
     / ofNat period).

(** The averages at the end of both loops.  After the length guard
    [changes] has at least [period] entries, so the seeding loop reads
    exactly its first [period] entries and the smoothing loop the rest. *)
Definition rsiAverages (changes : list num) (period : nat) : num * num :=
  let '(g, l) :=
    fold_left seedStep (firstn period changes) (ofNat 0, ofNat 0) in
  fold_left (wilderStep period) (skipn period changes)
    (g / ofNat period, l / ofNat period).

Definition calculateRSI (prices : list num) (period : nat) : option num :=
  if (length prices <? period + 1)%nat then None
  else
    let oldest := reverse prices in
    let changes := changesOf oldest in
    let '(avgGain, avgLoss) := rsiAverages changes period in
    if avgLoss === ofNat 0 then Some (ofNat 100)
    else Some (ofNat 100 - ofNat 100 / (ofNat 1 + avgGain / avgLoss)).

Record MACD : Type := mkMACD {
  macd : num;
  signal : num;
  histogram : num
}.

(** The MACD line: [oldest.map((_, i) => ...).filter(v => v !== null)].
    After the length guard both EMA arrays are as long as [oldest], so
    every index read is in range. *)
Definition macdValuesOf (oldest : list num) : list num :=
  let ema12arr := _emaArray oldest 12 in
  let ema26arr := _emaArray oldest 26 in
  omap (fun v => v)
    (imap (fun i (_ : num) =>
             match nth i ema12arr None, nth i ema26arr None with
             | Some a, Some b => Some (a - b)
             | _, _ => None
             end) oldest).

(** [arr[arr.length - 1]] of an array of numbers and nulls. *)
Definition lastEntry (arr : list (option num)) : option num :=
  default None (last arr).

Definition calculateMACD (prices : list num) : option MACD :=
  if (length prices <? 35)%nat then None
  else
    let oldest := reverse prices in
    let macdValues := macdValuesOf oldest in
    if (length macdValues <? 9)%nat then None
    else
      let signalArr := _emaArray macdValues 9 in
      (* both last entries are numbers here: the arrays are not empty and
         the signal array ends after its seed index *)
      match lastEntry signalArr, last macdValues with
      | Some signalLine, Some macdLine =>
          Some (mkMACD macdLine signalLine (macdLine - signalLine))
      | _, _ => None
      end.

Record Bollinger : Type := mkBollinger {
  upper : num;
  middle : num;
  lower : num;
  bandwidth : num
}.

Definition calculateBollingerBands (prices : list num) (period : nat)
  : option Bollinger :=
  if (length prices <? period)%nat then None
  else
    let recent := firstn period prices in
    let sma := sum recent / ofNat period in
    let stdDev :=
      Math_sqrt
        (fold_left (fun s p => s + Math_pow2 (p - sma)) recent (ofNat 0)
           / ofNat period) in
    Some (mkBollinger (sma + ofNat 2 * stdDev) sma
            (sma - ofNat 2 * stdDev)
            (ofNat 4 * stdDev / sma * ofNat 100)).

Record Momentum : Type := mkMomentum {
  week : option num;
  month : option num
}.

(** [prices[i]] for an index below [prices.length]. *)
Definition at_ (prices : list num) (i : nat) : num :=
  nth i prices (ofNat 0).

Definition calculateMomentum (prices : list num) : Momentum :=
  mkMomentum
    (if (6 <=? length prices)%nat
     then Some ((at_ prices 0 - at_ prices 5) / at_ prices 5 * ofNat 100)
     else None)
    (if (22 <=? length prices)%nat
     then Some ((at_ prices 0 - at_ prices 21) / at_ prices 21 * ofNat 100)
     else None).

End WithNumber.
End Engine.

Arguments Engine.MACD : clear implicits.
Arguments Engine.Bollinger : clear implicits.
Arguments Engine.Momentum : clear implicits.

(** ** binary64, the arithmetic the program runs on *)

Module JsFloat.

(** [Math.max(a, b)]: NaN if either is NaN, and [+0] is larger than [-0]. *)
Definition max (a b : float) : float :=
  if PrimFloat.is_nan a || PrimFloat.is_nan b then PrimFloat.nan
  else if PrimFloat.ltb a b then b
  else if PrimFloat.ltb b a then a
  else if PrimFloat.is_zero a && PrimFloat.get_sign a then b
  else a.

(** Natural numbers below 2^53 are binary64 values. *)
Definition fromNat (n : nat) : float :=
  PrimFloat.of_uint63 (Uint63.of_Z (Z.of_nat n)).

#[global] Instance number : Number float := {|
  ofNat := fromNat;
  nadd := PrimFloat.add;
  nsub := PrimFloat.sub;
  nmul := PrimFloat.mul;
  ndiv := PrimFloat.div;
  nneg := PrimFloat.opp;
  ngt := fun a b => PrimFloat.ltb b a;
  nlt := PrimFloat.ltb;
  nseq := PrimFloat.eqb;
  Math_abs := PrimFloat.abs;
  Math_max := max;
  Math_sqrt := PrimFloat.sqrt
|}.

End JsFloat.

(** ** Binary64 values as real numbers

    The numbers that the values of [spec_float] stand for, and the bounds
    used to follow the rounding of [SpecFloat]. *)

Module Binary64.
Local Open Scope Z_scope.

(** The power of two [2^e] as a real number. *)
Definition bpow (e : Z) : R := powerRZ 2 e.

(** The number [m * 2^e]. *)
Definition F2R (m e : Z) : R := (IZR m * bpow e)%R.

(** What a shift record at exponent [e] says of the number [x] it stands
    for: the mantissa is the truncation of [x], and the two bits are clear
    exactly when nothing was cut off. *)
Definition inb (mrs : shr_record) (e : Z) (x : R) : Prop :=
  0 <= shr_m mrs
  /\ (F2R (shr_m mrs) e <= x < F2R (shr_m mrs + 1) e)%R
  /\ (shr_r mrs || shr_s mrs = false <-> x = F2R (shr_m mrs) e).

(** The number a finite binary64 value stands for. *)
Definition valueOf (f : spec_float) : R :=
  match f with
  | S754_finite s m e => F2R (cond_Zopp s (Zpos m)) e
  | _ => 0%R
  end.

(** [f] is not [NaN] and stands for a number (or the infinity) that is at
    least [v]; only zeros, positive numbers and the positive infinity
    qualify. *)
Definition atLeast (v : R) (f : spec_float) : Prop :=
  match f with
  | S754_infinity false => True
  | S754_finite false m e => (v <= F2R (Zpos m) e)%R
  | S754_zero _ => (v <= 0)%R
  | _ => False
  end.

(** [f] is a zero or a positive number that is at most [v]. *)
Definition atMost (v : R) (f : spec_float) : Prop :=
  match f with
  | S754_zero _ => (0 <= v)%R
  | S754_finite false m e => (F2R (Zpos m) e <= v)%R
  | _ => False
  end.

(** [f] is a zero or a finite number of magnitude at most [v]. *)
Definition within (v : R) (f : spec_float) : Prop :=
  match f with
  | S754_zero _ => (0 <= v)%R
  | S754_finite _ m e => (F2R (Zpos m) e <= v)%R
  | _ => False
  end.

(** The canonical exponent of binary64. *)
Abbreviation fexp64 := (fexp prec emax).

(** A number that a record with mantissa [Q] and location [l] can stand
    for. *)
Definition sampleOf (Q E : Z) (l : location) : R :=
  match l with
  | loc_Exact => F2R Q E
  | loc_Inexact _ => (F2R Q E + bpow E / 2)%R
  end.

(** [x] is [NaN], a zero, a positive number or the positive infinity. *)
Definition notNegative (x : float) : Prop :=
  x = PrimFloat.nan \/ atLeast 0 (Prim2SF x).

(** [c] is a negative number or the negative infinity. *)
Definition isLoss (c : float) : Prop :=
  atLeast (F2R 1 (-1074)) (Prim2SF (- c)).

(** [p] is a finite number of magnitude at most [2^1000], which is about
    [10^301]. *)
Definition moderate (p : float) : bool :=
  PrimFloat.leb (PrimFloat.abs p) 0x1p+1000%float.

End Binary64.

(** ** Built-in functions of the language used by the program *)

Module Builtins.

Local Open Scope Z_scope.

(** *** [parseFloat]: leading white space skipped, then the longest prefix
        that is a decimal literal, rounded to the nearest binary64 value;
        [NaN] when there is no such prefix.  Characters are ASCII. *)

Definition isDigit (c : ascii) : bool :=
  let n := nat_of_ascii c in (48 <=? n)%nat && (n <=? 57)%nat.

Definition digitVal (c : ascii) : Z := Z.of_nat (nat_of_ascii c) - 48.

Definition isWhiteSpace (c : ascii) : bool :=
  let n := nat_of_ascii c in
  ((9 <=? n)%nat && (n <=? 13)%nat) || (n =? 32)%nat.

Fixpoint trimStart (s : string) : string :=
  match s with
  | String c s' => if isWhiteSpace c then trimStart s' else s
  | EmptyString => s
  end.

(** Reads decimal digits: the number read after [acc], how many digits
    were read, and the rest of the string. *)
Fixpoint readDigits (acc : Z) (count : nat) (s : string)
  : Z * nat * string :=
  match s with
  | String c s' =>
      if isDigit c then readDigits (acc * 10 + digitVal c) (S count) s'
      else (acc, count, s)
  | EmptyString => (acc, count, s)
  end.

Definition readSign (s : string) : bool * string :=
  match s with
  | String "-"%char s' => (true, s')
  | String "+"%char s' => (false, s')
  | _ => (false, s)
  end.

(** The binary64 value nearest to [m * 10 ^ e10], for [m > 0] (ties to
    even).  A negative power of ten is divided out with 64 extra bits and
    a sticky bit, which decides the rounding. *)
Definition decimalToFloat (m e10 : Z) : float :=
  if 0 <=? e10 then
    SF2Prim (binary_normalize 53 1024 (m * 10 ^ e10) 0 false)
  else
    let d := 10 ^ (- e10) in
    let s := Z.max 0 (64 + Z.log2 d - Z.log2 m) in
    let q := (m * 2 ^ s) / d in
    let sticky := if (m * 2 ^ s) mod d =? 0 then 0 else 1 in
    SF2Prim (binary_normalize 53 1024 (2 * q + sticky) (- s - 1) false).

Definition readExponent (s : string) : Z :=
  match s with
  | String c s' =>
      if (c =? "e")%char || (c =? "E")%char then
        let '(neg, s'') := readSign s' in
        let '(x, n, _) := readDigits 0 0 s'' in
        if (n =? 0)%nat then 0 else if neg then - x else x
      else 0
  | EmptyString => 0
  end.

Definition parseFloat (input : string) : float :=
  let '(neg, s) := readSign (trimStart input) in
  let signed (x : float) := if neg then PrimFloat.opp x else x in
  if String.prefix "Infinity" s then signed PrimFloat.infinity
  else
    let '(i, ni, s1) := readDigits 0 0 s in
    let '(m, nf, s2) :=
      match s1 with
      | String "."%char s' =>
          let '(m, nf, s'') := readDigits i 0 s' in
          if (ni =? 0)%nat && (nf =? 0)%nat then (i, 0%nat, s1)
          else (m, nf, s'')
      | _ => (i, 0%nat, s1)
      end in
    if (ni + nf =? 0)%nat then PrimFloat.nan
    else if m =? 0 then signed PrimFloat.zero
    else signed (decimalToFloat m (readExponent s2 - Z.of_nat nf)).

(** [parseFloat(v)] for a property that may be missing: [undefined] is
    converted to the string ["undefined"]. *)
Definition parseFloatOf (v : option string) : float :=
  match v with
  | Some s => parseFloat s
  | None => PrimFloat.nan
  end.

(** *** [new Date(s)] for the date keys of the provider, ["YYYY-MM-DD"]:
        the time value in milliseconds since the epoch, [None] for an
        invalid date (time value [NaN]).  Other formats that engines
        accept are not modelled and count as invalid. *)

Definition isLeap (y : Z) : bool :=
  ((y mod 4 =? 0) && negb (y mod 100 =? 0)) || (y mod 400 =? 0).

Definition daysInMonth (y m : Z) : Z :=
  if m =? 2 then (if isLeap y then 29 else 28)
  else if (m =? 4) || (m =? 6) || (m =? 9) || (m =? 11) then 30
  else 31.

(** Days from 1970-01-01 to the given civil date. *)
Definition daysFromCivil (y m d : Z) : Z :=
  let y' := if m <=? 2 then y - 1 else y in
  let era := y' / 400 in
  let yoe := y' - era * 400 in
  let mp := (m + 9) mod 12 in
  let doy := (153 * mp + 2) / 5 + d - 1 in
  let doe := yoe * 365 + yoe / 4 - yoe / 100 + doy in
  era * 146097 + doe - 719468.

Definition msPerDay : Z := 1000 * 60 * 60 * 24.

Definition Date_parse (s : string) : option Z :=
  let '(y, ny, s1) := readDigits 0 0 s in
  match s1 with
  | String "-"%char s2 =>
      let '(m, nm, s3) := readDigits 0 0 s2 in
      match s3 with
      | String "-"%char s4 =>
          let '(d, nd, s5) := readDigits 0 0 s4 in
          if (ny =? 4)%nat && (nm =? 2)%nat && (nd =? 2)%nat
             && String.eqb s5 ""
             && (1 <=? m) && (m <=? 12) && (1 <=? d)
             && (d <=? daysInMonth y m)
          then Some (daysFromCivil y m d * msPerDay)
          else None
      | _ => None
      end
  | _ => None
  end.

(** *** [String.prototype.toUpperCase], on ASCII letters *)

Definition upperChar (c : ascii) : ascii :=
  let n := nat_of_ascii c in
  if (97 <=? n)%nat && (n <=? 122)%nat then ascii_of_nat (n - 32) else c.

Fixpoint toUpperCase (s : string) : string :=
  match s with
  | String c s' => String (upperChar c) (toUpperCase s')
  | EmptyString => EmptyString
  end.

(** *** [Array.prototype.sort] with a comparator: the sort is stable, and
        a comparator result [NaN] counts as 0.  [before a b] says that
        the comparator does not put [b] before [a]. *)
Section Sort.
Context {A : Type} (before : A -> A -> bool).

Fixpoint insertSorted (x : A) (l : list A) : list A :=
  match l with
  | [] => [x]
  | y :: l' => if before x y then x :: l else y :: insertSorted x l'
  end.

Definition sortBy (l : list A) : list A := foldr insertSorted [] l.
End Sort.

End Builtins.

(** ** Provider payload, thrown errors and signals *)

(** A JavaScript object used as a record: its properties in key order. *)
Definition JsObject (V : Type) : Type := list (string * V).

Fixpoint getProp {V : Type} (o : JsObject V) (key : string) : option V :=
  match o with
  | [] => None
  | (k, v) :: o' => if String.eqb k key then Some v else getProp o' key
  end.

(** [Object.keys(o)] *)
Definition keys {V : Type} (o : JsObject V) : list string := map fst o.

(** A daily record of the time series: [null] is [None]; an object is its
    fields, such as ['4. close'], each with its value as a string.  (A
    record that is a number, a text or a truth value has no field and acts
    as the object without fields.) *)
Definition Daily : Type := option (JsObject string).

(** The section ['Time Series (Daily)']: a record for each date key. *)
Definition Series : Type := JsObject Daily.

(** The parsed JSON body of a provider response: the three notices and the
    section ['Time Series (Daily)'], each of which may be missing. *)
Record Payload : Type := mkPayload {
  errorMessage : option string;          (* data['Error Message'] *)
  note : option string;                  (* data['Note'] *)
  information : option string;           (* data['Information'] *)
  timeSeries : option Series
}.

(** Truthiness of a property holding a string: missing and [""] are falsy. *)
Definition truthy (v : option string) : bool :=
  match v with
  | Some s => negb (String.eqb s "")
  | None => false
  end.

(** [`${v}`] for such a property. *)
Definition render (v : option string) : string :=
  match v with
  | Some s => s
  | None => "undefined"
  end.

(** A thrown [Error] object; only its [message] is ever read. *)
Inductive Thrown : Type := JsError (message : string).

Definition messageOf (e : Thrown) : string :=
  match e with JsError m => m end.

Inductive SignalType : Type := bullish | bearish | warning.

(** A template literal before its numbers are converted to text: the
    conversions ([toFixed], number to string) are not modelled. *)
Inductive Part : Type :=
| Lit (s : string)
| Count (n : nat)                        (* [`${arr.length}`] *)
| Days (d : Z)                           (* [`${daysDiff}`] *)
| Fixed (x : float) (digits : nat)       (* [`${x.toFixed(digits)}`] *)
| AbsFixed (x : float) (digits : nat).   (* [`${Math.abs(x.toFixed(digits))}`] *)

Record Signal : Type := mkSignal {
  text : list Part;
  type : SignalType
}.

(** The em dash of the digest's signal texts (UTF-8). *)
Definition emDash : string :=
  String (ascii_of_nat 226) (String (ascii_of_nat 128)
    (String (ascii_of_nat 148) EmptyString)).

(** The en dash between the two Bollinger bounds (UTF-8). *)
Definition enDash : string :=
  String (ascii_of_nat 226) (String (ascii_of_nat 128)
    (String (ascii_of_nat 147) EmptyString)).

(** ** Extraction of the price series, shared by both [processStockData] *)

Module Extraction.
Import Builtins.
Local Open Scope Z_scope.

(** The comparator [(a, b) => new Date(b) - new Date(a)] does not put [b]
    before [a]: its result is not positive ([NaN] counts as 0). *)
Definition newerFirst (a b : string) : bool :=
  match Date_parse b, Date_parse a with
  | Some tb, Some ta => tb - ta <=? 0
  | _, _ => true
  end.

(** [Object.keys(timeSeries).sort(...)] *)
Definition sortedDates (ts : Series) : list string :=
  sortBy newerFirst (keys ts).

(** [parseFloat(timeSeries[date]['4. close'])] for a key [date] of
    [timeSeries]: reading the field of a [null] record throws a
    [TypeError], which is [None] here. *)
Definition closeOf (ts : Series) (date : string) : option float :=
  match getProp ts date with
  | Some (Some record) => Some (parseFloatOf (getProp record "4. close"))
  | Some None | None => None
  end.

(** The [TypeError] of reading a field of [null] (as V8 words it). *)
Definition nullRecord : Thrown :=
  JsError "Cannot read properties of null (reading '4. close')".

(** The [TypeError] of [Object.keys(undefined)]. *)
Definition noSeries : Thrown :=
  JsError "Cannot convert undefined or null to object".

(** The [TypeError] of reading a field of [timeSeries[undefined]]. *)
Definition noRecord : Thrown :=
  JsError "Cannot read properties of undefined (reading '4. close')".

(** [Math.floor((now - new Date(latestDate)) / (1000*60*60*24))]; time
    values are integers, [None] is [NaN]. *)
Definition daysDiffOf (now : Z) (latestDate : string) : option Z :=
  match Date_parse latestDate with
  | Some t => Some ((now - t) / msPerDay)
  | None => None
  end.

End Extraction.

(** ** [monitor.js]: signal classifier and analysis (lines 148-235) *)

Module Monitor.
Import Builtins Extraction.
Local Open Scope js_scope.

Record Analysis : Type := mkAnalysis {
  latestDate : string;
  latestPrice : float;
  sma50 : option float;
  sma100 : option float;
  rsi : option float;
  macd : option (Engine.MACD float);
  bb : option (Engine.Bollinger float);
  mom : Engine.Momentum float;
  dataPoints : nat
}.

(** An entry of [results].  The entry of a failed ticker has the three
    properties [ticker], [error], [signals] only ([analysis = None]). *)
Record AnalysisResult : Type := mkResult {
  ticker : string;
  error : option string;
  signals : list Signal;
  analysis : option Analysis
}.

Definition freshnessSignal (daysDiff : option Z) : list Signal :=
  match daysDiff with
  | Some d =>
      if (3 <? d)%Z
      then [mkSignal [Lit "Warning: Data is "; Days d; Lit " days old"]
              warning]
      else []
  | None => []                         (* [NaN > 3] is false *)
  end.

(** The blocks "Price vs SMA-50" and "Price vs SMA-100"; [label] is
    ["50"] or ["100"]. *)
Definition smaSignal (label : string) (latestPrice : float)
    (sma : option float) : list Signal :=
  match sma with
  | Some s =>
      let diff := (latestPrice - s) / s * JsFloat.fromNat 100 in
      if latestPrice >? s
      then [mkSignal [AbsFixed diff 2;
                      Lit ("% above " +:+ label +:+ "-day SMA ($");
                      Fixed s 2; Lit (") " +:+ emDash +:+ " Bullish")]
              bullish]
      else [mkSignal [AbsFixed diff 2;
                      Lit ("% below " +:+ label +:+ "-day SMA ($");
                      Fixed s 2; Lit (") " +:+ emDash +:+ " Bearish")]
              bearish]
  | None => []
  end.

Definition crossSignal (sma50 sma100 : option float) : list Signal :=
  match sma50, sma100 with
  | Some s50, Some s100 =>
      if s50 >? s100
      then [mkSignal [Lit ("Golden Cross: 50-day SMA above 100-day SMA "
                           +:+ emDash +:+ " Bullish")] bullish]
      else [mkSignal [Lit ("Death Cross: 50-day SMA below 100-day SMA "
                           +:+ emDash +:+ " Bearish")] bearish]
  | _, _ => []
  end.

Definition rsiSignal (rsi : option float) : list Signal :=
  match rsi with
  | Some r =>
      if r >? JsFloat.fromNat 70
      then [mkSignal [Lit "RSI "; Fixed r 1;
                      Lit (" " +:+ emDash +:+ " Overbought")] bearish]
      else if r <? JsFloat.fromNat 30
      then [mkSignal [Lit "RSI "; Fixed r 1;
                      Lit (" " +:+ emDash +:+ " Oversold")] bullish]
      else [mkSignal [Lit "RSI "; Fixed r 1;
                      Lit (" " +:+ emDash +:+ " Neutral")] warning]
  | None => []
  end.

Definition macdSignal (macd : option (Engine.MACD float)) : list Signal :=
  match macd with
  | Some m =>
      if Engine.histogram m >? JsFloat.fromNat 0
      then [mkSignal [Lit "MACD "; Fixed (Engine.macd m) 3;
                      Lit " above signal ("; Fixed (Engine.signal m) 3;
                      Lit (") " +:+ emDash +:+ " Bullish momentum")]
              bullish]
      else [mkSignal [Lit "MACD "; Fixed (Engine.macd m) 3;
                      Lit " below signal ("; Fixed (Engine.signal m) 3;
                      Lit (") " +:+ emDash +:+ " Bearish momentum")]
              bearish]
  | None => []
  end.

Definition bollingerSignal (latestPrice : float)
    (bb : option (Engine.Bollinger float)) : list Signal :=
  match bb with
  | Some b =>
      if latestPrice >? Engine.upper b
      then [mkSignal [Lit "Price above upper Bollinger Band ($";
                      Fixed (Engine.upper b) 2;
                      Lit (") " +:+ emDash +:+ " Overbought")] bearish]
      else if latestPrice <? Engine.lower b
      then [mkSignal [Lit "Price below lower Bollinger Band ($";
                      Fixed (Engine.lower b) 2;
                      Lit (") " +:+ emDash +:+ " Oversold")] bullish]
      else
        let pct := (latestPrice - Engine.lower b)
                     / (Engine.upper b - Engine.lower b)
                     * JsFloat.fromNat 100 in
        [mkSignal [Lit "Price at "; Fixed pct 0;
                   Lit "% within Bollinger Bands ($";
                   Fixed (Engine.lower b) 2;
                   Lit (" " +:+ enDash +:+ " $");
                   Fixed (Engine.upper b) 2; Lit ")"] warning]
  | None => []
  end.

(** The statements of [processStockData] after the closes are read. *)
Definition analyse (now : Z) (ticker latestDate : string)
    (latestPrice : float) (closingPrices : list float) : AnalysisResult :=
  let sma50 := Engine.calculateSMA closingPrices 50 in
  let sma100 := Engine.calculateSMA closingPrices 100 in
  let rsi := Engine.calculateRSI closingPrices 14 in
  let macd := Engine.calculateMACD closingPrices in
  let bb := Engine.calculateBollingerBands closingPrices 20 in
  let mom := Engine.calculateMomentum closingPrices in
  let signals :=
    freshnessSignal (daysDiffOf now latestDate)
      ++ smaSignal "50" latestPrice sma50
      ++ smaSignal "100" latestPrice sma100
      ++ crossSignal sma50 sma100
      ++ rsiSignal rsi
      ++ macdSignal macd
      ++ bollingerSignal latestPrice bb in
  mkResult (toUpperCase ticker) None signals
    (Some (mkAnalysis latestDate latestPrice sma50 sma100 rsi macd bb mom
             (length closingPrices))).

(** [processStockData(data, ticker)] evaluated when [Date.now()] is [now].
    It throws a [TypeError] when the time series is missing or empty, or
    when a daily record is [null]. *)
Definition processStockData (now : Z) (data : Payload) (ticker : string)
  : Thrown + AnalysisResult :=
  match timeSeries data with
  | None => inl noSeries
  | Some ts =>
      match sortedDates ts with
      | [] => inl noRecord
      | (latestDate :: _) as dates =>
          match closeOf ts latestDate with
          | None => inl nullRecord
          | Some latestPrice =>
              match mapM (closeOf ts) dates with
              | None => inl nullRecord
              | Some closingPrices =>
                  inr (analyse now ticker latestDate latestPrice
                         closingPrices)
              end
          end
      end
  end.

End Monitor.

(** ** The network and the clock

    A run is a single thread of control.  The environment decides what the
    provider answers to a call for a ticker issued at a given time, how long
    the call takes, by how much a timer fires late, and whether the
    browser's storage refuses a write (quota exceeded, storage disabled);
    time is in milliseconds. *)

Inductive Response : Type :=
| NetworkFailure (message : string)      (* [fetch] rejects *)
| HttpStatus (status : nat)              (* [response.ok] is false *)
| NotJson (message : string)             (* [response.json()] rejects *)
| Json (data : Payload).

Record Env : Type := mkEnv {
  respond : string -> Z -> Response;
  latency : string -> Z -> nat;
  timerLag : Z -> nat;
  setItemThrows : string -> Z -> bool    (* [localStorage.setItem(key, _)] *)
}.

Definition API_RATE_LIMIT_DELAY : Z := 12000.

(** The outbound calls of a run, newest first, each with its time. *)
Definition CallLog : Type := list (Z * string).

(** No two calls of the log are less than the delay apart: of any two
    entries the older one is at least [API_RATE_LIMIT_DELAY] earlier. *)
Definition spaced (log : CallLog) : Prop :=
  forall i j newer older,
    i < j -> log !! i = Some newer -> log !! j = Some older ->
    (fst older + API_RATE_LIMIT_DELAY <= fst newer)%Z.

(** [await new Promise(resolve => setTimeout(resolve, ms))] started at
    [clock]: the time at which the run resumes. *)
Definition afterTimeout (env : Env) (ms clock : Z) : Z :=
  (clock + ms + Z.of_nat (timerLag env clock))%Z.

(** ** [monitor.js]: fetch (lines 26-48) and main loop (lines 398-417) *)

Module MonitorRun.
Import Builtins Monitor.
Local Open Scope Z_scope.

Record State : Type := mkState {
  clock : Z;
  calls : CallLog
}.

(** What [fetchStockData] makes of the provider's answer. *)
Definition classify (ticker : string) (r : Response) : Thrown + Payload :=
  match r with
  | NetworkFailure m => inl (JsError m)
  | HttpStatus status =>
      inl (JsError ("NETWORK_ERROR: HTTP " +:+ pretty status))
  | NotJson m => inl (JsError m)
  | Json data =>
      if truthy (errorMessage data)
      then inl (JsError ("INVALID_TICKER: " +:+ ticker))
      else if truthy (note data)
      then inl (JsError ("RATE_LIMIT: " +:+ render (note data)))
      else if truthy (information data)
      then inl (JsError ("API_KEY_ERROR: " +:+ render (information data)))
      else match timeSeries data with
           | None | Some [] => inl (JsError ("NO_DATA: " +:+ ticker))
           | Some (_ :: _) => inr data
           end
  end.

Definition fetchStockData (env : Env) (ticker : string) (st : State)
  : (Thrown + Payload) * State :=
  let t := clock st in
  (classify ticker (respond env ticker t),
   mkState (t + Z.of_nat (latency env ticker t)) ((t, ticker) :: calls st)).

(** The body of the [try] for one ticker: fetch, then analysis at the
    time the answer arrived.  (The log line that follows the analysis
    formats numbers only and does not throw.) *)
Definition attempt (env : Env) (ticker : string) (st : State)
  : (Thrown + AnalysisResult) * State :=
  let '(r, st') := fetchStockData env ticker st in
  (match r with
   | inl err => inl err
   | inr data => processStockData (clock st') data ticker
   end, st').

(** The [catch] clause. *)
Definition failed (ticker : string) (err : Thrown) : AnalysisResult :=
  mkResult (toUpperCase ticker) (Some (messageOf err)) [] None.

(** The [for] loop of [main] from index [i] on; [results] is the array
    built so far. *)
Fixpoint mainLoop (env : Env) (i : nat) (tickers : list string)
    (st : State) (results : list AnalysisResult)
  : list AnalysisResult * State :=
  match tickers with
  | [] => (results, st)
  | ticker :: rest =>
      let st1 :=
        if (0 <? i)%nat
        then mkState (afterTimeout env API_RATE_LIMIT_DELAY (clock st))
               (calls st)
        else st in
      let '(outcome, st2) := attempt env ticker st1 in
      let result :=
        match outcome with
        | inr analysis => analysis
        | inl err => failed ticker err
        end in
      mainLoop env (S i) rest st2 (results ++ [result])
  end.

(** [run(tickers)]: the results of [main] for the list [TICKERS]. *)
Definition run (env : Env) (tickers : list string) (st : State)
  : list AnalysisResult * State :=
  mainLoop env 0 tickers st [].

End MonitorRun.

(** ** [script.js]: cache, fetch client and classifier (lines 1-230) *)

Module Browser.
Import Builtins Extraction.
Local Open Scope Z_scope.

Definition CACHE_DURATION_MS : Z := 4 * 60 * 60 * 1000.

(** What [localStorage] holds under a cache key: the text written by
    [setCachedData], seen through [JSON.parse], or a text on which
    [JSON.parse] throws. *)
Inductive Item : Type :=
| Entry (timestamp : Z) (data : Payload)
| Corrupt.

Record State : Type := mkState {
  storage : gmap string Item;          (* localStorage *)
  lastAPICallTime : Z;
  clock : Z;                           (* Date.now() *)
  calls : CallLog
}.

Definition cacheKeyOf (ticker : string) : string := "stock_" +:+ ticker.

Definition getCachedData (ticker : string) (st : State)
  : option Payload * State :=
  let cacheKey := cacheKeyOf ticker in
  match storage st !! cacheKey with
  | None => (None, st)
  | Some (Entry timestamp data) =>
      let now := clock st in
      if now - timestamp <? CACHE_DURATION_MS then (Some data, st)
      else (None, mkState (delete cacheKey (storage st))
                    (lastAPICallTime st) (clock st) (calls st))
  | Some Corrupt =>
      (None, mkState (delete cacheKey (storage st))
               (lastAPICallTime st) (clock st) (calls st))
  end.

(** When [localStorage.setItem] throws, the error is logged and nothing is
    stored. *)
Definition setCachedData (env : Env) (ticker : string) (data : Payload)
    (st : State) : State :=
  let cacheKey := cacheKeyOf ticker in
  let timestamp := clock st in
  if setItemThrows env cacheKey timestamp then st
  else mkState (<[cacheKey := Entry timestamp data]> (storage st))
         (lastAPICallTime st) (clock st) (calls st).

(** The statements of the [try] block after the call has settled. *)
Definition classify (r : Response) : Thrown + Payload :=
  match r with
  | NetworkFailure m => inl (JsError m)
  | HttpStatus _ => inl (JsError "NETWORK_ERROR")
  | NotJson m => inl (JsError m)
  | Json data =>
      if truthy (errorMessage data) then inl (JsError "INVALID_TICKER")
      else if truthy (note data) then inl (JsError "RATE_LIMIT")
      else if truthy (information data) then inl (JsError "API_KEY_ERROR")
      else match timeSeries data with
           | None | Some [] => inl (JsError "NO_DATA")
           | Some (_ :: _) => inr data
           end
  end.

(** The [catch] clause: the four provider errors are thrown again, any
    other error becomes [NETWORK_ERROR]. *)
Definition rethrow (error : Thrown) : Thrown :=
  let m := messageOf error in
  if String.prefix "INVALID_TICKER" m || String.prefix "RATE_LIMIT" m
     || String.prefix "API_KEY_ERROR" m || String.prefix "NO_DATA" m
  then error
  else JsError "NETWORK_ERROR".

Definition fetchStockData (env : Env) (ticker : string) (st : State)
  : (Thrown + Payload) * State :=
  let '(cachedData, st0) := getCachedData ticker st in
  match cachedData with
  | Some data => (inr data, st0)
  | None =>
      let now := clock st0 in
      let timeSinceLastCall := now - lastAPICallTime st0 in
      let resumed :=
        if timeSinceLastCall <? API_RATE_LIMIT_DELAY
        then afterTimeout env (API_RATE_LIMIT_DELAY - timeSinceLastCall) now
        else now in
      (* lastAPICallTime = Date.now(), then the call goes out *)
      let st1 :=
        mkState (storage st0) resumed
          (resumed + Z.of_nat (latency env ticker resumed))
          ((resumed, ticker) :: calls st0) in
      match classify (respond env ticker resumed) with
      | inr data => (inr data, setCachedData env ticker data st1)
      | inl error => (inl (rethrow error), st1)
      end
  end.

Record Analysis : Type := mkAnalysis {
  ticker : string;
  latestDate : string;
  latestPrice : float;
  sma50 : option float;
  sma200 : option float;
  signals : list Signal;
  dataPoints : nat
}.

Definition freshnessSignal (daysDiff : option Z) : list Signal :=
  match daysDiff with
  | Some d =>
      if 3 <? d
      then [mkSignal
              [Lit "Warning: Data is "; Days d;
               Lit " days old. Market may be closed or data is stale."]
              warning]
      else []
  | None => []
  end.

(** The blocks "Price vs 50-day SMA" and "Price vs 200-day SMA": [days] is
    the period, [hint] the end of the warning text. *)
Definition smaSignal (days : nat) (hint : string) (latestPrice : float)
    (sma : option float) (available : nat) : Signal :=
  let label := pretty days in
  match sma with
  | Some s =>
      let diffPercent :=
        ((latestPrice - s) / s * JsFloat.fromNat 100)%js in
      if (latestPrice >? s)%js
      then mkSignal [Lit "Price is "; AbsFixed diffPercent 2;
                     Lit ("% above " +:+ label +:+ "-day SMA ($");
                     Fixed s 2; Lit ") - Bullish"] bullish
      else mkSignal [Lit "Price is "; AbsFixed diffPercent 2;
                     Lit ("% below " +:+ label +:+ "-day SMA ($");
                     Fixed s 2; Lit ") - Bearish"] bearish
  | None =>
      mkSignal [Lit ("Insufficient data for " +:+ label
                     +:+ "-day SMA (need " +:+ label +:+ " days, have ");
                Count available; Lit (")" +:+ hint)] warning
  end.

Definition crossSignal (sma50 sma200 : option float) : list Signal :=
  match sma50, sma200 with
  | Some s50, Some s200 =>
      if (s50 >? s200)%js
      then [mkSignal
              [Lit "Golden Cross: 50-day SMA is above 200-day SMA - Bullish"]
              bullish]
      else [mkSignal
              [Lit "Death Cross: 50-day SMA is below 200-day SMA - Bearish"]
              bearish]
  | _, _ => []
  end.

(** The statements of [processStockData] after the closes are read. *)
Definition analyse (now : Z) (ticker latestDate : string)
    (latestPrice : float) (closingPrices : list float) : Analysis :=
  let sma50 := Engine.calculateSMA closingPrices 50 in
  let sma200 := Engine.calculateSMA closingPrices 200 in
  let signals :=
    freshnessSignal (daysDiffOf now latestDate)
      ++ [smaSignal 50 "" latestPrice sma50 (length closingPrices)]
      ++ [smaSignal 200 ". Consider fetching full dataset."
            latestPrice sma200 (length closingPrices)]
      ++ crossSignal sma50 sma200 in
  mkAnalysis (toUpperCase ticker) latestDate latestPrice sma50 sma200
    signals (length closingPrices).

(** [processStockData(data, ticker)] of [script.js]; it throws in the same
    cases as the one of [monitor.js]. *)
Definition processStockData (now : Z) (data : Payload) (ticker : string)
  : Thrown + Analysis :=
  match timeSeries data with
  | None => inl noSeries
  | Some ts =>
      match sortedDates ts with
      | [] => inl noRecord
      | (latestDate :: _) as dates =>
          match closeOf ts latestDate with
          | None => inl nullRecord
          | Some latestPrice =>
              match mapM (closeOf ts) dates with
              | None => inl nullRecord
              | Some closingPrices =>
                  inr (analyse now ticker latestDate latestPrice
                         closingPrices)
              end
          end
      end
  end.

(** A session: fetches issued one after the other, each after an idle
    time; the button is disabled while a fetch is in flight. *)
Fixpoint session (env : Env) (requests : list (nat * string)) (st : State)
  : State :=
  match requests with
  | [] => st
  | (idle, ticker) :: rest =>
      let st1 := mkState (storage st) (lastAPICallTime st)
                   (clock st + Z.of_nat idle) (calls st) in
      session env rest (snd (fetchStockData env ticker st1))
  end.

(** The state when the page is loaded at time [now]: nothing called yet. *)
Definition initial (store : gmap string Item) (now : Z) : State :=
  mkState store 0 now [].

End Browser.

(** ** Notions used in the statements and their proofs *)

Module Notions.
Import Builtins.

Section WithNumber.
Context {num : Type} `{Number num}.
Import Engine.

(** The number entries of an EMA array, from the seed on. *)
Definition emaValues (oldestFirst : list num) (period : nat) : list num :=
  let k := (ofNat 2 / (ofNat period + ofNat 1))%js in
  let seed := (sum (firstn period oldestFirst) / ofNat period)%js in
  seed :: omap (fun v => v) (ema_loop k seed (skipn period oldestFirst)).

End WithNumber.

(** A property of every day-over-day change of a newest-first sequence:
    [P older newer] for each pair of neighbours. *)
Definition everyChange {A : Type} (P : A -> A -> Prop) (prices : list A)
  : Prop :=
  forall i older newer,
    prices !! S i = Some older -> prices !! i = Some newer -> P older newer.

(** No date of the series has the record [null]. *)
Definition nullFree (ts : Series) : bool :=
  forallb (fun date =>
             match getProp ts date with
             | Some None => false
             | _ => true
             end) (keys ts).

(** [timeSeries[date]['4. close']] where the record is an object; [None]
    is [undefined]. *)
Definition closeField (ts : Series) (date : string) : option string :=
  match getProp ts date with
  | Some (Some fields) => getProp fields "4. close"
  | Some None | None => None
  end.


(** The signal is an "Insufficient data" notice. *)
Definition isInsufficientData (sig : Signal) : bool :=
  match text sig with
  | Lit s :: _ => String.prefix "Insufficient data" s
  | _ => false
  end.

(** The values a binary64 division by zero can have. *)
Definition isInfinityOrNaN (x : float) : Prop :=
  x = PrimFloat.infinity \/ x = PrimFloat.neg_infinity \/ x = PrimFloat.nan.

Local Open Scope Z_scope.

(** The older call is at least the delay before the newer one. *)
Definition apart (newer older : Z * string) : Prop :=
  fst older + API_RATE_LIMIT_DELAY <= fst newer.

(** What a run has to store for [ticker] when the call for it went out at
    [time]: if the fetch or the analysis (made when the answer arrived)
    throws, the entry with the message of the error, no signals and no
    analysis; otherwise the analysis, whose error is null. *)
Definition outcome (env : Env) (ticker : string) (time : Z)
    (r : Monitor.AnalysisResult) : Prop :=
  let arrived := time + Z.of_nat (latency env ticker time) in
  let failure (err : Thrown) :=
    r = Monitor.mkResult (toUpperCase ticker) (Some (messageOf err)) []
          None in
  match MonitorRun.classify ticker (respond env ticker time) with
  | inl err => failure err
  | inr data =>
      match Monitor.processStockData arrived data ticker with
      | inl err => failure err
      | inr analysis => r = analysis /\ Monitor.error r = None
      end
  end.

(** What holds of the call log of the digest between two rounds of the
    loop: the calls are apart and none is later than the clock. *)
Definition monitorInv (st : MonitorRun.State) : Prop :=
  StronglySorted apart (MonitorRun.calls st)
  /\ Forall (fun c => fst c <= MonitorRun.clock st) (MonitorRun.calls st).

(** What holds of the call log of the browser application between two
    fetches: the calls are apart and none is later than the time of the
    last call. *)
Definition browserInv (st : Browser.State) : Prop :=
  StronglySorted apart (Browser.calls st)
  /\ Forall (fun c => fst c <= Browser.lastAPICallTime st) (Browser.calls st).

End Notions.

(** ** Sample inputs *)

Module Samples.
Local Open Scope float_scope.

(** A daily record of the provider with the given close. *)
Definition bar (close : string) : Daily :=
  Some [("1. open", "10.0000"); ("2. high", "11.0000"); ("3. low", "9.0000");
        ("4. close", close); ("5. volume", "1000")].

(** 2024-01-03 16:40 UTC. *)
Definition now : Z := 1704300000000.

(** Three well-formed records, the latest of 2024-01-03. *)
Definition threeDays : Payload :=
  mkPayload None None None
    (Some [("2024-01-03", bar "12.5000"); ("2024-01-02", bar "12.0000");
           ("2023-12-29", bar "11.0000")]).

(** Six records; the close of the latest is no number. *)
Definition badSeries : Series :=
  [("2024-01-03", bar "abc"); ("2024-01-02", bar "12.0000");
   ("2023-12-29", bar "11.0000"); ("2023-12-28", bar "11.5000");
   ("2023-12-27", bar "11.2500"); ("2023-12-26", bar "10.0000")].

Definition badClose : Payload := mkPayload None None None (Some badSeries).

(** Two records, the older one [null]. *)
Definition nullDay : Payload :=
  mkPayload None None None
    (Some [("2024-01-03", bar "12.5000"); ("2024-01-02", None)]).

(** The close of six days ago is 0. *)
Definition zeroWeekAgo : list float := [1; 1; 1; 1; 1; 0].

(** Twenty equal closes. *)
Definition flat (close : float) : list float := replicate 20 close.

(** Thirty-five closes, newest first: 35, 34, ..., 1. *)
Definition thirtyFive : list float :=
  map JsFloat.fromNat (reverse (seq 1 35)).

(** Fifteen closes, newest first; the close of the third day is [NaN], as
    [parseFloat] reads a close that is no number. *)
Definition closesWithNaN : list float :=
  [15; 14; nan; 12; 11; 10; 9; 8; 7; 6; 5; 4; 3; 2; 1].

(** Sixteen finite closes that swing between 0 and [2^1023]. *)
Definition swinging : list float :=
  concat (replicate 8 [0x1p+1023; 0]).

(** What the sample provider answers: it knows no series for AAA and
    answers every other ticker with [threeDays]. *)
Definition answers (ticker : string) (time : Z) : Response :=
  if String.eqb ticker "AAA"
  then Json (mkPayload None None None (Some []))
  else Json threeDays.

(** The sample provider; a call takes 300 ms, timers fire 2 ms late and
    the storage takes every write. *)
Definition provider : Env :=
  mkEnv answers (fun _ _ => 300%nat) (fun _ => 2%nat) (fun _ _ => false).


End Samples.

(** ** Further code: configuration of the digest and the form of the
       browser application *)

(** *** More built-in string functions (ASCII) *)

Module Text.
Import Builtins.

(** [s.trimEnd()] *)
Fixpoint trimEnd (s : string) : string :=
  match s with
  | String c s' =>
      let t := trimEnd s' in
      if isWhiteSpace c && String.eqb t "" then EmptyString else String c t
  | EmptyString => EmptyString
  end.

(** [s.trim()] *)
Definition trim (s : string) : string := trimEnd (trimStart s).

(** [s.split(sep)] for a separator of one character: the first piece and
    the pieces after it. *)
Fixpoint splitOn (sep : ascii) (s : string) : string * list string :=
  match s with
  | String c s' =>
      let '(piece, rest) := splitOn sep s' in
      if Ascii.eqb c sep then (EmptyString, piece :: rest)
      else (String c piece, rest)
  | EmptyString => (EmptyString, [])
  end.

Definition split (sep : ascii) (s : string) : list string :=
  let '(piece, rest) := splitOn sep s in piece :: rest.

(** [arr.join(sep)] *)
Fixpoint join (sep : string) (arr : list string) : string :=
  match arr with
  | [] => EmptyString
  | [x] => x
  | x :: rest => x +:+ sep +:+ join sep rest
  end.

(** [Boolean(s)] for a string: the empty string is falsy. *)
Definition nonEmpty (s : string) : bool := negb (String.eqb s "").

Definition isLetter (c : ascii) : bool :=
  let n := nat_of_ascii c in
  ((65 <=? n)%nat && (n <=? 90)%nat) || ((97 <=? n)%nat && (n <=? 122)%nat).

Definition isUpperLetter (c : ascii) : bool :=
  let n := nat_of_ascii c in (65 <=? n)%nat && (n <=? 90)%nat.

Fixpoint allChars (p : ascii -> bool) (s : string) : bool :=
  match s with
  | String c s' => p c && allChars p s'
  | EmptyString => true
  end.

(** [/^[A-Za-z]+$/.test(s)] *)
Definition alphabetOnly (s : string) : bool :=
  nonEmpty s && allChars isLetter s.

End Text.

(** *** [monitor.js], lines 9-21 and 391-394: the settings read from the
        environment; a variable that is not set is [None]. *)

Module MonitorConfig.
Import Builtins Text.

Definition DEFAULT_TICKERS : list string := ["CRWD"; "GOOG"; "MSFT"; "NVDA"].

(** [TICKERS] *)
Definition parseTickers (var : option string) : list string :=
  match var with
  | Some v =>
      if nonEmpty v
      then filter (fun t => nonEmpty t = true)
             (map (fun t => toUpperCase (trim t)) (split "," v))
      else DEFAULT_TICKERS
  | None => DEFAULT_TICKERS
  end.

(** [EMAIL_TO] *)
Definition parseRecipients (var : option string) : string :=
  join ","
    (filter (fun e => nonEmpty e = true)
       (map trim (split "," (default EmptyString var)))).

Record Settings : Type := mkSettings {
  ALPHA_VANTAGE_API_KEY : option string;
  EMAIL_USER : option string;
  EMAIL_PASS : option string;
  EMAIL_TO_var : option string;
  TICKERS_var : option string
}.

(** The test at the start of [main]:
    [!API_KEY || !EMAIL_USER || !EMAIL_PASS || !EMAIL_TO]. *)
Definition missingSettings (env : Settings) : bool :=
  negb (truthy (ALPHA_VANTAGE_API_KEY env))
  || negb (truthy (EMAIL_USER env))
  || negb (truthy (EMAIL_PASS env))
  || negb (nonEmpty (parseRecipients (EMAIL_TO_var env))).

(** [main] up to the end of its loop: [None] when it leaves with
    [process.exit(1)] before the loop, else the results and the state in
    which the digest is built. *)
Definition mainResults (settings : Settings) (env : Env)
    (st : MonitorRun.State)
  : option (list Monitor.AnalysisResult * MonitorRun.State) :=
  if missingSettings settings then None
  else Some (MonitorRun.run env (parseTickers (TICKERS_var settings)) st).

End MonitorConfig.

(** *** [script.js], lines 433-465 and 495-619: validation of the input,
        the texts of [displayError], and what a click on the button leads
        to.  The page is not modelled: what is shown is the value
        returned. *)

Module BrowserForm.
Import Builtins Text.

Record Validation : Type := mkValidation {
  valid : bool;
  message : string
}.

Definition validateTicker (input : string) : Validation :=
  let ticker := trim input in
  if (String.length ticker =? 0)%nat
  then mkValidation false "Please enter a stock ticker"
  else if negb (alphabetOnly ticker)
  then mkValidation false
         "Ticker must contain only English alphabet characters (A-Z)"
  else if (String.length ticker <? 1)%nat
  then mkValidation false "Ticker must be at least 1 character long"
  else if (5 <? String.length ticker)%nat
  then mkValidation true "Valid ticker entered"
  else mkValidation true "Valid ticker entered".

(** The title and the message that [displayError] puts on the page. *)
Definition displayError (errorType ticker : string) : string * string :=
  if String.eqb errorType "INVALID_TICKER" then
    ("Ticker Not Found",
     "The ticker symbol " +:+ String (ascii_of_nat 34) (toUpperCase ticker)
       +:+ String (ascii_of_nat 34)
             " was not found. Please check the symbol and try again.")
  else if String.eqb errorType "RATE_LIMIT" then
    ("Rate Limit Exceeded",
     "Too many requests. Alpha Vantage free tier allows 25 requests per day. Please wait and try again later.")
  else if String.eqb errorType "API_KEY_ERROR" then
    ("API Key Error",
     "There is an issue with the API key configuration. Please check that you have entered a valid Alpha Vantage API key in script.js.")
  else if String.eqb errorType "NO_DATA" then
    ("No Data Available",
     "No data is available for " +:+ String (ascii_of_nat 34)
       (toUpperCase ticker)
       +:+ String (ascii_of_nat 34)
             ". This ticker may not be supported by Alpha Vantage.")
  else if String.eqb errorType "NETWORK_ERROR" then
    ("Connection Error",
     "Failed to connect to Alpha Vantage. Please check your internet connection and try again.")
  else ("Error", "An error occurred while fetching stock data.").

(** What the page shows after a click. *)
Inductive Shown : Type :=
| ValidationMessage (v : Validation)     (* [displayValidation] *)
| Results (analysis : Browser.Analysis)  (* [displayResults] *)
| ErrorBox (title text : string).        (* [displayError] *)

(** The [catch] handler of the click: [error.message || 'NETWORK_ERROR']. *)
Definition onError (error : Thrown) (ticker : string) : Shown :=
  let m := messageOf error in
  let errorType := if nonEmpty m then m else "NETWORK_ERROR" in
  let '(title, text) := displayError errorType ticker in
  ErrorBox title text.

(** The click handler with the input field holding [value]: validation,
    fetch, analysis at the time the data arrived, display. *)
Definition onClick (env : Env) (value : string) (st : Browser.State)
  : Shown * Browser.State :=
  let ticker := trim value in
  if (String.length ticker =? 0)%nat
  then (ValidationMessage
          (mkValidation false "Please enter a stock ticker"), st)
  else
    let result := validateTicker ticker in
    if valid result then
      let '(fetched, st') := Browser.fetchStockData env ticker st in
      match fetched with
      | inr data =>
          match Browser.processStockData (Browser.clock st') data ticker with
          | inr analysis => (Results analysis, st')
          | inl error => (onError error ticker, st')
          end
      | inl error => (onError error ticker, st')
      end
    else (ValidationMessage result, st).

End BrowserForm.

(** ** Further notions used in the statements *)

Module MoreNotions.
Import Builtins Extraction Text BrowserForm Notions.

(** Commas and white space only. *)
Definition separatorsOnly (v : string) : Prop :=
  allChars (fun c => Ascii.eqb c "," || isWhiteSpace c) v = true.

(** The text is ASCII: where the string functions of the language are
    modelled. *)
Definition isAscii (s : string) : Prop :=
  allChars (fun c => (nat_of_ascii c <? 128)%nat) s = true.

(** The key is a date of the form the provider uses. *)
Definition isDate (d : string) : Prop := is_Some (Date_parse d).

(** The latest date is stale at [now]: it is a date, and four days or more
    have passed since its midnight (UTC). *)
Definition staleAt (now : Z) (latestDate : string) : bool :=
  match Date_parse latestDate with
  | Some t => (t + 4 * msPerDay <=? now)%Z
  | None => false
  end.

(** How many signals a block of the classifier emits for an indicator. *)
Definition one {A : Type} (indicator : option A) : nat :=
  match indicator with Some _ => 1 | None => 0 end.

(** The answer carries no notice and a time series with a record. *)
Definition isClean (data : Payload) : bool :=
  negb (truthy (errorMessage data)) && negb (truthy (note data))
  && negb (truthy (information data))
  && match timeSeries data with
     | Some (_ :: _) => true
     | _ => false
     end.

(** The answer can be analysed: it is clean and no record of its time
    series is [null]. *)
Definition isAnalysable (data : Payload) : bool :=
  isClean data
  && match timeSeries data with
     | Some ts => nullFree ts
     | None => false
     end.

(** Every payload in the cache is one that a fetch could have stored. *)
Definition validStore (store : gmap string Browser.Item) : Prop :=
  forall key timestamp data,
    store !! key = Some (Browser.Entry timestamp data) -> isClean data = true.


(** The signal is the warning about old data. *)
Definition isStaleWarning (sig : Signal) : bool :=
  match text sig with
  | Lit s :: Days _ :: _ => String.eqb s "Warning: Data is "
  | _ => false
  end.

(** The title of the error box that is shown, if one is. *)
Definition titleShown (shown : Shown) : option string :=
  match shown with
  | ErrorBox title _ => Some title
  | _ => None
  end.

(** A message starts with the name of one of the four provider errors. *)
Definition namesProviderError (m : string) : bool :=
  String.prefix "INVALID_TICKER" m || String.prefix "RATE_LIMIT" m
  || String.prefix "API_KEY_ERROR" m || String.prefix "NO_DATA" m.

End MoreNotions.

(** ** Further sample inputs *)

Module MoreSamples.
Import Samples MonitorConfig.

(** A value of [TICKERS] or [EMAIL_TO] without any entry. *)
Definition blankList : string := " , ,".

(** Settings that lack a recipient only. *)
Definition noRecipient : Settings :=
  mkSettings (Some "KEY") (Some "sender@example.org") (Some "secret")
    (Some blankList) (Some "msft, goog").

(** The records of [threeDays] in another order. *)
Definition threeDaysShuffled : Payload :=
  mkPayload None None None
    (Some [("2024-01-02", bar "12.0000"); ("2024-01-03", bar "12.5000");
           ("2023-12-29", bar "11.0000")]).

(** Ten days after [now]. *)
Definition later : Z := now + 10 * Builtins.msPerDay.


(** Sixteen closes, newest first, that rise or stay from day to day. *)
Definition stairs : list float :=
  [3; 3; 2; 2; 2; 1; 1; 1; 1; 1; 1; 1; 1; 1; 1; 1]%float.

(** The time series of [threeDays] and of [threeDaysShuffled]. *)
Definition series : Series :=
  default [] (timeSeries threeDays).

Definition seriesShuffled : Series :=
  default [] (timeSeries threeDaysShuffled).

End MoreSamples.

(** * Properties *)

(** ** The indicator engine, for any arithmetic *)

Module EngineFacts.
Section WithNumber.
Context {num : Type} `{Number num}.
Import Engine Notions.

Lemma ema_loop_length (k prev : num) (rest : list num) :
  length (ema_loop k prev rest) = length rest.
Proof.
  revert prev; induction rest as [|p rest IH]; intros prev; simpl; auto.
Qed.

Lemma ema_loop_all_numbers (k prev : num) (rest : list num) :
  ema_loop k prev rest
  = map Some (omap (fun v => v) (ema_loop k prev rest)).
Proof.
  revert prev; induction rest as [|p rest IH]; intros prev; simpl; auto.
  f_equal. apply IH.
Qed.

Lemma emaArray_shape (oldestFirst : list num) (period : nat) :
  1 <= period <= length oldestFirst ->
  _emaArray oldestFirst period
  = replicate (period - 1) None
      ++ map Some (emaValues oldestFirst period).
Proof.
  intros [Hp Hlen]. unfold _emaArray, emaValues.
  destruct (Nat.ltb_spec (length oldestFirst) period) as [Hlt|_]; [lia|].
  destruct (Nat.eqb_spec period 0) as [->|_]; [lia|].
  simpl. do 2 f_equal. apply ema_loop_all_numbers.
Qed.

Lemma emaValues_length (oldestFirst : list num) (period : nat) :
  length (emaValues oldestFirst period)
  = S (length oldestFirst - period).
Proof.
  unfold emaValues. simpl. f_equal.
  rewrite <- (length_map Some), <- ema_loop_all_numbers.
  rewrite ema_loop_length. apply length_skipn.
Qed.

Lemma emaArray_length (oldestFirst : list num) (period : nat) :
  1 <= period <= length oldestFirst ->
  length (_emaArray oldestFirst period) = length oldestFirst.
Proof.
  intros Hp. rewrite emaArray_shape by exact Hp.
  rewrite length_app, length_replicate, length_map, emaValues_length. lia.
Qed.

(** An index holds [null] exactly when it lies before the seed index. *)
Lemma emaArray_nth (oldestFirst : list num) (period i : nat) :
  1 <= period <= length oldestFirst ->
  i < length oldestFirst ->
  (i < period - 1 -> nth i (_emaArray oldestFirst period) None = None)
  /\ (period - 1 <= i ->
      exists v, nth i (_emaArray oldestFirst period) None = Some v).
Proof.
  intros Hp Hi. rewrite emaArray_shape by exact Hp. split; intros Hc.
  - rewrite app_nth1 by (rewrite length_replicate; lia).
    rewrite nth_lookup, lookup_replicate_2 by lia. reflexivity.
  - rewrite app_nth2 by (rewrite length_replicate; lia).
    rewrite length_replicate.
    assert (Hin : i - (period - 1) < length (emaValues oldestFirst period))
      by (rewrite emaValues_length; lia).
    destruct (nth_lookup_or_length (emaValues oldestFirst period)
                (i - (period - 1)) (ofNat 0)) as [Hl|Hl]; [|lia].
    eexists. rewrite nth_lookup, list_lookup_fmap, Hl. reflexivity.
Qed.

(** Counting the entries a map over the indices keeps, when it keeps
    exactly the indices from [k] on. *)
Lemma kept_from_index {A B : Type} (g : nat -> option B) (l : list A)
    (k : nat) :
  (forall i, i < length l -> i < k -> g i = None) ->
  (forall i, i < length l -> k <= i -> is_Some (g i)) ->
  length (omap (fun v => v) (imap (fun i _ => g i) l)) = length l - k.
Proof.
  revert g k; induction l as [|x l IH]; intros g k Hnone Hsome; [easy|].
  rewrite imap_cons. cbn [omap list_omap length].
  destruct k as [|k].
  - destruct (Hsome 0) as [v Hv]; [simpl; lia|lia|]. rewrite Hv. simpl.
    f_equal.
    rewrite <- (Nat.sub_0_r (length l)).
    apply (IH (g ∘ S) 0); intros i Hi Hk; [lia|].
    apply Hsome; simpl; lia.
  - rewrite (Hnone 0) by (simpl; lia).
    apply (IH (g ∘ S) k); intros i Hi Hk.
    + apply Hnone; simpl; lia.
    + apply Hsome; simpl; lia.
Qed.

Lemma macdValues_length (oldest : list num) :
  26 <= length oldest ->
  length (macdValuesOf oldest) = length oldest - 25.
Proof.
  intros Hlen. unfold macdValuesOf.
  apply (kept_from_index
           (fun i => match nth i (_emaArray oldest 12) None,
                           nth i (_emaArray oldest 26) None with
                     | Some a, Some b => Some (a - b)%js
                     | _, _ => None
                     end)); intros i Hi Hk.
  - destruct (emaArray_nth oldest 26 i) as [Hn _]; [lia|lia|].
    rewrite Hn by lia. destruct (nth i (_emaArray oldest 12) None); auto.
  - destruct (emaArray_nth oldest 12 i) as [_ [a Ha]]; [lia|lia|lia|].
    destruct (emaArray_nth oldest 26 i) as [_ [b Hb]]; [lia|lia|lia|].
    rewrite Ha, Hb. eauto.
Qed.

Lemma emaArray_last_is_number (values : list num) (period : nat) :
  1 <= period <= length values ->
  is_Some (lastEntry (_emaArray values period)).
Proof.
  intros Hp. rewrite emaArray_shape by exact Hp. unfold lastEntry.
  assert (Hne : emaValues values period <> []) by (unfold emaValues; easy).
  destruct (last_is_Some (emaValues values period)) as [_ Hl].
  destruct (Hl Hne) as [v Hv].
  apply last_Some in Hv as [l' Hv]. rewrite Hv, map_app, app_assoc.
  simpl. rewrite last_snoc. simpl. eauto.
Qed.

Lemma calculateMACD_enough (prices : list num) :
  35 <= length prices -> is_Some (calculateMACD prices).
Proof.
  intros Hlen. unfold calculateMACD.
  destruct (Nat.ltb_spec (length prices) 35) as [Hlt|_]; [lia|].
  assert (Hm : length (macdValuesOf (reverse prices)) = length prices - 25).
  { rewrite macdValues_length; rewrite length_reverse; lia. }
  destruct (Nat.ltb_spec (length (macdValuesOf (reverse prices))) 9)
    as [Hlt|_]; [lia|].
  destruct (emaArray_last_is_number (macdValuesOf (reverse prices)) 9)
    as [s Hs]; [lia|].
  rewrite Hs.
  destruct (last_is_Some (macdValuesOf (reverse prices))) as [_ Hl].
  destruct Hl as [m Hmm].
  { intros Heq. rewrite Heq in Hm. simpl in Hm. lia. }
  rewrite Hmm. eauto.
Qed.

(** C1. A newest-first price sequence shorter than the length an
    indicator requires gives [null] (and so neither zero nor an
    exception): SMA below [period] points, RSI(14) below 15 points, MACD
    below 35 points, Bollinger Bands below 20 points. *)
Theorem short_series_is_null (prices : list num) (period : nat) :
  (length prices < period -> calculateSMA prices period = None)
  /\ (length prices < 15 -> calculateRSI prices 14 = None)
  /\ (length prices < 35 -> calculateMACD prices = None)
  /\ (length prices < 20 -> calculateBollingerBands prices 20 = None).
Proof.
  unfold calculateSMA, calculateRSI, calculateMACD, calculateBollingerBands.
  repeat split; intros Hlen.
  - destruct (Nat.ltb_spec (length prices) period); [reflexivity|lia].
  - destruct (Nat.ltb_spec (length prices) (14 + 1)); [reflexivity|lia].
  - destruct (Nat.ltb_spec (length prices) 35); [reflexivity|lia].
  - destruct (Nat.ltb_spec (length prices) 20); [reflexivity|lia].
Qed.

(** C10. From 35 points on the MACD line has at least 10 values, so the
    inner "fewer than 9 values" branch is never taken, and
    [calculateMACD] is [null] exactly below 35 points. *)
Theorem macd_null_iff_short (prices : list num) :
  (35 <= length prices -> 10 <= length (macdValuesOf (reverse prices)))
  /\ (calculateMACD prices = None <-> length prices < 35).
Proof.
  split.
  - intros Hlen. rewrite macdValues_length; rewrite length_reverse; lia.
  - split.
    + intros Hnone. destruct (Nat.lt_ge_cases (length prices) 35) as [|Hge];
        [assumption|].
      destruct (calculateMACD_enough prices Hge) as [m Hm]. congruence.
    + intros Hlt. unfold calculateMACD.
      destruct (Nat.ltb_spec (length prices) 35); [reflexivity|lia].
Qed.

Lemma ema_loop_lookup (k prev : num) (rest : list num) (j : nat)
    (price : num) :
  rest !! j = Some price ->
  exists before,
    match j with
    | 0 => before = prev
    | S j' => ema_loop k prev rest !! j' = Some (Some before)
    end
    /\ ema_loop k prev rest !! j
       = Some (Some (price * k + before * (ofNat 1 - k))%js).
Proof.
  revert prev j; induction rest as [|p rest IH]; intros prev j Hj;
    [discriminate|].
  destruct j as [|j]; simpl in *.
  - injection Hj as ->. eauto.
  - destruct (IH (p * k + prev * (ofNat 1 - k))%js j Hj)
      as (before & Hb & Hv).
    exists before. split; [|exact Hv].
    destruct j as [|j]; [subst; reflexivity|exact Hb].
Qed.

(** C4, as the code has it.  A sequence shorter than the period gives the
    empty array.  Otherwise, for a period of at least 1, the array is as
    long as the input, holds [null] before index [period - 1], the mean
    of the first [period] entries at index [period - 1], and from index
    [period] on [price[i] * k + ema[i-1] * (1 - k)] with
    [k = 2 / (period + 1)]. *)
Theorem emaArray_chain (oldestFirst : list num) (period : nat) :
  (length oldestFirst < period -> _emaArray oldestFirst period = [])
  /\ (1 <= period <= length oldestFirst ->
      let ema := _emaArray oldestFirst period in
      let k := (ofNat 2 / (ofNat period + ofNat 1))%js in
      length ema = length oldestFirst
      /\ (forall i, i < period - 1 -> ema !! i = Some None)
      /\ ema !! (period - 1)
         = Some (Some (sum (firstn period oldestFirst) / ofNat period)%js)
      /\ (forall i price,
            period <= i -> oldestFirst !! i = Some price ->
            exists prev,
              ema !! (i - 1) = Some (Some prev)
              /\ ema !! i
                 = Some (Some (price * k + prev * (ofNat 1 - k))%js))).
Proof.
  split.
  - intros Hlt. unfold _emaArray.
    destruct (Nat.ltb_spec (length oldestFirst) period); [reflexivity|lia].
  - intros Hp ema k. split; [apply emaArray_length; exact Hp|].
    subst ema. unfold _emaArray.
    destruct (Nat.ltb_spec (length oldestFirst) period) as [Hlt|_]; [lia|].
    destruct (Nat.eqb_spec period 0) as [->|_]; [lia|].
    fold k.
    set (seed := (sum (firstn period oldestFirst) / ofNat period)%js).
    assert (Hrep : length (replicate (period - 1) (@None num)) = period - 1)
      by apply length_replicate.
    split; [|split].
    + intros i Hi. rewrite lookup_app_l by lia.
      apply lookup_replicate_2. exact Hi.
    + rewrite lookup_app_r by lia. rewrite Hrep, Nat.sub_diag. reflexivity.
    + intros i price Hi Hprice.
      assert (Hdrop : skipn period oldestFirst !! (i - period) = Some price).
      { rewrite lookup_drop. rewrite <- Hprice. f_equal. lia. }
      destruct (ema_loop_lookup k seed _ _ _ Hdrop) as (before & Hb & Hv).
      exists before. split.
      * rewrite lookup_app_r by lia. rewrite Hrep.
        destruct (i - period) as [|j] eqn:Hj.
        -- replace (i - 1 - (period - 1)) with 0 by lia. subst before.
           reflexivity.
        -- replace (i - 1 - (period - 1)) with (S j) by lia.
           simpl. exact Hb.
      * rewrite lookup_app_r by lia. rewrite Hrep.
        replace (i - (period - 1)) with (S (i - period)) by lia.
        simpl. exact Hv.
Qed.

(** Each change is the difference of two neighbours, newer minus
    older. *)
Lemma changesOf_lookup (oldest : list num) (i : nat) (c : num) :
  changesOf oldest !! i = Some c ->
  exists a b,
    oldest !! i = Some a /\ oldest !! S i = Some b /\ c = (b - a)%js.
Proof.
  unfold changesOf. rewrite lookup_tail, list_lookup_imap.
  destruct (oldest !! S i) as [b|] eqn:Hb; [|discriminate].
  simpl. intros [= <-].
  assert (Hi : i < length oldest).
  { apply lookup_lt_Some in Hb. lia. }
  destruct (lookup_lt_is_Some_2 oldest i Hi) as [a Ha].
  exists a, b. repeat split; [exact Ha|].
  rewrite Nat.sub_0_r. rewrite (nth_lookup_Some _ _ _ _ Ha). reflexivity.
Qed.

Lemma changesOf_length (oldest : list num) :
  length (changesOf oldest) = length oldest - 1.
Proof.
  unfold changesOf. rewrite length_tl, length_imap. reflexivity.
Qed.

End WithNumber.
End EngineFacts.

(** ** Rounding in binary64

    The operations of [SpecFloat] followed through their rounding: what
    they return for numbers that are not negative, with bounds in real
    numbers. *)

Module Binary64Facts.
Import Binary64.
Local Open Scope Z_scope.

Lemma bpow_pos (e : Z) : (0 < bpow e)%R.
Proof. apply powerRZ_lt. lra. Qed.

Lemma bpow_add (a b : Z) : bpow (a + b) = (bpow a * bpow b)%R.
Proof. apply powerRZ_add. lra. Qed.

Lemma bpow_0 : bpow 0 = 1%R.
Proof. reflexivity. Qed.

Lemma bpow_1 : bpow 1 = 2%R.
Proof. unfold bpow. simpl. lra. Qed.

Lemma bpow_nonneg_ge_1 (k : Z) : 0 <= k -> (1 <= bpow k)%R.
Proof.
  intros Hk. unfold bpow. rewrite <- (Z2Nat.id k Hk), <- pow_powerRZ.
  apply pow_R1_Rle. lra.
Qed.

Lemma bpow_le (a b : Z) : a <= b -> (bpow a <= bpow b)%R.
Proof.
  intros Hab. replace b with (a + (b - a)) by lia. rewrite bpow_add.
  pose proof (bpow_pos a). pose proof (bpow_nonneg_ge_1 (b - a)).
  assert (1 <= bpow (b - a))%R by (apply H0; lia). nra.
Qed.

Lemma bpow_lt (a b : Z) : a < b -> (bpow a < bpow b)%R.
Proof.
  intros Hab. replace b with (a + 1 + (b - a - 1)) by lia.
  rewrite !bpow_add, bpow_1.
  pose proof (bpow_pos a).
  assert (1 <= bpow (b - a - 1))%R by (apply bpow_nonneg_ge_1; lia). nra.
Qed.

Lemma bpow_lt_inv (a b : Z) : (bpow a < bpow b)%R -> a < b.
Proof.
  intros Hlt. destruct (Z.lt_ge_cases a b) as [|Hge]; [assumption|].
  apply bpow_le in Hge. lra.
Qed.

Lemma bpow_Z (k : Z) : 0 <= k -> bpow k = IZR (2 ^ k).
Proof.
  intros Hk. unfold bpow. rewrite <- (Z2Nat.id k Hk).
  rewrite <- pow_powerRZ, <- pow_IZR. reflexivity.
Qed.

Lemma digits2_pos_bounds (m : positive) :
  2 ^ (Zpos (digits2_pos m) - 1) <= Zpos m < 2 ^ Zpos (digits2_pos m).
Proof.
  induction m as [p IH|p IH|]; cbn [digits2_pos]; [| |simpl; lia].
  - rewrite Pos2Z.inj_succ.
    replace (Z.succ (Zpos (digits2_pos p)) - 1)
      with (Z.succ (Zpos (digits2_pos p) - 1)) by lia.
    rewrite !Z.pow_succ_r by lia. lia.
  - rewrite Pos2Z.inj_succ.
    replace (Z.succ (Zpos (digits2_pos p)) - 1)
      with (Z.succ (Zpos (digits2_pos p) - 1)) by lia.
    rewrite !Z.pow_succ_r by lia. lia.
Qed.

Lemma digits_real (m : positive) :
  (bpow (Zpos (digits2_pos m) - 1) <= IZR (Zpos m)
   < bpow (Zpos (digits2_pos m)))%R.
Proof.
  destruct (digits2_pos_bounds m) as [Hlo Hhi].
  rewrite !bpow_Z by lia. split; [apply IZR_le|apply IZR_lt]; assumption.
Qed.

Lemma F2R_shift (m e : Z) : F2R (2 * m) e = F2R m (e + 1).
Proof.
  unfold F2R. rewrite bpow_add, bpow_1, mult_IZR. lra.
Qed.

Lemma F2R_lt (m1 m2 e : Z) : (F2R m1 e < F2R m2 e)%R <-> m1 < m2.
Proof.
  unfold F2R. pose proof (bpow_pos e). split; intros Hlt.
  - apply lt_IZR. nra.
  - apply IZR_lt in Hlt. nra.
Qed.

Lemma F2R_le (m1 m2 e : Z) : (F2R m1 e <= F2R m2 e)%R <-> m1 <= m2.
Proof.
  unfold F2R. pose proof (bpow_pos e). split; intros Hle.
  - apply le_IZR. nra.
  - apply IZR_le in Hle. nra.
Qed.

Lemma F2R_eq (m1 m2 e : Z) : F2R m1 e = F2R m2 e <-> m1 = m2.
Proof.
  unfold F2R. pose proof (bpow_pos e). split; intros Heq.
  - apply eq_IZR. nra.
  - subst. reflexivity.
Qed.

Lemma shr_1_inb (mrs : shr_record) (e : Z) (x : R) :
  inb mrs e x -> inb (shr_1 mrs) (e + 1) x.
Proof.
  destruct mrs as [m r s]. unfold inb. cbn [shr_m shr_r shr_s].
  intros (Hm & [Hlo Hhi] & Hexact).
  destruct m as [|p|p]; [|destruct p as [p|p|]|lia]; cbn [shr_1 shr_m shr_r shr_s].
  - (* 0 *)
    split; [lia|]. unfold F2R in *. rewrite bpow_add, bpow_1.
    pose proof (bpow_pos e). cbn [orb]. cbn in Hlo, Hhi.
    split; [lra|]. rewrite Hexact. lra.
  - (* 2p + 1 *)
    split; [lia|].
    assert (H1 : F2R (Zpos p) (e + 1) = F2R (2 * Zpos p) e)
      by (symmetry; apply F2R_shift).
    assert (H2 : F2R (Zpos p + 1) (e + 1) = F2R (2 * (Zpos p + 1)) e)
      by (symmetry; apply F2R_shift).
    rewrite H1, H2.
    assert (Hlt : (F2R (2 * Zpos p) e < F2R (Zpos p~1) e)%R)
      by (apply F2R_lt; lia).
    replace (2 * (Zpos p + 1)) with (Zpos p~1 + 1) by lia.
    split; [lra|]. cbn [orb]. split; [discriminate|lra].
  - (* 2p *)
    split; [lia|].
    assert (H1 : F2R (Zpos p) (e + 1) = F2R (Zpos p~0) e)
      by (rewrite <- F2R_shift; reflexivity).
    assert (H2 : F2R (Zpos p + 1) (e + 1) = F2R (2 * (Zpos p + 1)) e)
      by (symmetry; apply F2R_shift).
    rewrite H1, H2.
    assert (Hlt : (F2R (Zpos p~0 + 1) e < F2R (2 * (Zpos p + 1)) e)%R)
      by (apply F2R_lt; lia).
    split; [lra|]. cbn [orb]. exact Hexact.
  - (* 1 *)
    split; [lia|].
    assert (H2 : F2R (0 + 1) (e + 1) = F2R (1 + 1) e)
      by (rewrite <- F2R_shift; reflexivity).
    rewrite H2.
    assert (H0 : F2R 0 (e + 1) = 0%R) by (unfold F2R; lra).
    assert (Hpos : (0 < F2R 1 e)%R)
      by (unfold F2R; pose proof (bpow_pos e); lra).
    rewrite H0. split; [lra|]. cbn [orb]. split; [discriminate|lra].
Qed.

Lemma iter_shr_inb (p : positive) :
  forall mrs e x,
    inb mrs e x -> inb (SpecFloat.iter_pos shr_1 p mrs) (e + Zpos p) x.
Proof.
  induction p as [p IH|p IH|]; intros mrs e x Hinb; cbn [SpecFloat.iter_pos].
  - replace (e + Zpos p~1) with (e + 1 + Zpos p + Zpos p) by lia.
    apply IH, IH, shr_1_inb, Hinb.
  - replace (e + Zpos p~0) with (e + Zpos p + Zpos p) by lia.
    apply IH, IH, Hinb.
  - apply shr_1_inb, Hinb.
Qed.

Lemma shr_inb (mrs : shr_record) (e n : Z) (x : R) :
  inb mrs e x ->
  inb (fst (shr mrs e n)) (snd (shr mrs e n)) x
  /\ snd (shr mrs e n) = e + Z.max n 0.
Proof.
  intros Hinb. unfold shr. destruct n as [|p|p]; cbn [fst snd].
  - split; [exact Hinb|lia].
  - split; [apply iter_shr_inb, Hinb|lia].
  - split; [exact Hinb|lia].
Qed.

Lemma F2R_change_exp (c ec e : Z) :
  e <= ec -> F2R c ec = F2R (c * 2 ^ (ec - e)) e.
Proof.
  intros Hle. unfold F2R. rewrite mult_IZR, <- bpow_Z by lia.
  replace ec with (ec - e + e) at 1 by lia. rewrite bpow_add. lra.
Qed.

(** A number of the grid of exponent [ec] that lies below a number of the
    finer grid of exponent [e] lies on or below the grid point before. *)
Lemma grid_le (c ec m e : Z) (x : R) :
  e <= ec -> (F2R c ec <= x)%R -> (x < F2R (m + 1) e)%R ->
  (F2R c ec <= F2R m e)%R.
Proof.
  intros Hle Hlo Hhi. rewrite (F2R_change_exp c ec e Hle) in *.
  apply F2R_le. assert (c * 2 ^ (ec - e) < m + 1); [|lia].
  apply (F2R_lt _ _ e). lra.
Qed.

Lemma grid_ge (c ec m e : Z) (x : R) :
  e <= ec -> (F2R m e < x)%R -> (x <= F2R c ec)%R ->
  (F2R (m + 1) e <= F2R c ec)%R.
Proof.
  intros Hle Hlo Hhi. rewrite (F2R_change_exp c ec e Hle) in *.
  apply F2R_le. assert (m < c * 2 ^ (ec - e)); [|lia].
  apply (F2R_lt _ _ e). lra.
Qed.

Lemma fexp64_eq (e : Z) : fexp64 e = Z.max (e - 53) (-1074).
Proof. reflexivity. Qed.

Lemma bounded_spec (m : positive) (e : Z) :
  bounded prec emax m e = true ->
  -1074 <= e <= 971
  /\ Zpos (digits2_pos m) <= 53
  /\ (e = -1074 \/ Zpos (digits2_pos m) = 53).
Proof.
  unfold bounded, canonical_mantissa. rewrite andb_true_iff, fexp64_eq.
  rewrite Z.eqb_eq, Z.leb_le. change (emax - prec) with 971. lia.
Qed.

Lemma bounded_below (m : positive) (e : Z) :
  bounded prec emax m e = true -> (F2R (Zpos m) e < bpow (53 + e))%R.
Proof.
  intros Hb. apply bounded_spec in Hb as (_ & Hd & _).
  destruct (digits_real m) as [_ Hhi]. unfold F2R.
  rewrite bpow_add. pose proof (bpow_pos e).
  assert (bpow (Zpos (digits2_pos m)) <= bpow 53)%R by (apply bpow_le; lia).
  nra.
Qed.

(** A canonical number lies below every number with a full mantissa and a
    larger exponent. *)
Lemma above_canon (c : positive) (ec m e : Z) :
  bounded prec emax c ec = true -> ec < e -> 2 ^ 52 <= m ->
  (F2R (Zpos c) ec < F2R m e)%R.
Proof.
  intros Hb He Hm. pose proof (bounded_below c ec Hb) as Hc.
  assert (bpow (53 + ec) <= bpow (52 + e))%R by (apply bpow_le; lia).
  assert (bpow (52 + e) <= F2R m e)%R.
  { rewrite bpow_add, (bpow_Z 52) by lia. unfold F2R.
    apply IZR_le in Hm. pose proof (bpow_pos e). nra. }
  lra.
Qed.

Lemma full_mantissa (m e : Z) (x : R) :
  (bpow (52 + e) <= x)%R -> (x < F2R (m + 1) e)%R -> 2 ^ 52 <= m.
Proof.
  intros Hlo Hhi. assert (2 ^ 52 < m + 1); [|lia].
  apply (F2R_lt _ _ e). unfold F2R at 1.
  rewrite <- bpow_Z, <- bpow_add by lia. lra.
Qed.

Lemma Zdigits2_real (m : Z) :
  0 < m -> (bpow (Zdigits2 m - 1) <= IZR m)%R.
Proof.
  destruct m as [|p|p]; try lia. intros _. apply digits_real.
Qed.

(** The steps of [binary_round_aux] on a non-negative mantissa. *)
Lemma round_aux_steps (Q E : Z) (l : location) (x : R) :
  inb (shr_record_of_loc Q l) E x ->
  exists m' m1 m2 e2,
    let e1 := E + Z.max (fexp64 (Zdigits2 Q + E) - E) 0 in
    (F2R m' e1 <= x < F2R (m' + 1) e1)%R
    /\ 0 <= m'
    /\ (m1 = m' \/ (m1 = m' + 1 /\ (F2R m' e1 < x)%R))
    /\ e2 = e1 + Z.max (fexp64 (Zdigits2 m1 + e1) - e1) 0
    /\ 0 <= m2
    /\ (F2R m2 e2 <= F2R m1 e1 < F2R (m2 + 1) e2)%R
    /\ binary_round_aux prec emax false Q E l
       = match m2 with
         | Z0 => S754_zero false
         | Zpos m =>
             if e2 <=? emax - prec then S754_finite false m e2
             else S754_infinity false
         | Zneg _ => S754_nan
         end.
Proof.
  intros Hinb. unfold binary_round_aux, shr_fexp.
  set (n := fexp64 (Zdigits2 Q + E) - E).
  destruct (shr_inb _ E n x Hinb) as [Hinb1 He1'].
  destruct (shr (shr_record_of_loc Q l) E n) as [r1 e1] eqn:Hshr1.
  cbn [fst snd] in Hinb1, He1'.
  set (m1 := round_nearest_even (shr_m r1) (loc_of_shr_record r1)).
  destruct Hinb1 as (Hm' & Hx & Hexact).
  assert (Hm1 : m1 = shr_m r1
                \/ (m1 = shr_m r1 + 1 /\ (F2R (shr_m r1) e1 < x)%R)).
  { subst m1. destruct r1 as [m r s]. cbn [shr_m shr_r shr_s] in *.
    assert (Hstrict : r || s = true -> (F2R m e1 < x)%R).
    { intros Hrs. destruct (Req_dec x (F2R m e1)) as [Heq|Hne]; [|lra].
      apply Hexact in Heq. congruence. }
    destruct r, s; cbn [loc_of_shr_record round_nearest_even];
      [right|destruct (Z.even m); [left|right]|left|left];
      try reflexivity; (split; [reflexivity|apply Hstrict; reflexivity]). }
  assert (Hm1pos : 0 <= m1) by (destruct Hm1 as [->|[-> _]]; lia).
  set (n2 := fexp64 (Zdigits2 m1 + e1) - e1).
  assert (Hinb2 : inb (shr_record_of_loc m1 loc_Exact) e1 (F2R m1 e1)).
  { unfold inb. cbn [shr_record_of_loc shr_m shr_r shr_s orb].
    split; [exact Hm1pos|]. split; [|tauto].
    split; [lra|]. apply F2R_lt. lia. }
  destruct (shr_inb _ e1 n2 _ Hinb2) as [Hinb3 He2].
  destruct (shr (shr_record_of_loc m1 loc_Exact) e1 n2) as [r2 e2] eqn:Hshr2.
  cbn [fst snd] in Hinb3, He2.
  destruct Hinb3 as (Hm2 & Hx2 & _).
  exists (shr_m r1), m1, (shr_m r2), e2. cbn zeta.
  rewrite <- He1'. repeat split; try assumption; try apply Hx; try apply Hx2.
Qed.

Lemma sampleOf_inb (Q E : Z) (l : location) :
  0 <= Q -> inb (shr_record_of_loc Q l) E (sampleOf Q E l).
Proof.
  intros HQ. unfold inb, sampleOf.
  assert (Hnext : F2R (Q + 1) E = (F2R Q E + bpow E)%R).
  { unfold F2R. rewrite plus_IZR. lra. }
  pose proof (bpow_pos E).
  destruct l as [|[]]; cbn [shr_record_of_loc shr_m shr_r shr_s orb];
    (split; [exact HQ|]); rewrite Hnext;
    (split; [lra|]); split; try discriminate; try lra; reflexivity.
Qed.

(** Rounding a non-negative mantissa gives a zero, a positive number or
    the positive infinity, never [NaN]. *)
Lemma round_aux_nonneg (Q E : Z) (l : location) :
  0 <= Q ->
  match binary_round_aux prec emax false Q E l with
  | S754_zero false | S754_finite false _ _ | S754_infinity false => True
  | _ => False
  end.
Proof.
  intros HQ.
  destruct (round_aux_steps Q E l _ (sampleOf_inb Q E l HQ))
    as (m' & m1 & m2 & e2 & Hsteps). cbn zeta in Hsteps.
  destruct Hsteps as (_ & _ & _ & _ & Hm2 & _ & ->).
  destruct m2 as [|m|m]; [exact I| |lia].
  destruct (e2 <=? emax - prec); exact I.
Qed.

Lemma canonical_exponent (d E e : Z) :
  e = fexp64 (d + E) -> -1074 < e -> e = d + E - 53.
Proof. rewrite fexp64_eq. lia. Qed.

(** When the canonical exponent of a mantissa lies above [ec], the
    number is at least [2^(53 + ec)]. *)
Lemma large_exponent (Q E ec : Z) :
  0 <= Q -> E <= fexp64 (Zdigits2 Q + E) -> -1074 <= ec ->
  ec < fexp64 (Zdigits2 Q + E) ->
  (bpow (52 + fexp64 (Zdigits2 Q + E)) <= F2R Q E)%R.
Proof.
  intros HQ Hcanon Hec Hlt.
  pose proof (canonical_exponent (Zdigits2 Q) E _ eq_refl ltac:(lia)) as He.
  assert (0 < Q).
  { destruct Q as [|p|p]; [|lia|lia]. cbn [Zdigits2] in *.
    rewrite fexp64_eq in *. lia. }
  rewrite He. replace (52 + (Zdigits2 Q + E - 53)) with (Zdigits2 Q - 1 + E)
    by lia.
  rewrite bpow_add. unfold F2R. pose proof (Zdigits2_real Q H).
  pose proof (bpow_pos E). nra.
Qed.

(** The result of rounding a number that is at most a canonical number
    [c * 2^ec] is at most this number; it is zero or finite. *)
Lemma round_aux_upper (Q E : Z) (l : location) (x : R) (c : positive)
    (ec : Z) :
  inb (shr_record_of_loc Q l) E x ->
  E <= fexp64 (Zdigits2 Q + E) ->
  bounded prec emax c ec = true ->
  (x <= F2R (Zpos c) ec)%R ->
  binary_round_aux prec emax false Q E l = S754_zero false
  \/ exists m e,
       binary_round_aux prec emax false Q E l = S754_finite false m e
       /\ (F2R (Zpos m) e <= F2R (Zpos c) ec)%R.
Proof.
  intros Hinb Hcanon Hb Hx.
  assert (HQ : 0 <= Q) by (destruct Hinb as [HQ _]; destruct l as [|[]];
                            exact HQ).
  assert (HQx : (F2R Q E <= x)%R).
  { destruct Hinb as (_ & [Hlo _] & _). destruct l as [|[]]; exact Hlo. }
  destruct (round_aux_steps Q E l x Hinb)
    as (m' & m1 & m2 & e2 & Hsteps). cbn zeta in Hsteps.
  replace (E + Z.max (fexp64 (Zdigits2 Q + E) - E) 0)
    with (fexp64 (Zdigits2 Q + E)) in Hsteps by lia.
  set (e1 := fexp64 (Zdigits2 Q + E)) in *.
  destruct Hsteps as ([Hlo Hhi] & Hm' & Hm1 & He2 & Hm2 & [Hlo2 Hhi2] & ->).
  pose proof (bounded_spec c ec Hb) as (Hec & Hdc & _).
  pose proof (bounded_below c ec Hb) as Hc.
  assert (He1 : e1 <= ec).
  { destruct (Z.le_gt_cases e1 ec) as [|Hgt]; [assumption|exfalso].
    pose proof (large_exponent Q E ec HQ Hcanon ltac:(lia) Hgt) as Hbig.
    fold e1 in Hbig.
    assert (bpow (53 + ec) <= bpow (52 + e1))%R by (apply bpow_le; lia).
    lra. }
  assert (Hr1 : (F2R m1 e1 <= F2R (Zpos c) ec)%R).
  { destruct Hm1 as [->|[-> Hstrict]]; [lra|].
    apply (grid_ge _ _ _ _ x); [exact He1|exact Hstrict|exact Hx]. }
  destruct m2 as [|m|m]; [left; reflexivity| |lia].
  right. exists m, e2.
  assert (He2' : e2 <= 971).
  { destruct (Z.le_gt_cases (fexp64 (Zdigits2 m1 + e1) - e1) 0) as [Hn|Hn];
      [lia|].
    destruct (Z.le_gt_cases e2 971) as [|Hgt]; [assumption|exfalso].
    assert (He2'' : e2 = fexp64 (Zdigits2 m1 + e1)) by lia.
    pose proof (canonical_exponent _ _ _ He2'' ltac:(lia)) as Hd.
    assert (0 < m1).
    { destruct m1 as [|p|p]; [|lia|]; cbn [Zdigits2] in *;
        [rewrite fexp64_eq in *; lia|].
      destruct Hm1 as [Heq|[Heq _]]; lia. }
    pose proof (Zdigits2_real m1 H) as Hdig.
    assert (bpow 1024 <= F2R m1 e1)%R.
    { unfold F2R.
      assert (bpow 1024 <= bpow (Zdigits2 m1 - 1 + e1))%R
        by (apply bpow_le; lia).
      rewrite bpow_add in H0. pose proof (bpow_pos e1). nra. }
    assert (bpow (53 + ec) <= bpow 1024)%R by (apply bpow_le; lia).
    lra. }
  destruct (Z.leb_spec e2 (emax - prec)) as [_|Hgt];
    [|change (emax - prec) with 971 in Hgt; lia].
  split; [reflexivity|lra].
Qed.

(** The result of rounding a number that is at least a canonical number
    [c * 2^ec] is at least this number; it is finite or infinite. *)
Lemma round_aux_lower (Q E : Z) (l : location) (x : R) (c : positive)
    (ec : Z) :
  inb (shr_record_of_loc Q l) E x ->
  E <= fexp64 (Zdigits2 Q + E) ->
  bounded prec emax c ec = true ->
  (F2R (Zpos c) ec <= x)%R ->
  binary_round_aux prec emax false Q E l = S754_infinity false
  \/ exists m e,
       binary_round_aux prec emax false Q E l = S754_finite false m e
       /\ (F2R (Zpos c) ec <= F2R (Zpos m) e)%R.
Proof.
  intros Hinb Hcanon Hb Hx.
  assert (HQ : 0 <= Q) by (destruct Hinb as [HQ _]; destruct l as [|[]];
                            exact HQ).
  assert (HQx : (F2R Q E <= x)%R).
  { destruct Hinb as (_ & [Hlo _] & _). destruct l as [|[]]; exact Hlo. }
  destruct (round_aux_steps Q E l x Hinb)
    as (m' & m1 & m2 & e2 & Hsteps). cbn zeta in Hsteps.
  replace (E + Z.max (fexp64 (Zdigits2 Q + E) - E) 0)
    with (fexp64 (Zdigits2 Q + E)) in Hsteps by lia.
  set (e1 := fexp64 (Zdigits2 Q + E)) in *.
  destruct Hsteps as ([Hlo Hhi] & Hm' & Hm1 & He2 & Hm2 & [Hlo2 Hhi2] & ->).
  pose proof (bounded_spec c ec Hb) as (Hec & Hdc & _).
  assert (Hcpos : (0 < F2R (Zpos c) ec)%R).
  { unfold F2R. pose proof (bpow_pos ec).
    assert (0 < IZR (Zpos c))%R by (apply IZR_lt; lia). nra. }
  assert (Hr' : (F2R (Zpos c) ec <= F2R m' e1)%R).
  { destruct (Z.le_gt_cases e1 ec) as [Hle|Hgt].
    - apply (grid_le _ _ _ _ x); assumption.
    - pose proof (large_exponent Q E ec HQ Hcanon ltac:(lia) Hgt) as Hbig.
      fold e1 in Hbig. left. apply above_canon; [exact Hb|exact Hgt|].
      apply (full_mantissa _ e1 x); lra. }
  assert (Hr1 : (F2R (Zpos c) ec <= F2R m1 e1)%R).
  { destruct Hm1 as [->|[-> _]]; [exact Hr'|].
    assert (F2R m' e1 <= F2R (m' + 1) e1)%R by (apply F2R_le; lia). lra. }
  assert (Hr2 : (F2R (Zpos c) ec <= F2R m2 e2)%R).
  { destruct (Z.le_gt_cases e2 ec) as [Hle|Hgt].
    - apply (grid_le _ _ _ _ (F2R m1 e1)); assumption.
    - destruct (Z.le_gt_cases (fexp64 (Zdigits2 m1 + e1) - e1) 0)
        as [Hn|Hn].
      + assert (e2 = e1) as -> by lia.
        assert (m2 = m1); [|subst; exact Hr1].
        apply F2R_le in Hlo2. apply F2R_lt in Hhi2. lia.
      + assert (He2'' : e2 = fexp64 (Zdigits2 m1 + e1)) by lia.
        pose proof (canonical_exponent _ _ _ He2'' ltac:(lia)) as Hd.
        assert (0 < m1).
        { destruct m1 as [|p|p]; [|lia|]; cbn [Zdigits2] in *;
            [rewrite fexp64_eq in *; lia|].
          destruct Hm1 as [Heq|[Heq _]]; lia. }
        pose proof (Zdigits2_real m1 H) as Hdig.
        left. apply above_canon; [exact Hb|exact Hgt|].
        apply (full_mantissa _ e2 (F2R m1 e1)); [|exact Hhi2].
        replace (52 + e2) with (Zdigits2 m1 - 1 + e1) by lia.
        rewrite bpow_add. unfold F2R. pose proof (bpow_pos e1). nra. }
  destruct m2 as [|m|m]; [unfold F2R in Hr2 at 2; lra| |lia].
  destruct (e2 <=? emax - prec); [right|left; reflexivity].
  exists m, e2. split; [reflexivity|exact Hr2].
Qed.

(** The sign plays no part in rounding. *)
Lemma round_aux_sign (Q E : Z) (l : location) :
  binary_round_aux prec emax true Q E l
  = SFopp (binary_round_aux prec emax false Q E l).
Proof.
  unfold binary_round_aux.
  destruct (shr_fexp prec emax Q E l) as [mrs1 e1].
  destruct (shr_fexp prec emax _ e1 loc_Exact) as [mrs2 e2].
  destruct (shr_m mrs2); try reflexivity.
  destruct (e2 <=? emax - prec); reflexivity.
Qed.

Lemma iter_xO (m d : positive) :
  Zpos (Pos.iter xO m d) = Zpos m * 2 ^ Zpos d.
Proof.
  induction d as [|d IH] using Pos.peano_ind.
  - cbn [Pos.iter]. lia.
  - rewrite Pos.iter_succ, Pos2Z.inj_succ, Z.pow_succ_r by lia.
    rewrite Pos2Z.inj_xO, IH. lia.
Qed.

Lemma digits_iter_xO (m d : positive) :
  Zpos (digits2_pos (Pos.iter xO m d)) = Zpos (digits2_pos m) + Zpos d.
Proof.
  induction d as [|d IH] using Pos.peano_ind.
  - cbn [Pos.iter digits2_pos]. lia.
  - rewrite Pos.iter_succ. cbn [digits2_pos]. lia.
Qed.

(** [shl_align] keeps the number and lowers the exponent to the smaller
    of the two. *)
Lemma shl_align_spec (mx : positive) (ex ex' : Z) :
  snd (shl_align mx ex ex') = Z.min ex ex'
  /\ Zpos (fst (shl_align mx ex ex'))
     = Zpos mx * 2 ^ (ex - Z.min ex ex')
  /\ Zpos (digits2_pos (fst (shl_align mx ex ex')))
       + snd (shl_align mx ex ex')
     = Zpos (digits2_pos mx) + ex.
Proof.
  unfold shl_align. destruct (ex' - ex) as [|d|d] eqn:Hd; cbn [fst snd].
  - replace (Z.min ex ex') with ex by lia. rewrite Z.sub_diag. lia.
  - replace (Z.min ex ex') with ex by lia. rewrite Z.sub_diag. lia.
  - replace (Z.min ex ex') with ex' by lia.
    rewrite iter_xO, digits_iter_xO.
    replace (ex - ex') with (Zpos d) by lia. lia.
Qed.

Lemma shl_align_value (mx : positive) (ex ex' : Z) :
  ex' <= ex -> F2R (Zpos (fst (shl_align mx ex ex'))) ex' = F2R (Zpos mx) ex.
Proof.
  intros Hle. destruct (shl_align_spec mx ex ex') as (_ & -> & _).
  replace (Z.min ex ex') with ex' by lia.
  symmetry. apply F2R_change_exp. lia.
Qed.

(** [binary_round] hands [binary_round_aux] the same number with an
    exponent not above the canonical one. *)
Lemma binary_round_aux_form (mx : positive) (ex : Z) :
  exists mz ez,
    binary_round prec emax false mx ex
    = binary_round_aux prec emax false (Zpos mz) ez loc_Exact
    /\ F2R (Zpos mz) ez = F2R (Zpos mx) ex
    /\ ez <= fexp64 (Zdigits2 (Zpos mz) + ez).
Proof.
  unfold binary_round.
  pose proof (shl_align_spec mx ex (fexp64 (Zpos (digits2_pos mx) + ex)))
    as (He & _ & Hd).
  pose proof (shl_align_spec mx ex (fexp64 (Zpos (digits2_pos mx) + ex)))
    as (_ & Hm & _).
  destruct (shl_align mx ex _) as [mz ez]. cbn [fst snd] in *.
  exists mz, ez. split; [reflexivity|]. subst ez. split.
  - rewrite Hm. symmetry. apply F2R_change_exp. lia.
  - cbn [Zdigits2]. rewrite Hd. lia.
Qed.

Lemma exact_inb (Q E : Z) :
  0 <= Q -> inb (shr_record_of_loc Q loc_Exact) E (F2R Q E).
Proof. intros HQ. exact (sampleOf_inb Q E loc_Exact HQ). Qed.

Lemma round_upper (mx : positive) (ex : Z) (c : positive) (ec : Z) :
  bounded prec emax c ec = true ->
  (F2R (Zpos mx) ex <= F2R (Zpos c) ec)%R ->
  binary_round prec emax false mx ex = S754_zero false
  \/ exists m e, binary_round prec emax false mx ex = S754_finite false m e
                 /\ (F2R (Zpos m) e <= F2R (Zpos c) ec)%R.
Proof.
  intros Hc Hle.
  destruct (binary_round_aux_form mx ex) as (mz & ez & -> & Hv & Hcanon).
  apply (round_aux_upper (Zpos mz) ez loc_Exact (F2R (Zpos mz) ez) c ec);
    [apply exact_inb; lia|exact Hcanon|exact Hc|rewrite Hv; exact Hle].
Qed.

Lemma round_lower (mx : positive) (ex : Z) (c : positive) (ec : Z) :
  bounded prec emax c ec = true ->
  (F2R (Zpos c) ec <= F2R (Zpos mx) ex)%R ->
  binary_round prec emax false mx ex = S754_infinity false
  \/ exists m e, binary_round prec emax false mx ex = S754_finite false m e
                 /\ (F2R (Zpos c) ec <= F2R (Zpos m) e)%R.
Proof.
  intros Hc Hle.
  destruct (binary_round_aux_form mx ex) as (mz & ez & -> & Hv & Hcanon).
  apply (round_aux_lower (Zpos mz) ez loc_Exact (F2R (Zpos mz) ez) c ec);
    [apply exact_inb; lia|exact Hcanon|exact Hc|rewrite Hv; exact Hle].
Qed.

Lemma round_sign (mx : positive) (ex : Z) :
  binary_round prec emax true mx ex
  = SFopp (binary_round prec emax false mx ex).
Proof.
  unfold binary_round. destruct (shl_align mx ex _) as [mz ez].
  apply round_aux_sign.
Qed.

(** *** The operations on non-negative numbers *)

Lemma F2R_pos (m : positive) (e : Z) : (0 < F2R (Zpos m) e)%R.
Proof.
  unfold F2R. apply Rmult_lt_0_compat; [apply IZR_lt; lia|apply bpow_pos].
Qed.

Lemma F2R_plus (m1 m2 e : Z) : F2R (m1 + m2) e = (F2R m1 e + F2R m2 e)%R.
Proof. unfold F2R. rewrite plus_IZR. ring. Qed.

Lemma F2R_opp (m e : Z) : F2R (- m) e = (- F2R m e)%R.
Proof. unfold F2R. rewrite opp_IZR. ring. Qed.

Lemma F2R_minus (m1 m2 e : Z) : F2R (m1 - m2) e = (F2R m1 e - F2R m2 e)%R.
Proof. unfold F2R. rewrite minus_IZR. ring. Qed.

Lemma F2R_mult (m1 e1 m2 e2 : Z) :
  F2R (m1 * m2) (e1 + e2) = (F2R m1 e1 * F2R m2 e2)%R.
Proof. unfold F2R. rewrite mult_IZR, bpow_add. ring. Qed.

Lemma F2R_0 (e : Z) : F2R 0 e = 0%R.
Proof. unfold F2R. ring. Qed.

(** The smallest positive binary64 number is below every other. *)
Lemma smallest_positive (m : positive) (e : Z) :
  bounded prec emax m e = true -> (F2R 1 (-1074) <= F2R (Zpos m) e)%R.
Proof.
  intros Hb. apply bounded_spec in Hb as ((He & _) & _).
  rewrite (F2R_change_exp (Zpos m) e (-1074)) by lia.
  apply F2R_le. assert (0 < 2 ^ (e - -1074)) by (apply Z.pow_pos_nonneg; lia).
  nia.
Qed.

Lemma aligned_value (s : bool) (m : positive) (e ez : Z) :
  ez <= e ->
  F2R (cond_Zopp s (Zpos (fst (shl_align m e ez)))) ez = valueOf (S754_finite s m e).
Proof.
  intros Hle. unfold valueOf. destruct s; cbn [cond_Zopp].
  - rewrite F2R_opp, shl_align_value by exact Hle.
    change (Z.neg m) with (- Zpos m). rewrite F2R_opp. reflexivity.
  - apply shl_align_value, Hle.
Qed.

Lemma add_finite (sx : bool) (mx : positive) (ex : Z) (sy : bool)
    (my : positive) (ey : Z) :
  exists M,
    SF64add (S754_finite sx mx ex) (S754_finite sy my ey)
    = binary_normalize prec emax M (Z.min ex ey) false
    /\ F2R M (Z.min ex ey)
       = (valueOf (S754_finite sx mx ex) + valueOf (S754_finite sy my ey))%R.
Proof.
  eexists. split; [reflexivity|].
  rewrite F2R_plus, !aligned_value by lia. reflexivity.
Qed.

Lemma sub_finite (sx : bool) (mx : positive) (ex : Z) (sy : bool)
    (my : positive) (ey : Z) :
  exists M,
    SF64sub (S754_finite sx mx ex) (S754_finite sy my ey)
    = binary_normalize prec emax M (Z.min ex ey) false
    /\ F2R M (Z.min ex ey)
       = (valueOf (S754_finite sx mx ex) - valueOf (S754_finite sy my ey))%R.
Proof.
  eexists. split; [reflexivity|].
  rewrite F2R_minus, !aligned_value by lia. reflexivity.
Qed.

Lemma F2R_sign (M e : Z) : (0 < F2R M e)%R <-> 0 < M.
Proof. rewrite <- (F2R_0 e). apply F2R_lt. Qed.

Lemma round_nonneg (mx : positive) (ex : Z) :
  atLeast 0 (binary_round prec emax false mx ex).
Proof.
  destruct (binary_round_aux_form mx ex) as (mz & ez & -> & _ & _).
  pose proof (round_aux_nonneg (Zpos mz) ez loc_Exact) as Hr.
  destruct (binary_round_aux prec emax false (Zpos mz) ez loc_Exact)
    as [[]|[]| |[] m e]; cbn; try (exfalso; apply Hr; lia); try lra.
  pose proof (F2R_pos m e); lra.
Qed.

Lemma atLeast_weaken (a b : R) (f : spec_float) :
  (b <= a)%R -> atLeast a f -> atLeast b f.
Proof. intros Hle. destruct f as [s|[]| |[] m e]; cbn; auto; lra. Qed.

Lemma atLeast_0_finite (m : positive) (e : Z) :
  atLeast 0 (S754_finite false m e).
Proof. cbn. pose proof (F2R_pos m e); lra. Qed.

(** A sum of non-negative numbers is non-negative. *)
Lemma add_nonneg (x y : spec_float) :
  atLeast 0 x -> atLeast 0 y -> atLeast 0 (SF64add x y).
Proof.
  intros Hx Hy.
  destruct x as [sx|[]| |[] mx ex]; cbn in Hx; try contradiction;
    destruct y as [sy|[]| |[] my ey]; cbn in Hy; try contradiction;
    try exact I; try (apply atLeast_0_finite).
  - destruct sx, sy; cbn; lra.
  - destruct (add_finite false mx ex false my ey) as (M & -> & HM).
    cbn [valueOf cond_Zopp] in HM.
    pose proof (F2R_pos mx ex). pose proof (F2R_pos my ey).
    assert (HMpos : 0 < M) by (apply (F2R_sign M (Z.min ex ey)); lra).
    destruct M as [|p|p]; try lia. apply round_nonneg.
Qed.

(** A sum is at least a binary64 number that is not above the sum of
    lower bounds of its terms. *)
Lemma add_lower (a b : R) (c : positive) (ec : Z) (x y : spec_float) :
  atLeast a x -> atLeast b y -> (0 <= a)%R -> (0 <= b)%R ->
  bounded prec emax c ec = true -> (F2R (Zpos c) ec <= a + b)%R ->
  atLeast (F2R (Zpos c) ec) (SF64add x y).
Proof.
  intros Hx Hy Ha Hb Hc Hle. pose proof (F2R_pos c ec) as Hpos.
  destruct x as [sx|[]| |[] mx ex]; cbn in Hx; try contradiction;
    destruct y as [sy|[]| |[] my ey]; cbn in Hy; try contradiction;
    try exact I; try (cbn; lra).
  destruct (add_finite false mx ex false my ey) as (M & -> & HM).
  cbn [valueOf cond_Zopp] in HM.
  pose proof (F2R_pos mx ex). pose proof (F2R_pos my ey).
  assert (HMpos : 0 < M) by (apply (F2R_sign M (Z.min ex ey)); lra).
  destruct M as [|p|p]; try lia. cbn [binary_normalize].
  destruct (round_lower p (Z.min ex ey) c ec Hc) as [->|(m & e & -> & Hm)];
    [lra|exact I|exact Hm].
Qed.

(** A difference [x - y] with [0 <= y <= x] lies between 0 and [x]. *)
Lemma sub_upper (mx : positive) (ex : Z) (y : spec_float) :
  bounded prec emax mx ex = true ->
  atMost (F2R (Zpos mx) ex) y ->
  atMost (F2R (Zpos mx) ex) (SF64sub (S754_finite false mx ex) y).
Proof.
  intros Hb Hy. pose proof (F2R_pos mx ex) as Hpos.
  destruct y as [sy|[]| |[] my ey]; cbn in Hy; try contradiction.
  - cbn. lra.
  - destruct (sub_finite false mx ex false my ey) as (M & -> & HM).
    cbn [valueOf cond_Zopp] in HM. pose proof (F2R_pos my ey).
    destruct M as [|p|p].
    + cbn. lra.
    + cbn [binary_normalize].
      destruct (round_upper p (Z.min ex ey) mx ex Hb)
        as [->|(m & e & -> & Hm)]; [lra|cbn; lra|exact Hm].
    + exfalso. assert (F2R (Z.neg p) (Z.min ex ey) < 0)%R; [|lra].
      change (Z.neg p) with (- Zpos p). rewrite F2R_opp.
      pose proof (F2R_pos p (Z.min ex ey)). lra.
Qed.

(** The mantissa of a product is long enough for its exponent. *)
Lemma mul_canonical (mx : positive) (ex : Z) (my : positive) (ey : Z) :
  bounded prec emax mx ex = true -> bounded prec emax my ey = true ->
  ex + ey <= fexp64 (Zdigits2 (Zpos (mx * my)) + (ex + ey)).
Proof.
  intros Hx Hy. apply bounded_spec in Hx as (Hex & Hdx & Hnx).
  apply bounded_spec in Hy as (Hey & Hdy & Hny).
  cbn [Zdigits2]. rewrite fexp64_eq.
  pose proof (digits2_pos_bounds mx) as [Hmx _].
  pose proof (digits2_pos_bounds my) as [Hmy _].
  pose proof (digits2_pos_bounds (mx * my)) as [_ HQ].
  assert (Hprod : 2 ^ (Zpos (digits2_pos mx) - 1 + (Zpos (digits2_pos my) - 1))
                  <= Zpos (mx * my)).
  { rewrite Z.pow_add_r by lia. rewrite Pos2Z.inj_mul.
    apply Z.mul_le_mono_nonneg; try lia; apply Z.pow_nonneg; lia. }
  assert (Hd : Zpos (digits2_pos mx) - 1 + (Zpos (digits2_pos my) - 1)
               < Zpos (digits2_pos (mx * my))).
  { apply (Z.pow_lt_mono_r_iff 2); lia. }
  lia.
Qed.

Lemma mul_finite (mx : positive) (ex : Z) (my : positive) (ey : Z) :
  SF64mul (S754_finite false mx ex) (S754_finite false my ey)
  = binary_round_aux prec emax false (Zpos (mx * my)) (ex + ey) loc_Exact.
Proof. reflexivity. Qed.

(** The product of a non-negative number with a positive one is
    non-negative. *)
Lemma mul_nonneg (x : spec_float) (my : positive) (ey : Z) :
  atLeast 0 x -> atLeast 0 (SF64mul x (S754_finite false my ey)).
Proof.
  intros Hx.
  destruct x as [sx|[]| |[] mx ex]; cbn in Hx; try contradiction;
    try exact I.
  - cbn. lra.
  - rewrite mul_finite.
    pose proof (round_aux_nonneg (Zpos (mx * my)) (ex + ey) loc_Exact) as Hr.
    destruct (binary_round_aux prec emax false _ _ loc_Exact)
      as [[]|[]| |[] m e]; cbn; try (exfalso; apply Hr; lia); try lra.
    pose proof (F2R_pos m e); lra.
Qed.

(** A product with a positive binary64 number is at least a binary64
    number that is not above the product of the lower bound. *)
Lemma mul_lower (a : R) (c : positive) (ec : Z) (x : spec_float)
    (my : positive) (ey : Z) :
  valid_binary x = true -> bounded prec emax my ey = true ->
  atLeast a x ->
  bounded prec emax c ec = true ->
  (F2R (Zpos c) ec <= a * F2R (Zpos my) ey)%R ->
  atLeast (F2R (Zpos c) ec) (SF64mul x (S754_finite false my ey)).
Proof.
  intros Hvx Hby Hx Hc Hle. pose proof (F2R_pos c ec) as Hpos.
  pose proof (F2R_pos my ey) as Hypos.
  destruct x as [sx|[]| |[] mx ex]; cbn in Hx; try contradiction;
    try exact I.
  - exfalso. assert (a * F2R (Zpos my) ey <= 0)%R; [|lra].
    rewrite <- (Rmult_0_l (F2R (Zpos my) ey)).
    apply Rmult_le_compat_r; lra.
  - rewrite mul_finite. cbn [valid_binary] in Hvx.
    destruct (round_aux_lower (Zpos (mx * my)) (ex + ey) loc_Exact
                (F2R (Zpos (mx * my)) (ex + ey)) c ec)
      as [->|(m & e & -> & Hm)];
      [apply exact_inb; lia|apply mul_canonical; assumption|exact Hc|
       |exact I|exact Hm].
    rewrite Pos2Z.inj_mul, F2R_mult.
    apply Rle_trans with (1 := Hle). apply Rmult_le_compat_r; lra.
Qed.

(** *** Division *)

Lemma new_location_cases (n r : Z) :
  (r = 0 /\ new_location n r = loc_Exact)
  \/ (r <> 0 /\ exists c, new_location n r = loc_Inexact c).
Proof.
  unfold new_location, new_location_even, new_location_odd.
  destruct (Z.eqb_spec r 0) as [Hr|Hr].
  - left. split; [exact Hr|]. subst r. destruct (Z.even n); reflexivity.
  - right. split; [exact Hr|]. apply Z.eqb_neq in Hr.
    destruct (Z.even n); rewrite Hr; eexists; reflexivity.
Qed.

Lemma digits_next (q : Z) : 0 <= q -> q + 1 <= 2 ^ Zdigits2 q.
Proof.
  intros Hq. destruct q as [|p|p]; [cbn; lia| |lia].
  cbn [Zdigits2]. pose proof (digits2_pos_bounds p). lia.
Qed.

Lemma Zdigits2_nonneg (q : Z) : 0 <= Zdigits2 q.
Proof. destruct q; cbn; lia. Qed.

(** The integer quotient, its exponent and its location that [SFdiv]
    hands to the rounding. *)
Lemma div_core (mx : positive) (ex : Z) (my : positive) (ey : Z) :
  exists q e' l,
    SFdiv_core_binary prec emax (Zpos mx) ex (Zpos my) ey = (q, e', l)
    /\ 0 <= q
    /\ inb (shr_record_of_loc q l) e' (F2R (Zpos mx) ex / F2R (Zpos my) ey)
    /\ e' <= fexp64 (Zdigits2 q + e').
Proof.
  unfold SFdiv_core_binary. cbv zeta.
  set (d1 := Zdigits2 (Zpos mx)). set (d2 := Zdigits2 (Zpos my)).
  set (e' := Z.min (fexp64 (d1 + ex - (d2 + ey))) (ex - ey)).
  set (s := ex - ey - e').
  assert (Hs : 0 <= s) by (subst s e'; lia).
  set (m' := match s with Z0 => Zpos mx | Zpos _ => Z.shiftl (Zpos mx) s
                     | Zneg _ => 0 end).
  assert (Hm' : m' = Zpos mx * 2 ^ s).
  { subst m'. destruct s as [|p|p] eqn:Hp; [cbn; lia| |lia].
    apply Z.shiftl_mul_pow2. lia. }
  pose proof (Z_div_mod m' (Zpos my) eq_refl) as Hdiv.
  destruct (Z.div_eucl m' (Zpos my)) as [q r]. destruct Hdiv as [Hqr Hr].
  assert (Hpow : 0 < 2 ^ s) by (apply Z.pow_pos_nonneg; lia).
  assert (Hq : 0 <= q) by nia.
  exists q, e', (new_location (Zpos my) r). split; [reflexivity|].
  split; [exact Hq|].
  assert (Hx : (F2R (Zpos mx) ex / F2R (Zpos my) ey
                = (IZR q + IZR r / IZR (Zpos my)) * bpow e')%R).
  { unfold F2R. replace ex with (s + e' + ey) by (subst s; lia).
    rewrite !bpow_add, (bpow_Z s Hs).
    assert (Hreal : (IZR (Zpos mx) * IZR (2 ^ s)
                     = IZR (Zpos my) * IZR q + IZR r)%R).
    { rewrite <- !mult_IZR, <- plus_IZR. f_equal. lia. }
    pose proof (bpow_pos ey). pose proof (bpow_pos e').
    assert (IZR (Zpos my) <> 0)%R by (apply not_0_IZR; lia).
    replace (IZR q + IZR r / IZR (Zpos my))%R
      with (IZR (Zpos mx) * IZR (2 ^ s) / IZR (Zpos my))%R
      by (rewrite Hreal; field; lra).
    field. split; lra. }
  assert (Hfrac : (0 <= IZR r / IZR (Zpos my) < 1)%R).
  { assert (0 < IZR (Zpos my))%R by (apply IZR_lt; lia).
    assert (0 <= IZR r)%R by (apply IZR_le; lia).
    assert (IZR r < IZR (Zpos my))%R by (apply IZR_lt; lia).
    split.
    - apply Rmult_le_pos; [assumption|].
      apply Rlt_le, Rinv_0_lt_compat. assumption.
    - apply (Rmult_lt_reg_r (IZR (Zpos my))); [assumption|].
      unfold Rdiv. rewrite Rmult_assoc, Rinv_l by lra. lra. }
  assert (Hzero : (IZR r / IZR (Zpos my) = 0)%R <-> r = 0).
  { split.
    - intros H0. assert (0 < IZR (Zpos my))%R by (apply IZR_lt; lia).
      apply eq_IZR.
      replace (IZR r) with (IZR r / IZR (Zpos my) * IZR (Zpos my))%R
        by (field; lra).
      rewrite H0. ring.
    - intros ->. unfold Rdiv. ring. }
  split.
  - unfold inb. pose proof (bpow_pos e') as Hbp.
    assert (Hshape : forall u, (F2R q e' + u * bpow e'
                                = (IZR q + u) * bpow e')%R)
      by (intros u; unfold F2R; ring).
    assert (Hnext : F2R (q + 1) e' = ((IZR q + 1) * bpow e')%R)
      by (unfold F2R; rewrite plus_IZR; ring).
    assert (Hbounds : (F2R q e' <= F2R (Zpos mx) ex / F2R (Zpos my) ey
                       < F2R (q + 1) e')%R).
    { rewrite Hx, Hnext. unfold F2R. split.
      - apply Rmult_le_compat_r; lra.
      - apply Rmult_lt_compat_r; lra. }
    assert (Hexact : (F2R (Zpos mx) ex / F2R (Zpos my) ey)%R = F2R q e'
                     <-> r = 0).
    { rewrite <- Hzero, Hx. unfold F2R. split.
      - intros Heq. apply Rmult_eq_reg_r in Heq; lra.
      - intros ->. ring. }
    destruct (new_location_cases (Zpos my) r) as [[Hr0 ->]|[Hr0 [c ->]]].
    + cbn [shr_record_of_loc shr_m shr_r shr_s orb].
      split; [exact Hq|]. split; [exact Hbounds|]. tauto.
    + destruct c; cbn [shr_record_of_loc shr_m shr_r shr_s orb];
        (split; [exact Hq|]); (split; [exact Hbounds|]);
        split; try discriminate; intros Heq; apply Hexact in Heq;
        contradiction.
  - pose proof (digits2_pos_bounds mx) as [Hmx _].
    pose proof (digits2_pos_bounds my) as [_ Hmy].
    pose proof (digits_next q Hq) as Hnext.
    pose proof (Zdigits2_nonneg q) as Hdq.
    assert (Hlow : 2 ^ (d1 - 1 + s) <= m').
    { rewrite Hm', Z.pow_add_r by (subst d1; cbn; lia).
      apply Z.mul_le_mono_nonneg_r; [lia|exact Hmx]. }
    assert (Hup : m' < 2 ^ (Zdigits2 q + d2)).
    { rewrite Z.pow_add_r by (subst d2; cbn; lia).
      apply Z.lt_le_trans with ((q + 1) * Zpos my); [nia|].
      apply Z.mul_le_mono_nonneg; try lia.
      subst d2. cbn [Zdigits2]. lia. }
    assert (Hd : d1 - 1 + s < Zdigits2 q + d2).
    { apply (Z.pow_lt_mono_r_iff 2); [lia|subst d2; cbn; lia|lia]. }
    subst e' s. rewrite !fexp64_eq. rewrite fexp64_eq in Hs, Hd. lia.
Qed.

Lemma div_finite (mx : positive) (ex : Z) (my : positive) (ey : Z) :
  exists q e' l,
    SF64div (S754_finite false mx ex) (S754_finite false my ey)
    = binary_round_aux prec emax false q e' l
    /\ 0 <= q
    /\ inb (shr_record_of_loc q l) e' (F2R (Zpos mx) ex / F2R (Zpos my) ey)
    /\ e' <= fexp64 (Zdigits2 q + e').
Proof.
  destruct (div_core mx ex my ey) as (q & e' & l & Hcore & Hq & Hinb & He).
  exists q, e', l. unfold SF64div, SFdiv. rewrite Hcore. cbn [xorb]. auto.
Qed.

(** A quotient of a non-negative number by a positive one or the
    infinity is non-negative or [NaN]. *)
Lemma div_nonneg (x y : spec_float) :
  atLeast 0 x -> atLeast 0 y -> (forall s, y <> S754_zero s) ->
  SF64div x y = S754_nan \/ atLeast 0 (SF64div x y).
Proof.
  intros Hx Hy Hnz.
  destruct x as [sx|[]| |[] mx ex]; cbn in Hx; try contradiction;
    destruct y as [sy|[]| |[] my ey]; cbn in Hy; try contradiction;
    try (exfalso; apply (Hnz sy); reflexivity);
    try (left; reflexivity);
    try (right; destruct sx; cbn; try exact I; lra);
    try (right; destruct sy; cbn; try exact I; lra);
    try (right; cbn; try exact I; lra).
  right. destruct (div_finite mx ex my ey) as (q & e' & l & -> & Hq & _).
  pose proof (round_aux_nonneg q e' l Hq) as Hr.
  destruct (binary_round_aux prec emax false q e' l)
    as [[]|[]| |[] m e]; cbn; try (exfalso; exact Hr); try exact I; try lra.
  pose proof (F2R_pos m e); lra.
Qed.

(** By a positive binary64 number the quotient is never [NaN]. *)
Lemma div_nonneg_by_finite (x : spec_float) (my : positive) (ey : Z) :
  atLeast 0 x -> atLeast 0 (SF64div x (S754_finite false my ey)).
Proof.
  intros Hx.
  destruct (div_nonneg x (S754_finite false my ey) Hx
              (atLeast_0_finite my ey)) as [Hnan|Hok];
    [discriminate| |exact Hok].
  destruct x as [sx|[]| |[] mx ex]; cbn in Hx; try contradiction;
    try discriminate.
  destruct (div_finite mx ex my ey) as (q & e' & l & Heq & Hq & _).
  rewrite Heq in Hnan. pose proof (round_aux_nonneg q e' l Hq) as Hr.
  rewrite Hnan in Hr. contradiction.
Qed.

(** A quotient by a positive binary64 number is at least a binary64
    number whose product with the divisor is not above the lower bound of
    the dividend. *)
Lemma div_lower (a : R) (c : positive) (ec : Z) (x : spec_float)
    (my : positive) (ey : Z) :
  atLeast a x ->
  bounded prec emax c ec = true ->
  (F2R (Zpos c) ec * F2R (Zpos my) ey <= a)%R ->
  atLeast (F2R (Zpos c) ec) (SF64div x (S754_finite false my ey)).
Proof.
  intros Hx Hc Hle. pose proof (F2R_pos c ec) as Hpos.
  pose proof (F2R_pos my ey) as Hypos.
  assert (Hprod : (0 < F2R (Zpos c) ec * F2R (Zpos my) ey)%R)
    by (apply Rmult_lt_0_compat; assumption).
  destruct x as [sx|[]| |[] mx ex]; cbn in Hx; try contradiction;
    try exact I; [lra|].
  destruct (div_finite mx ex my ey) as (q & e' & l & -> & Hq & Hinb & He).
  destruct (round_aux_lower q e' l _ c ec Hinb He Hc)
    as [->|(m & e & -> & Hm)]; [|exact I|exact Hm].
  apply (Rmult_le_reg_r (F2R (Zpos my) ey)); [exact Hypos|].
  unfold Rdiv. rewrite Rmult_assoc, Rinv_l by lra. lra.
Qed.

(** A positive binary64 number divided by a number that is at least [d]
    is at most a binary64 number whose product with [d] is not below the
    dividend. *)
Lemma div_upper (d : R) (c : positive) (ec : Z) (mx : positive) (ex : Z)
    (y : spec_float) :
  (0 < d)%R -> atLeast d y ->
  bounded prec emax c ec = true ->
  (F2R (Zpos mx) ex <= F2R (Zpos c) ec * d)%R ->
  atMost (F2R (Zpos c) ec) (SF64div (S754_finite false mx ex) y).
Proof.
  intros Hd Hy Hc Hle. pose proof (F2R_pos c ec) as Hpos.
  destruct y as [sy|[]| |[] my ey]; cbn in Hy; try contradiction.
  - lra.
  - cbn. lra.
  - pose proof (F2R_pos my ey) as Hypos.
    destruct (div_finite mx ex my ey) as (q & e' & l & -> & Hq & Hinb & He).
    destruct (round_aux_upper q e' l _ c ec Hinb He Hc)
      as [->|(m & e & -> & Hm)]; [|cbn; lra|exact Hm].
    apply (Rmult_le_reg_r (F2R (Zpos my) ey)); [exact Hypos|].
    unfold Rdiv. rewrite Rmult_assoc, Rinv_l by lra.
    apply Rle_trans with (1 := Rle_trans _ _ _ (Req_le _ _ (Rmult_1_r _)) Hle).
    apply Rmult_le_compat_l; lra.
Qed.

(** *** Comparison *)

Lemma compare_finite (m1 : positive) (e1 : Z) (m2 : positive) (e2 : Z) :
  bounded prec emax m1 e1 = true -> bounded prec emax m2 e2 = true ->
  match (match e1 ?= e2 with
         | Lt => Lt
         | Gt => Gt
         | Eq => Pos.compare_cont Eq m1 m2
         end) with
  | Lt => (F2R (Zpos m1) e1 < F2R (Zpos m2) e2)%R
  | Eq => m1 = m2 /\ e1 = e2
  | Gt => (F2R (Zpos m2) e2 < F2R (Zpos m1) e1)%R
  end.
Proof.
  intros H1 H2.
  pose proof (bounded_spec m1 e1 H1) as (He1 & _ & Hn1).
  pose proof (bounded_spec m2 e2 H2) as (He2 & _ & Hn2).
  pose proof (digits2_pos_bounds m1) as [Hm1 _].
  pose proof (digits2_pos_bounds m2) as [Hm2 _].
  destruct (Z.compare_spec e1 e2) as [->|Hlt|Hgt].
  - change (Pos.compare_cont Eq m1 m2) with (m1 ?= m2)%positive.
    destruct (Pos.compare_spec m1 m2) as [->|Hlt|Hgt]; [auto| |];
      apply F2R_lt; lia.
  - apply above_canon; [exact H1|exact Hlt|].
    destruct Hn2 as [->|Hd]; [lia|]. rewrite Hd in Hm2. exact Hm2.
  - apply above_canon; [exact H2|exact Hgt|].
    destruct Hn1 as [->|Hd]; [lia|]. rewrite Hd in Hm1. exact Hm1.
Qed.

(** A value that is at most a positive binary64 number compares so. *)
Lemma atMost_leb (f : spec_float) (c : positive) (ec : Z) :
  valid_binary f = true -> bounded prec emax c ec = true ->
  atMost (F2R (Zpos c) ec) f ->
  SFleb (S754_zero false) f = true /\ SFleb f (S754_finite false c ec) = true.
Proof.
  intros Hv Hc Hf.
  destruct f as [s|[]| |[] m e]; cbn in Hf; try contradiction.
  - split; reflexivity.
  - split; [reflexivity|]. cbn [valid_binary] in Hv.
    unfold SFleb, SFcompare.
    pose proof (compare_finite m e c ec Hv Hc) as Hcmp.
    destruct (match e ?= ec with
              | Lt => Lt | Gt => Gt | Eq => Pos.compare_cont Eq m c end);
      [reflexivity|reflexivity|lra].
Qed.

(** The order of two finite values is the order of their numbers. *)
Lemma ltb_finite (sx : bool) (mx : positive) (ex : Z) (sy : bool)
    (my : positive) (ey : Z) :
  bounded prec emax mx ex = true -> bounded prec emax my ey = true ->
  SFltb (S754_finite sx mx ex) (S754_finite sy my ey) = true ->
  (valueOf (S754_finite sx mx ex) < valueOf (S754_finite sy my ey))%R.
Proof.
  intros Hx Hy. unfold SFltb, SFcompare, valueOf.
  pose proof (compare_finite mx ex my ey Hx Hy) as Hcmp.
  pose proof (F2R_pos mx ex). pose proof (F2R_pos my ey).
  destruct sx, sy; cbn [cond_Zopp];
    change (Z.neg mx) with (- Zpos mx); change (Z.neg my) with (- Zpos my);
    rewrite ?F2R_opp; try discriminate; try (intros _; lra);
    (destruct (ex ?= ey); [destruct (Pos.compare_cont Eq mx my)| |]);
    cbn in Hcmp |- *; try discriminate; intros _; lra.
Qed.

(** For [x < y] the difference [y - x] is a positive number or the
    positive infinity, and [x - y] is its opposite. *)
Lemma sub_of_ordered (x y : spec_float) :
  valid_binary x = true -> valid_binary y = true ->
  SFltb x y = true ->
  atLeast (F2R 1 (-1074)) (SF64sub y x)
  /\ SF64sub x y = SFopp (SF64sub y x).
Proof.
  intros Hvx Hvy Hlt.
  destruct x as [[]|[]| |sx mx ex]; destruct y as [[]|[]| |sy my ey];
    cbn [valid_binary] in Hvx, Hvy;
    try (cbn in Hlt; discriminate Hlt);
    try (split; [first [exact I|apply smallest_positive; assumption]
                |reflexivity]).
  - destruct sy; [discriminate Hlt|].
    split; [apply smallest_positive, Hvy|reflexivity].
  - destruct sy; [discriminate Hlt|].
    split; [apply smallest_positive, Hvy|reflexivity].
  - destruct sx; [|discriminate Hlt].
    split; [apply smallest_positive, Hvx|reflexivity].
  - destruct sx; [|discriminate Hlt].
    split; [apply smallest_positive, Hvx|reflexivity].
  - pose proof (ltb_finite sx mx ex sy my ey Hvx Hvy Hlt) as Hval.
    destruct (sub_finite sy my ey sx mx ex) as (M & -> & HM).
    destruct (sub_finite sx mx ex sy my ey) as (M' & -> & HM').
    rewrite (Z.min_comm ex ey) in *.
    assert (HMpos : 0 < M) by (apply (F2R_sign M (Z.min ey ex)); lra).
    assert (HM'eq : M' = - M).
    { apply (F2R_eq M' (- M) (Z.min ey ex)). rewrite F2R_opp. lra. }
    subst M'. destruct M as [|p|p]; try lia.
    cbn [Z.opp binary_normalize]. split; [|apply round_sign].
    apply bounded_spec in Hvx as ((Hex & _) & _).
    apply bounded_spec in Hvy as ((Hey & _) & _).
    destruct (round_lower p (Z.min ey ex) 1 (-1074) eq_refl)
      as [->|(m & e & -> & Hm)]; [|exact I|exact Hm].
    rewrite (F2R_change_exp (Zpos p) (Z.min ey ex) (-1074)) by lia.
    apply F2R_le.
    assert (0 < 2 ^ (Z.min ey ex - -1074)) by (apply Z.pow_pos_nonneg; lia).
    nia.
Qed.

(** *** Upper bounds *)

Lemma within_atMost (v : R) (f : spec_float) : atMost v f -> within v f.
Proof.
  destruct f as [s|s| |[] m e]; cbn; intros H; try contradiction; exact H.
Qed.

Lemma within_abs (v : R) (f : spec_float) : within v f -> atMost v (SFabs f).
Proof. destruct f as [s|s| |s m e]; cbn; auto. Qed.

Lemma within_opp (v : R) (f : spec_float) : within v f -> within v (SFopp f).
Proof. destruct f as [s|s| |s m e]; cbn; auto. Qed.

Lemma within_weaken (a b : R) (f : spec_float) :
  (a <= b)%R -> within a f -> within b f.
Proof. intros Hle. destruct f as [s|s| |s m e]; cbn; auto; lra. Qed.

Lemma atMost_weaken (a b : R) (f : spec_float) :
  (a <= b)%R -> atMost a f -> atMost b f.
Proof. intros Hle. destruct f as [s|s| |[] m e]; cbn; auto; lra. Qed.

Lemma atMost_nonneg (v : R) (f : spec_float) : atMost v f -> (0 <= v)%R.
Proof.
  destruct f as [s|s| |[] m e]; cbn; try contradiction; auto.
  pose proof (F2R_pos m e). lra.
Qed.

Lemma within_nonneg (v : R) (f : spec_float) : within v f -> (0 <= v)%R.
Proof.
  destruct f as [s|s| |s m e]; cbn; try contradiction; auto.
  pose proof (F2R_pos m e). lra.
Qed.

Lemma value_magnitude (s : bool) (m : positive) (e : Z) :
  (- F2R (Zpos m) e <= valueOf (S754_finite s m e) <= F2R (Zpos m) e)%R.
Proof.
  unfold valueOf. pose proof (F2R_pos m e).
  destruct s; cbn [cond_Zopp]; [|lra].
  change (Z.neg m) with (- Zpos m). rewrite F2R_opp. lra.
Qed.

(** The difference of two finite numbers of magnitude at most [v] has
    magnitude at most any binary64 number from [2 v] on. *)
Lemma sub_within (v : R) (c : positive) (ec : Z) (x y : spec_float) :
  within v x -> within v y ->
  bounded prec emax c ec = true -> (2 * v <= F2R (Zpos c) ec)%R ->
  within (F2R (Zpos c) ec) (SF64sub x y).
Proof.
  intros Hx Hy Hc Hle. pose proof (F2R_pos c ec) as Hpos.
  pose proof (within_nonneg v x Hx) as Hv.
  destruct x as [sx|sx| |sx mx ex]; cbn in Hx; try contradiction;
    destruct y as [sy|sy| |sy my ey]; cbn in Hy; try contradiction.
  - destruct sx, sy; cbn; lra.
  - cbn. lra.
  - cbn. lra.
  - destruct (sub_finite sx mx ex sy my ey) as (M & -> & HM).
    pose proof (value_magnitude sx mx ex). pose proof (value_magnitude sy my ey).
    destruct M as [|p|p]; cbn [binary_normalize].
    + cbn. lra.
    + destruct (round_upper p (Z.min ex ey) c ec Hc)
        as [->|(m & e & -> & Hm)]; [lra|cbn; lra|exact Hm].
    + rewrite round_sign. apply within_opp.
      change (Z.neg p) with (- Zpos p) in HM. rewrite F2R_opp in HM.
      destruct (round_upper p (Z.min ex ey) c ec Hc)
        as [->|(m & e & -> & Hm)]; [lra|cbn; lra|exact Hm].
Qed.

(** A sum of non-negative finite numbers is at most any binary64 number
    from the sum of their bounds on. *)
Lemma add_upper (a b : R) (c : positive) (ec : Z) (x y : spec_float) :
  atMost a x -> atMost b y ->
  bounded prec emax c ec = true -> (a + b <= F2R (Zpos c) ec)%R ->
  atMost (F2R (Zpos c) ec) (SF64add x y).
Proof.
  intros Hx Hy Hc Hle. pose proof (F2R_pos c ec) as Hpos.
  pose proof (atMost_nonneg a x Hx) as Ha.
  pose proof (atMost_nonneg b y Hy) as Hb.
  destruct x as [sx|sx| |[] mx ex]; cbn in Hx; try contradiction;
    destruct y as [sy|sy| |[] my ey]; cbn in Hy; try contradiction.
  - destruct sx, sy; cbn; lra.
  - cbn. lra.
  - cbn. lra.
  - destruct (add_finite false mx ex false my ey) as (M & -> & HM).
    cbn [valueOf cond_Zopp] in HM.
    pose proof (F2R_pos mx ex). pose proof (F2R_pos my ey).
    assert (HMpos : 0 < M) by (apply (F2R_sign M (Z.min ex ey)); lra).
    destruct M as [|p|p]; try lia. cbn [binary_normalize].
    destruct (round_upper p (Z.min ex ey) c ec Hc)
      as [->|(m & e & -> & Hm)]; [lra|cbn; lra|exact Hm].
Qed.

(** A product with a positive binary64 number is at most any binary64
    number from the product of the bound on. *)
Lemma mul_upper (a : R) (c : positive) (ec : Z) (x : spec_float)
    (my : positive) (ey : Z) :
  valid_binary x = true -> bounded prec emax my ey = true ->
  atMost a x ->
  bounded prec emax c ec = true ->
  (a * F2R (Zpos my) ey <= F2R (Zpos c) ec)%R ->
  atMost (F2R (Zpos c) ec) (SF64mul x (S754_finite false my ey)).
Proof.
  intros Hvx Hby Hx Hc Hle. pose proof (F2R_pos c ec) as Hpos.
  pose proof (F2R_pos my ey) as Hypos.
  destruct x as [sx|sx| |[] mx ex]; cbn in Hx; try contradiction.
  - cbn. lra.
  - rewrite mul_finite. cbn [valid_binary] in Hvx.
    destruct (round_aux_upper (Zpos (mx * my)) (ex + ey) loc_Exact
                (F2R (Zpos (mx * my)) (ex + ey)) c ec)
      as [->|(m & e & -> & Hm)];
      [apply exact_inb; lia|apply mul_canonical; assumption|exact Hc|
       |cbn; lra|exact Hm].
    rewrite Pos2Z.inj_mul, F2R_mult.
    apply Rle_trans with (2 := Hle). apply Rmult_le_compat_r; lra.
Qed.

(** A non-negative finite number divided by a positive binary64 number
    is at most any binary64 number whose product with the divisor is not
    below the bound of the dividend. *)
Lemma div_upper_by_finite (a : R) (c : positive) (ec : Z) (x : spec_float)
    (my : positive) (ey : Z) :
  atMost a x ->
  bounded prec emax c ec = true ->
  (a <= F2R (Zpos c) ec * F2R (Zpos my) ey)%R ->
  atMost (F2R (Zpos c) ec) (SF64div x (S754_finite false my ey)).
Proof.
  intros Hx Hc Hle. pose proof (F2R_pos c ec) as Hpos.
  pose proof (F2R_pos my ey) as Hypos.
  destruct x as [sx|sx| |[] mx ex]; cbn in Hx; try contradiction.
  - cbn. lra.
  - destruct (div_finite mx ex my ey) as (q & e' & l & -> & Hq & Hinb & He).
    destruct (round_aux_upper q e' l _ c ec Hinb He Hc)
      as [->|(m & e & -> & Hm)]; [|cbn; lra|exact Hm].
    apply (Rmult_le_reg_r (F2R (Zpos my) ey)); [exact Hypos|].
    unfold Rdiv. rewrite Rmult_assoc, Rinv_l by lra. lra.
Qed.

(** A quotient of a non-negative finite number by a positive finite one
    is not negative and not [NaN]. *)
Lemma div_nonneg_finite (a b : R) (x y : spec_float) :
  atMost a x -> atMost b y -> (forall s, y <> S754_zero s) ->
  atLeast 0 (SF64div x y).
Proof.
  intros Hx Hy Hnz.
  destruct y as [sy|sy| |[] my ey]; cbn in Hy; try contradiction.
  - exfalso. apply (Hnz sy). reflexivity.
  - apply div_nonneg_by_finite.
    destruct x as [sx|sx| |[] mx ex]; cbn in Hx; try contradiction.
    + cbn. lra.
    + apply atLeast_0_finite.
Qed.

(** What [x <= c] says of a non-negative [x] and a positive binary64
    number [c]. *)
Lemma leb_atMost (f : spec_float) (c : positive) (ec : Z) :
  valid_binary f = true -> bounded prec emax c ec = true ->
  SFleb (SFabs f) (S754_finite false c ec) = true ->
  within (F2R (Zpos c) ec) f.
Proof.
  intros Hv Hc Hle. pose proof (F2R_pos c ec) as Hpos.
  destruct f as [s|s| |s m e]; try discriminate Hle.
  - cbn. lra.
  - cbn [valid_binary] in Hv. cbn [SFabs] in Hle.
    unfold SFleb, SFcompare in Hle.
    pose proof (compare_finite m e c ec Hv Hc) as Hcmp.
    destruct (match e ?= ec with
              | Lt => Lt | Gt => Gt | Eq => Pos.compare_cont Eq m c end);
      cbn; [|lra|discriminate Hle].
    destruct Hcmp as [-> ->]. lra.
Qed.

(** Powers of two in the range of binary64 are binary64 numbers. *)
Lemma pow2_bounded (e : Z) :
  -1074 <= e <= 971 -> bounded prec emax 4503599627370496 e = true.
Proof.
  intros He. unfold bounded, canonical_mantissa.
  change (Zpos (digits2_pos 4503599627370496)) with 53.
  rewrite fexp64_eq. apply andb_true_intro. split.
  - apply Z.eqb_eq. lia.
  - apply Z.leb_le. change (emax - prec) with 971. lia.
Qed.

Lemma pow2_value (e : Z) : F2R 4503599627370496 e = bpow (52 + e).
Proof.
  unfold F2R. change 4503599627370496 with (2 ^ 52).
  rewrite <- (bpow_Z 52) by lia. symmetry. apply bpow_add.
Qed.

Lemma bpow_double (e : Z) : bpow (e + 1) = (2 * bpow e)%R.
Proof. rewrite bpow_add, bpow_1. ring. Qed.

End Binary64Facts.

(** ** The engine in binary64 *)

Module FloatFacts.
Import Notions.

Lemma zero_spec (d : float) :
  PrimFloat.eqb d 0%float = true -> exists s, Prim2SF d = S754_zero s.
Proof.
  rewrite FloatAxioms.eqb_spec.
  change (Prim2SF 0%float) with (S754_zero false).
  destruct (Prim2SF d) as [s| | |s m e]; cbn; try discriminate; eauto.
  - destruct s; discriminate.
  - destruct s; discriminate.
Qed.

Lemma of_spec (x : float) (sf : spec_float) :
  Prim2SF x = sf -> x = SF2Prim sf.
Proof. intros <-. symmetry. apply SF2Prim_Prim2SF. Qed.

(** A quotient with denominator [+0] or [-0] is an infinity or [NaN]. *)
Lemma div_by_zero (x d : float) :
  PrimFloat.eqb d 0%float = true -> isInfinityOrNaN (x / d)%float.
Proof.
  intros Hd. destruct (zero_spec d Hd) as [s Hs].
  pose proof (div_spec x d) as Hdiv. rewrite Hs in Hdiv.
  unfold isInfinityOrNaN.
  destruct (Prim2SF x) as [sx|sx| |sx m e]; cbn in Hdiv;
    apply of_spec in Hdiv; rewrite Hdiv;
    try (destruct sx, s; cbn; auto); auto.
Qed.

(** The percentage formed from such a quotient is one as well. *)
Lemma percent_by_zero (x d : float) :
  PrimFloat.eqb d 0%float = true ->
  isInfinityOrNaN (x / d * JsFloat.fromNat 100)%float.
Proof.
  intros Hd. destruct (div_by_zero x d Hd) as [-> | [-> | ->]];
    unfold isInfinityOrNaN; auto.
Qed.

(** [Math.max(-c, 0)] is [0] for a positive [c]. *)
Lemma max_of_opposite (c : float) :
  PrimFloat.ltb 0%float c = true -> JsFloat.max (- c)%float 0%float = 0%float.
Proof.
  intros Hc. rewrite ltb_spec in Hc.
  change (Prim2SF 0%float) with (S754_zero false) in Hc.
  unfold JsFloat.max, PrimFloat.is_nan.
  rewrite !FloatAxioms.eqb_spec, !ltb_spec, opp_spec.
  change (Prim2SF 0%float) with (S754_zero false).
  destruct (Prim2SF c) as [s|s| |s m e]; cbn in Hc; try discriminate.
  - destruct s; [discriminate|]. reflexivity.
  - destruct s; [discriminate|]. cbn.
    rewrite Z.compare_refl, Pos.compare_cont_refl. reflexivity.
Qed.

Import Binary64.

(** *** [NaN] in the arithmetic *)

Lemma nan_spec (x : float) : Prim2SF x = S754_nan -> x = PrimFloat.nan.
Proof. intros Hx. apply of_spec in Hx. exact Hx. Qed.

Lemma add_nan_l (y : float) : (PrimFloat.nan + y)%float = PrimFloat.nan.
Proof. apply Prim2SF_inj. rewrite add_spec. reflexivity. Qed.

Lemma add_nan_r (x : float) : (x + PrimFloat.nan)%float = PrimFloat.nan.
Proof.
  apply Prim2SF_inj. rewrite add_spec.
  change (Prim2SF PrimFloat.nan) with S754_nan.
  destruct (Prim2SF x) as [[]|[]| |[] m e]; reflexivity.
Qed.

Lemma sub_nan_l (y : float) : (PrimFloat.nan - y)%float = PrimFloat.nan.
Proof. apply Prim2SF_inj. rewrite sub_spec. reflexivity. Qed.

Lemma sub_nan_r (x : float) : (x - PrimFloat.nan)%float = PrimFloat.nan.
Proof.
  apply Prim2SF_inj. rewrite sub_spec.
  change (Prim2SF PrimFloat.nan) with S754_nan.
  destruct (Prim2SF x) as [[]|[]| |[] m e]; reflexivity.
Qed.

Lemma mul_nan_l (y : float) : (PrimFloat.nan * y)%float = PrimFloat.nan.
Proof. apply Prim2SF_inj. rewrite mul_spec. reflexivity. Qed.

Lemma div_nan_l (y : float) : (PrimFloat.nan / y)%float = PrimFloat.nan.
Proof. apply Prim2SF_inj. rewrite div_spec. reflexivity. Qed.

Lemma div_nan_r (x : float) : (x / PrimFloat.nan)%float = PrimFloat.nan.
Proof.
  apply Prim2SF_inj. rewrite div_spec.
  change (Prim2SF PrimFloat.nan) with S754_nan.
  destruct (Prim2SF x) as [[]|[]| |[] m e]; reflexivity.
Qed.

Lemma is_nan_false (c : float) :
  Prim2SF c <> S754_nan -> PrimFloat.is_nan c = false.
Proof.
  intros Hc. unfold PrimFloat.is_nan. rewrite FloatAxioms.eqb_spec.
  destruct (Prim2SF c) as [[]|[]| |[] m e]; try reflexivity;
    try contradiction; unfold SFeqb, SFcompare;
    rewrite Z.compare_refl, Pos.compare_cont_refl; reflexivity.
Qed.

(** The two loops of [calculateRSI(prices, 14)] on binary64 numbers. *)
Lemma seedStep_float (g l c : float) :
  Engine.seedStep (g, l) c
  = if PrimFloat.ltb 0%float c then ((g + c)%float, l)
    else (g, (l + PrimFloat.abs c)%float).
Proof. reflexivity. Qed.

Lemma wilderStep_float (g l c : float) :
  Engine.wilderStep 14 (g, l) c
  = (((g * 13 + JsFloat.max c 0) / 14)%float,
     ((l * 13 + JsFloat.max (- c) 0) / 14)%float).
Proof. reflexivity. Qed.

(** With [NaN] as the loss average, or a [NaN] change, the loss average is
    [NaN] from then on. *)
Lemma seed_nan_loss (cs : list float) (g : float) :
  snd (fold_left Engine.seedStep cs (g, PrimFloat.nan)) = PrimFloat.nan.
Proof.
  revert g; induction cs as [|c cs IH]; intros g; [reflexivity|].
  cbn [fold_left]. rewrite seedStep_float.
  destruct (PrimFloat.ltb 0%float c); [apply IH|].
  rewrite add_nan_l. apply IH.
Qed.

Lemma seed_nan_change (cs : list float) (g l : float) :
  PrimFloat.nan ∈ cs ->
  snd (fold_left Engine.seedStep cs (g, l)) = PrimFloat.nan.
Proof.
  revert g l; induction cs as [|c cs IH]; intros g l Hin;
    [inversion Hin|].
  cbn [fold_left]. apply elem_of_cons in Hin as [<-|Hin].
  - rewrite seedStep_float.
    change (PrimFloat.ltb 0%float PrimFloat.nan) with false.
    change (PrimFloat.abs PrimFloat.nan) with PrimFloat.nan.
    cbv iota. rewrite add_nan_r. apply seed_nan_loss.
  - rewrite seedStep_float.
    destruct (PrimFloat.ltb 0%float c); apply IH, Hin.
Qed.

Lemma wilder_nan_loss (cs : list float) (g : float) :
  snd (fold_left (Engine.wilderStep 14) cs (g, PrimFloat.nan))
  = PrimFloat.nan.
Proof.
  revert g; induction cs as [|c cs IH]; intros g; [reflexivity|].
  cbn [fold_left]. rewrite wilderStep_float.
  rewrite mul_nan_l, add_nan_l, div_nan_l. apply IH.
Qed.

Lemma wilder_nan_change (cs : list float) (g l : float) :
  PrimFloat.nan ∈ cs ->
  snd (fold_left (Engine.wilderStep 14) cs (g, l)) = PrimFloat.nan.
Proof.
  revert g l; induction cs as [|c cs IH]; intros g l Hin;
    [inversion Hin|].
  cbn [fold_left]. rewrite wilderStep_float.
  apply elem_of_cons in Hin as [<-|Hin]; [|apply IH, Hin].
  change (JsFloat.max (- PrimFloat.nan) 0) with PrimFloat.nan.
  change (JsFloat.max PrimFloat.nan 0) with PrimFloat.nan.
  rewrite !add_nan_r, !div_nan_l. apply wilder_nan_loss.
Qed.

(** The averages that [calculateRSI(prices, 14)] ends with. *)
Lemma calculateRSI_float (prices : list float) :
  15 <= length prices ->
  exists g0 l0 avgGain avgLoss,
    let changes := Engine.changesOf (reverse prices) in
    fold_left Engine.seedStep (firstn 14 changes) (0%float, 0%float)
    = (g0, l0)
    /\ fold_left (Engine.wilderStep 14) (skipn 14 changes)
         ((g0 / 14)%float, (l0 / 14)%float)
       = (avgGain, avgLoss)
    /\ Engine.calculateRSI prices 14
       = if PrimFloat.eqb avgLoss 0%float then Some 100%float
         else Some (100 - 100 / (1 + avgGain / avgLoss))%float.
Proof.
  intros Hlen. unfold Engine.calculateRSI.
  destruct (Nat.ltb_spec (length prices) (14 + 1)) as [Hlt|_]; [lia|].
  unfold Engine.rsiAverages.
  change (ofNat 0, ofNat 0) with (0%float, 0%float).
  destruct (fold_left Engine.seedStep _ (0%float, 0%float)) as [g0 l0].
  change (g0 / ofNat 14, l0 / ofNat 14)%js
    with ((g0 / 14)%float, (l0 / 14)%float).
  destruct (fold_left (Engine.wilderStep 14) _ _) as [avgGain avgLoss]
    eqn:Hwilder.
  exists g0, l0, avgGain, avgLoss. cbv zeta.
  split; [reflexivity|]. split; [exact Hwilder|reflexivity].
Qed.

Lemma changes_split (P : float -> Prop) (changes : list float) :
  Forall P changes ->
  Forall P (firstn 14 changes) /\ Forall P (skipn 14 changes).
Proof.
  intros Hall. rewrite <- (take_drop 14 changes) in Hall.
  apply Forall_app in Hall. exact Hall.
Qed.

Lemma changes_of_prices (P : float -> float -> Prop) (prices : list float) :
  everyChange P prices ->
  Forall (fun c => exists older newer,
                     P older newer /\ c = (newer - older)%float)
    (Engine.changesOf (reverse prices)).
Proof.
  intros Hall. apply Forall_lookup. intros i c Hc.
  apply EngineFacts.changesOf_lookup in Hc as (a & b & Ha & Hb & ->).
  apply reverse_lookup_Some in Ha as [Ha Hia].
  apply reverse_lookup_Some in Hb as [Hb Hib].
  exists a, b. split; [|reflexivity].
  apply (Hall (length prices - S (S i))%nat); [|exact Hb].
  replace (S (length prices - S (S i)))%nat with (length prices - S i)%nat
    by lia.
  exact Ha.
Qed.

(** A [NaN] close makes a [NaN] change. *)
Lemma nan_change (oldest : list float) :
  2 <= length oldest ->
  PrimFloat.nan ∈ oldest -> PrimFloat.nan ∈ Engine.changesOf oldest.
Proof.
  intros Hlen Hin. apply list_elem_of_lookup in Hin as [j Hj].
  pose proof (EngineFacts.changesOf_length oldest) as Hcl.
  pose proof (lookup_lt_Some _ _ _ Hj) as Hjlt.
  destruct j as [|j].
  - destruct (lookup_lt_is_Some_2 (Engine.changesOf oldest) 0) as [c Hc];
      [lia|].
    apply list_elem_of_lookup. exists 0%nat. rewrite Hc. f_equal.
    apply EngineFacts.changesOf_lookup in Hc as (a & b & Ha & Hb & ->).
    rewrite Hj in Ha. injection Ha as <-. apply sub_nan_r.
  - destruct (lookup_lt_is_Some_2 (Engine.changesOf oldest) j) as [c Hc];
      [lia|].
    apply list_elem_of_lookup. exists j. rewrite Hc. f_equal.
    apply EngineFacts.changesOf_lookup in Hc as (a & b & Ha & Hb & ->).
    rewrite Hj in Hb. injection Hb as <-. apply sub_nan_l.
Qed.

(** A [NaN] among the closes makes the RSI [NaN]. *)
Lemma rsi_nan_close (prices : list float) :
  15 <= length prices -> PrimFloat.nan ∈ prices ->
  Engine.calculateRSI prices 14 = Some PrimFloat.nan.
Proof.
  intros Hlen Hin.
  destruct (calculateRSI_float prices Hlen)
    as (g0 & l0 & avgGain & avgLoss & Hseed & Hwilder & ->).
  cbv zeta in Hseed, Hwilder.
  assert (Hchange : PrimFloat.nan ∈ Engine.changesOf (reverse prices)).
  { apply nan_change; [rewrite length_reverse; lia|].
    apply elem_of_reverse, Hin. }
  assert (Hloss : avgLoss = PrimFloat.nan).
  { rewrite <- (take_drop 14 (Engine.changesOf (reverse prices))) in Hchange.
    apply elem_of_app in Hchange as [Hfirst|Hrest].
    - pose proof (seed_nan_change _ 0%float 0%float Hfirst) as Hl0.
      rewrite Hseed in Hl0. cbn [snd] in Hl0. subst l0.
      change (PrimFloat.nan / 14)%float with PrimFloat.nan in Hwilder.
      pose proof (wilder_nan_loss
                    (skipn 14 (Engine.changesOf (reverse prices)))
                    (g0 / 14)%float) as Hl.
      rewrite Hwilder in Hl. exact Hl.
    - pose proof (wilder_nan_change _ (g0 / 14)%float (l0 / 14)%float Hrest)
        as Hl.
      rewrite Hwilder in Hl. exact Hl. }
  subst avgLoss. change (PrimFloat.eqb PrimFloat.nan 0%float) with false.
  rewrite div_nan_r, add_nan_r, div_nan_r, sub_nan_r. reflexivity.
Qed.


(** *** The averages are never negative *)

Lemma notNegative_zero : notNegative 0%float.
Proof. right. cbn. lra. Qed.

Lemma notNegative_positive (c : float) :
  PrimFloat.ltb 0%float c = true -> notNegative c.
Proof.
  intros Hc. right. rewrite ltb_spec in Hc.
  change (Prim2SF 0%float) with (S754_zero false) in Hc.
  destruct (Prim2SF c) as [[]|[]| |[] m e]; try discriminate Hc;
    [exact I|apply Binary64Facts.atLeast_0_finite].
Qed.

Lemma notNegative_add (x y : float) :
  notNegative x -> notNegative y -> notNegative (x + y)%float.
Proof.
  intros [->|Hx] [->|Hy].
  - left. reflexivity.
  - left. apply add_nan_l.
  - left. apply add_nan_r.
  - right. rewrite add_spec. apply Binary64Facts.add_nonneg; assumption.
Qed.

Lemma notNegative_times_13 (x : float) :
  notNegative x -> notNegative (x * 13)%float.
Proof.
  intros [->|Hx]; [left; reflexivity|].
  right. rewrite mul_spec. apply Binary64Facts.mul_nonneg, Hx.
Qed.

Lemma notNegative_by_14 (x : float) :
  notNegative x -> notNegative (x / 14)%float.
Proof.
  intros [->|Hx]; [left; reflexivity|].
  right. rewrite div_spec. apply Binary64Facts.div_nonneg_by_finite, Hx.
Qed.

Lemma notNegative_abs (c : float) : notNegative (PrimFloat.abs c).
Proof.
  destruct (Prim2SF c) as [s|s| |s m e] eqn:Hc.
  - right. rewrite abs_spec, Hc. cbn. lra.
  - right. rewrite abs_spec, Hc. exact I.
  - left. apply nan_spec. rewrite abs_spec, Hc. reflexivity.
  - right. rewrite abs_spec, Hc. apply Binary64Facts.atLeast_0_finite.
Qed.

Lemma notNegative_max (c : float) : notNegative (JsFloat.max c 0).
Proof.
  unfold JsFloat.max.
  destruct (PrimFloat.is_nan c || PrimFloat.is_nan 0); [left; reflexivity|].
  destruct (PrimFloat.ltb c 0) eqn:Hneg; [apply notNegative_zero|].
  destruct (PrimFloat.ltb 0 c) eqn:Hpos; [apply notNegative_positive, Hpos|].
  destruct (PrimFloat.is_zero c && PrimFloat.get_sign c);
    [apply notNegative_zero|].
  rewrite ltb_spec in Hneg, Hpos.
  change (Prim2SF 0%float) with (S754_zero false) in Hneg, Hpos.
  destruct (Prim2SF c) as [s|[]| |[] m e] eqn:Hc; try discriminate.
  - right. rewrite Hc. cbn. lra.
  - left. apply nan_spec, Hc.
Qed.

Lemma seed_notNegative (cs : list float) (g l : float) :
  notNegative g -> notNegative l ->
  notNegative (fst (fold_left Engine.seedStep cs (g, l)))
  /\ notNegative (snd (fold_left Engine.seedStep cs (g, l))).
Proof.
  revert g l; induction cs as [|c cs IH]; intros g l Hg Hl; [auto|].
  cbn [fold_left]. rewrite seedStep_float.
  destruct (PrimFloat.ltb 0%float c) eqn:Hc; apply IH; try assumption.
  - apply notNegative_add, notNegative_positive; assumption.
  - apply notNegative_add, notNegative_abs. exact Hl.
Qed.

Lemma wilder_notNegative (cs : list float) (g l : float) :
  notNegative g -> notNegative l ->
  notNegative (fst (fold_left (Engine.wilderStep 14) cs (g, l)))
  /\ notNegative (snd (fold_left (Engine.wilderStep 14) cs (g, l))).
Proof.
  revert g l; induction cs as [|c cs IH]; intros g l Hg Hl; [auto|].
  cbn [fold_left]. rewrite wilderStep_float.
  apply IH; apply notNegative_by_14, notNegative_add, notNegative_max;
    apply notNegative_times_13; assumption.
Qed.

Lemma one_value : Binary64.F2R 4503599627370496 (-52) = 1%R.
Proof.
  change 4503599627370496%Z with (1 * 2 ^ (0 - -52))%Z.
  rewrite <- (Binary64Facts.F2R_change_exp 1 0 (-52)) by lia.
  unfold Binary64.F2R. rewrite Binary64Facts.bpow_0. lra.
Qed.

(** The value of [100 - 100 / (1 + rs)] for a ratio that is not
    negative. *)
Lemma ratio_range (rs : float) :
  atLeast 0 (Prim2SF rs) ->
  PrimFloat.leb 0%float (100 - 100 / (1 + rs))%float = true
  /\ PrimFloat.leb (100 - 100 / (1 + rs))%float 100%float = true.
Proof.
  intros Hrs.
  assert (Hd : Binary64.atLeast (Binary64.F2R 4503599627370496 (-52))
                 (Prim2SF (1 + rs)%float)).
  { rewrite add_spec.
    apply (Binary64Facts.add_lower (Binary64.F2R 4503599627370496 (-52)) 0);
      [apply Rle_refl|exact Hrs|rewrite one_value; lra|lra|reflexivity|lra]. }
  assert (Hq : Binary64.atMost (Binary64.F2R 7036874417766400 (-46))
                 (Prim2SF (100 / (1 + rs))%float)).
  { rewrite div_spec.
    change (Prim2SF 100%float)
      with (S754_finite false 7036874417766400 (-46)).
    apply (Binary64Facts.div_upper (Binary64.F2R 4503599627370496 (-52)));
      [rewrite one_value; lra|exact Hd|reflexivity|rewrite one_value; lra]. }
  assert (Hr : Binary64.atMost (Binary64.F2R 7036874417766400 (-46))
                 (Prim2SF (100 - 100 / (1 + rs))%float)).
  { rewrite sub_spec.
    change (Prim2SF 100%float)
      with (S754_finite false 7036874417766400 (-46)).
    apply Binary64Facts.sub_upper; [reflexivity|exact Hq]. }
  rewrite !leb_spec.
  change (Prim2SF 100%float) with (S754_finite false 7036874417766400 (-46)).
  change (Prim2SF 0%float) with (S754_zero false).
  apply (Binary64Facts.atMost_leb _ 7036874417766400 (-46));
    [apply Prim2SF_valid|reflexivity|exact Hr].
Qed.

Lemma not_zero (x : float) :
  PrimFloat.eqb x 0%float = false -> forall s, Prim2SF x <> S754_zero s.
Proof.
  intros Hnz s Hs. rewrite FloatAxioms.eqb_spec, Hs in Hnz.
  destruct s; discriminate Hnz.
Qed.

(** The value of [100 - 100 / (1 + avgGain / avgLoss)] for averages that
    are not negative and a loss average that is not zero. *)
Lemma formula_range (avgGain avgLoss : float) :
  notNegative avgGain -> notNegative avgLoss ->
  PrimFloat.eqb avgLoss 0%float = false ->
  let r := (100 - 100 / (1 + avgGain / avgLoss))%float in
  r = PrimFloat.nan
  \/ (PrimFloat.leb 0%float r = true /\ PrimFloat.leb r 100%float = true).
Proof.
  intros Hg Hl Hnz r. subst r.
  destruct Hg as [->|Hg].
  { left. rewrite div_nan_l, add_nan_r, div_nan_r, sub_nan_r. reflexivity. }
  destruct Hl as [->|Hl].
  { left. rewrite div_nan_r, add_nan_r, div_nan_r, sub_nan_r. reflexivity. }
  destruct (Binary64Facts.div_nonneg _ _ Hg Hl (not_zero _ Hnz))
    as [Hnan|Hrs].
  { left. rewrite <- div_spec in Hnan. apply nan_spec in Hnan.
    rewrite Hnan, add_nan_r, div_nan_r, sub_nan_r. reflexivity. }
  right. rewrite <- div_spec in Hrs. apply ratio_range, Hrs.
Qed.

(** RSI over 14 days is [NaN] or between 0 and 100. *)
Lemma rsi_range (prices : list float) :
  15 <= length prices ->
  exists r,
    Engine.calculateRSI prices 14 = Some r
    /\ (r = PrimFloat.nan
        \/ (PrimFloat.leb 0%float r = true
            /\ PrimFloat.leb r 100%float = true)).
Proof.
  intros Hlen.
  destruct (calculateRSI_float prices Hlen)
    as (g0 & l0 & avgGain & avgLoss & Hseed & Hwilder & ->).
  cbv zeta in Hseed, Hwilder.
  destruct (seed_notNegative
              (firstn 14 (Engine.changesOf (reverse prices))) 0%float 0%float
              notNegative_zero notNegative_zero) as [Hg0 Hl0].
  rewrite Hseed in Hg0, Hl0. cbn [fst snd] in Hg0, Hl0.
  destruct (wilder_notNegative
              (skipn 14 (Engine.changesOf (reverse prices)))
              (g0 / 14)%float (l0 / 14)%float
              (notNegative_by_14 _ Hg0) (notNegative_by_14 _ Hl0))
    as [Hg Hl].
  rewrite Hwilder in Hg, Hl. cbn [fst snd] in Hg, Hl.
  destruct (PrimFloat.eqb avgLoss 0%float) eqn:Hzero.
  - exists 100%float. split; [reflexivity|]. right. split; reflexivity.
  - eexists. split; [reflexivity|]. apply formula_range; assumption.
Qed.


(** *** Sequences without a loss *)

Lemma zero_change (c : float) :
  PrimFloat.leb 0%float c = true -> PrimFloat.ltb 0%float c = false ->
  c = 0%float \/ c = (-0)%float.
Proof.
  rewrite leb_spec, ltb_spec.
  change (Prim2SF 0%float) with (S754_zero false). intros Hle Hlt.
  destruct (Prim2SF c) as [[]|[]| |[] m e] eqn:Hc; try discriminate;
    apply of_spec in Hc; auto.
Qed.

Lemma seed_no_loss (cs : list float) (g : float) :
  Forall (fun c => PrimFloat.leb 0%float c = true) cs ->
  snd (fold_left Engine.seedStep cs (g, 0%float)) = 0%float.
Proof.
  revert g; induction cs as [|c cs IH]; intros g Hcs; cbn [fold_left];
    [reflexivity|].
  inversion Hcs as [|? ? Hc Hcs']; subst. rewrite seedStep_float.
  destruct (PrimFloat.ltb 0%float c) eqn:Hpos; [apply IH, Hcs'|].
  destruct (zero_change c Hc Hpos) as [->| ->]; apply IH, Hcs'.
Qed.

Lemma wilder_no_loss (cs : list float) (g : float) :
  Forall (fun c => PrimFloat.leb 0%float c = true) cs ->
  snd (fold_left (Engine.wilderStep 14) cs (g, 0%float)) = 0%float.
Proof.
  revert g; induction cs as [|c cs IH]; intros g Hcs; cbn [fold_left];
    [reflexivity|].
  inversion Hcs as [|? ? Hc Hcs']; subst. rewrite wilderStep_float.
  assert (Hmax : JsFloat.max (- c)%float 0%float = 0%float).
  { destruct (PrimFloat.ltb 0%float c) eqn:Hpos;
      [apply max_of_opposite, Hpos|].
    destruct (zero_change c Hc Hpos) as [->| ->]; reflexivity. }
  rewrite Hmax. change ((0 * 13 + 0) / 14)%float with 0%float.
  apply IH, Hcs'.
Qed.

(** In binary64, a sequence none of whose computed changes is below zero
    has RSI exactly 100: the loss average never leaves 0. *)
Lemma no_loss_rsi (prices : list float) :
  15 <= length prices ->
  Forall (fun c => PrimFloat.leb 0%float c = true)
    (Engine.changesOf (reverse prices)) ->
  Engine.calculateRSI prices 14 = Some 100%float.
Proof.
  intros Hlen Hall.
  destruct (calculateRSI_float prices Hlen)
    as (g0 & l0 & avgGain & avgLoss & Hseed & Hwilder & ->).
  cbv zeta in Hseed, Hwilder.
  apply changes_split in Hall as [Hfirst Hrest].
  pose proof (seed_no_loss _ 0%float Hfirst) as Hl0.
  rewrite Hseed in Hl0. cbn [snd] in Hl0. subst l0.
  change (0 / 14)%float with 0%float in Hwilder.
  pose proof (wilder_no_loss _ (g0 / 14)%float Hrest) as Hl.
  rewrite Hwilder in Hl. cbn [snd] in Hl. subst avgLoss. reflexivity.
Qed.

Lemma positive_difference (older newer : float) :
  PrimFloat.ltb older newer = true ->
  atLeast (F2R 1 (-1074)) (Prim2SF (newer - older)%float)
  /\ Prim2SF (older - newer)%float = SFopp (Prim2SF (newer - older)%float).
Proof.
  intros Hlt. rewrite ltb_spec in Hlt. rewrite !sub_spec.
  apply Binary64Facts.sub_of_ordered; [apply Prim2SF_valid..|exact Hlt].
Qed.

Lemma smallest_positive_value : (0 < F2R 1 (-1074))%R.
Proof. apply (Binary64Facts.F2R_pos 1 (-1074)). Qed.

Lemma positive_ltb (c : float) :
  atLeast (F2R 1 (-1074)) (Prim2SF c) -> PrimFloat.ltb 0%float c = true.
Proof.
  intros Hc. rewrite ltb_spec. pose proof smallest_positive_value.
  change (Prim2SF 0%float) with (S754_zero false).
  destruct (Prim2SF c) as [[]|[]| |[] m e]; cbn in Hc; try contradiction;
    try reflexivity; lra.
Qed.

(** Closes that rise from each day to the next have positive changes. *)
Lemma rising_changes (prices : list float) :
  everyChange (fun older newer => PrimFloat.ltb older newer = true) prices ->
  Forall (fun c => PrimFloat.ltb 0%float c = true)
    (Engine.changesOf (reverse prices)).
Proof.
  intros Hup. eapply Forall_impl; [exact (changes_of_prices _ _ Hup)|].
  intros c (older & newer & Hlt & ->). cbn beta in Hlt.
  apply positive_ltb, positive_difference, Hlt.
Qed.

Lemma ltb_leb (c : float) :
  PrimFloat.ltb 0%float c = true -> PrimFloat.leb 0%float c = true.
Proof.
  rewrite ltb_spec, leb_spec. unfold SFltb, SFleb.
  destruct (SFcompare _ _) as [[]|]; try discriminate; reflexivity.
Qed.

Lemma rsi_rising (prices : list float) :
  15 <= length prices ->
  everyChange (fun older newer => PrimFloat.ltb older newer = true) prices ->
  Engine.calculateRSI prices 14 = Some 100%float.
Proof.
  intros Hlen Hup. apply no_loss_rsi; [exact Hlen|].
  eapply Forall_impl; [exact (rising_changes _ Hup)|].
  intros c Hc. apply ltb_leb, Hc.
Qed.

(** *** Sequences of losses *)

Lemma SFopp_involutive (f : spec_float) : SFopp (SFopp f) = f.
Proof. destruct f as [[]|[]| |[] m e]; reflexivity. Qed.

(** Closes that fall from each day to the next have negative changes. *)
Lemma falling_changes (prices : list float) :
  everyChange (fun older newer => PrimFloat.ltb newer older = true) prices ->
  Forall isLoss (Engine.changesOf (reverse prices)).
Proof.
  intros Hdown. eapply Forall_impl; [exact (changes_of_prices _ _ Hdown)|].
  intros c (older & newer & Hlt & ->). cbn beta in Hlt.
  destruct (positive_difference newer older Hlt) as [Hpos Hopp].
  unfold isLoss. rewrite opp_spec, Hopp, SFopp_involutive. exact Hpos.
Qed.

(** What the loops do with a loss. *)
Lemma loss_cases (c : float) :
  isLoss c ->
  PrimFloat.ltb 0%float c = false
  /\ PrimFloat.abs c = (- c)%float
  /\ JsFloat.max c 0%float = 0%float
  /\ JsFloat.max (- c)%float 0%float = (- c)%float.
Proof.
  unfold isLoss. rewrite opp_spec. intros Hc.
  pose proof smallest_positive_value as Hmin.
  assert (Hneg : Prim2SF c = S754_infinity true
                 \/ exists m e, Prim2SF c = S754_finite true m e).
  { destruct (Prim2SF c) as [[]|[]| |[] m e]; cbn in Hc;
      try contradiction; try lra; eauto. }
  assert (Hnan : PrimFloat.is_nan c = false).
  { apply is_nan_false. destruct Hneg as [->|(m & e & ->)]; discriminate. }
  assert (Hnan' : PrimFloat.is_nan (- c)%float = false).
  { apply is_nan_false. rewrite opp_spec.
    destruct Hneg as [->|(m & e & ->)]; discriminate. }
  assert (Hlt : PrimFloat.ltb c 0%float = true).
  { rewrite ltb_spec. destruct Hneg as [->|(m & e & ->)]; reflexivity. }
  assert (Hgt : PrimFloat.ltb 0%float c = false).
  { rewrite ltb_spec. destruct Hneg as [->|(m & e & ->)]; reflexivity. }
  assert (Hlt' : PrimFloat.ltb (- c)%float 0%float = false).
  { rewrite ltb_spec, opp_spec.
    destruct Hneg as [->|(m & e & ->)]; reflexivity. }
  assert (Hgt' : PrimFloat.ltb 0%float (- c)%float = true).
  { rewrite ltb_spec, opp_spec.
    destruct Hneg as [->|(m & e & ->)]; reflexivity. }
  split; [exact Hgt|]. split; [|split].
  - apply Prim2SF_inj. rewrite abs_spec, opp_spec.
    destruct Hneg as [->|(m & e & ->)]; reflexivity.
  - unfold JsFloat.max. rewrite Hnan, Hlt. reflexivity.
  - unfold JsFloat.max. rewrite Hnan', Hlt', Hgt'. reflexivity.
Qed.

Lemma subnormal_bounded (p : positive) :
  (Zpos p <= 14)%Z -> bounded prec emax p (-1074) = true.
Proof.
  intros Hp. unfold bounded, canonical_mantissa.
  pose proof (Binary64Facts.digits2_pos_bounds p) as [Hlow _].
  assert (Hd : (Zpos (digits2_pos p) <= 53)%Z).
  { destruct (Z.le_gt_cases (Zpos (digits2_pos p)) 53) as [Hle|Hgt];
      [exact Hle|exfalso].
    assert (2 ^ 53 <= 2 ^ (Zpos (digits2_pos p) - 1))%Z
      by (apply Z.pow_le_mono_r; lia).
    assert (2 ^ 53 = 9007199254740992)%Z by reflexivity. lia. }
  rewrite Binary64Facts.fexp64_eq.
  apply andb_true_intro. split; [apply Z.eqb_eq; lia|reflexivity].
Qed.

Lemma units_value (k : Z) : F2R k (-1074) = (IZR k * F2R 1 (-1074))%R.
Proof. unfold F2R. ring. Qed.

(** Seeding with losses only: the gain average stays 0 and the loss sum
    counts at least one smallest positive number for each loss. *)
Lemma seed_losses (cs : list float) (k : Z) (l : float) :
  Forall isLoss cs ->
  (0 <= k)%Z -> (k + Z.of_nat (length cs) <= 14)%Z ->
  atLeast (F2R k (-1074)) (Prim2SF l) ->
  exists l',
    fold_left Engine.seedStep cs (0%float, l) = (0%float, l')
    /\ atLeast (F2R (k + Z.of_nat (length cs)) (-1074)) (Prim2SF l').
Proof.
  revert k l; induction cs as [|c cs IH]; intros k l Hcs Hk Hlen Hl.
  - exists l. split; [reflexivity|].
    cbn [length Z.of_nat]. rewrite Z.add_0_r. exact Hl.
  - inversion Hcs as [|? ? Hc Hcs']; subst.
    destruct (loss_cases c Hc) as (Hgt & Habs & _ & _).
    cbn [fold_left]. rewrite seedStep_float, Hgt, Habs.
    cbn [length] in Hlen |- *. rewrite Nat2Z.inj_succ in Hlen |- *.
    replace (k + Z.succ (Z.of_nat (length cs)))%Z
      with ((k + 1) + Z.of_nat (length cs))%Z by lia.
    apply IH; [exact Hcs'|lia|lia|].
    rewrite add_spec. pose proof smallest_positive_value as Hmin.
    assert (Hk1 : (k + 1 = Zpos (Z.to_pos (k + 1)))%Z) by lia.
    rewrite Hk1.
    apply (Binary64Facts.add_lower (F2R k (-1074)) (F2R 1 (-1074)));
      [exact Hl|exact Hc| |lra|apply subnormal_bounded; lia|].
    + rewrite units_value. apply Rmult_le_pos; [apply IZR_le; lia|lra].
    + rewrite <- Hk1, Binary64Facts.F2R_plus. lra.
Qed.

Lemma fourteen_value : F2R 7881299347898368 (-49) = 14%R.
Proof.
  change 7881299347898368%Z with (14 * 2 ^ (0 - -49))%Z.
  rewrite <- (Binary64Facts.F2R_change_exp 14 0 (-49)) by lia.
  unfold F2R. rewrite Binary64Facts.bpow_0. lra.
Qed.

Lemma thirteen_value : F2R 7318349394477056 (-49) = 13%R.
Proof.
  change 7318349394477056%Z with (13 * 2 ^ (0 - -49))%Z.
  rewrite <- (Binary64Facts.F2R_change_exp 13 0 (-49)) by lia.
  unfold F2R. rewrite Binary64Facts.bpow_0. lra.
Qed.

(** A fourteenth of at least 14 smallest positive numbers is at least
    one of them. *)
Lemma fourteenth_lower (x : float) :
  atLeast (F2R 14 (-1074)) (Prim2SF x) ->
  atLeast (F2R 1 (-1074)) (Prim2SF (x / 14)%float).
Proof.
  intros Hx. rewrite div_spec.
  change (Prim2SF 14%float) with (S754_finite false 7881299347898368 (-49)).
  apply (Binary64Facts.div_lower (F2R 14 (-1074)) 1 (-1074));
    [exact Hx|reflexivity|].
  rewrite fourteen_value, (units_value 14). lra.
Qed.

(** Smoothing with losses only: the gain average stays 0 and the loss
    average stays at least the smallest positive number. *)
Lemma wilder_losses (cs : list float) (l : float) :
  Forall isLoss cs ->
  atLeast (F2R 1 (-1074)) (Prim2SF l) ->
  exists l',
    fold_left (Engine.wilderStep 14) cs (0%float, l) = (0%float, l')
    /\ atLeast (F2R 1 (-1074)) (Prim2SF l').
Proof.
  revert l; induction cs as [|c cs IH]; intros l Hcs Hl.
  - exists l. split; [reflexivity|exact Hl].
  - inversion Hcs as [|? ? Hc Hcs']; subst.
    destruct (loss_cases c Hc) as (_ & _ & Hmax & Hmax').
    cbn [fold_left]. rewrite wilderStep_float, Hmax, Hmax'.
    change ((0 * 13 + 0) / 14)%float with 0%float.
    apply IH; [exact Hcs'|]. pose proof smallest_positive_value as Hmin.
    apply fourteenth_lower. rewrite add_spec.
    apply (Binary64Facts.add_lower (F2R 13 (-1074)) (F2R 1 (-1074))
             14 (-1074));
      [ |exact Hc| |lra|reflexivity|].
    + rewrite mul_spec.
      change (Prim2SF 13%float)
        with (S754_finite false 7318349394477056 (-49)).
      apply (Binary64Facts.mul_lower (F2R 1 (-1074)) 13 (-1074));
        [apply Prim2SF_valid|reflexivity|exact Hl|reflexivity|].
      rewrite thirteen_value, (units_value 13). lra.
    + rewrite (units_value 13). lra.
    + rewrite (units_value 14), (units_value 13). lra.
Qed.

Lemma rsi_falling (prices : list float) :
  15 <= length prices ->
  everyChange (fun older newer => PrimFloat.ltb newer older = true) prices ->
  Engine.calculateRSI prices 14 = Some 0%float.
Proof.
  intros Hlen Hdown.
  destruct (calculateRSI_float prices Hlen)
    as (g0 & l0 & avgGain & avgLoss & Hseed & Hwilder & ->).
  cbv zeta in Hseed, Hwilder.
  pose proof (falling_changes prices Hdown) as Hall.
  pose proof (EngineFacts.changesOf_length (reverse prices)) as Hcl.
  rewrite length_reverse in Hcl.
  apply changes_split in Hall as [Hfirst Hrest].
  destruct (seed_losses _ 0 0%float Hfirst) as (l0' & Hseed' & Hl0);
    [lia|rewrite length_take; lia|cbn; unfold F2R; lra|].
  rewrite Hseed in Hseed'. injection Hseed' as -> <-.
  replace (0 + Z.of_nat (length (firstn 14 (Engine.changesOf (reverse prices)))))%Z
    with 14%Z in Hl0 by (rewrite length_take; lia).
  change (0 / 14)%float with 0%float in Hwilder.
  destruct (wilder_losses _ (l0 / 14)%float Hrest (fourteenth_lower _ Hl0))
    as (l' & Hwilder' & Hl).
  rewrite Hwilder in Hwilder'. injection Hwilder' as -> <-.
  pose proof smallest_positive_value as Hmin.
  assert (Hshape : Prim2SF avgLoss = S754_infinity false
                   \/ exists m e, Prim2SF avgLoss = S754_finite false m e).
  { destruct (Prim2SF avgLoss) as [[]|[]| |[] m e]; cbn in Hl;
      try contradiction; try lra; eauto. }
  assert (Hnz : PrimFloat.eqb avgLoss 0%float = false).
  { rewrite FloatAxioms.eqb_spec.
    destruct Hshape as [->|(m & e & ->)]; reflexivity. }
  assert (Hrs : (0 / avgLoss)%float = 0%float).
  { apply Prim2SF_inj. rewrite div_spec.
    destruct Hshape as [->|(m & e & ->)]; reflexivity. }
  rewrite Hnz, Hrs. reflexivity.
Qed.


(** *** Closes of moderate size *)

Lemma moderate_within (p : float) :
  moderate p = true -> within (F2R 4503599627370496 948) (Prim2SF p).
Proof.
  unfold moderate. rewrite leb_spec, abs_spec.
  change (Prim2SF 0x1p+1000%float)
    with (S754_finite false 4503599627370496 948).
  apply Binary64Facts.leb_atMost; [apply Prim2SF_valid|reflexivity].
Qed.

Lemma changes_within (prices : list float) :
  Forall (fun p => moderate p = true) prices ->
  Forall (fun c => within (F2R 4503599627370496 949) (Prim2SF c))
    (Engine.changesOf (reverse prices)).
Proof.
  intros Hall. apply Forall_lookup. intros i c Hc.
  apply EngineFacts.changesOf_lookup in Hc as (a & b & Ha & Hb & ->).
  apply Forall_reverse in Hall. rewrite Forall_lookup in Hall.
  pose proof (moderate_within _ (Hall _ _ Ha)) as Hwa.
  pose proof (moderate_within _ (Hall _ _ Hb)) as Hwb.
  cbn [nsub JsFloat.number]. rewrite sub_spec.
  apply (Binary64Facts.sub_within (F2R 4503599627370496 948));
    [exact Hwb|exact Hwa|reflexivity|].
  rewrite !Binary64Facts.pow2_value.
  change (52 + 949)%Z with (52 + 948 + 1)%Z.
  rewrite Binary64Facts.bpow_double. lra.
Qed.

Lemma within_not_nan (v : R) (c : float) :
  within v (Prim2SF c) -> PrimFloat.is_nan c = false.
Proof.
  intros Hc. apply is_nan_false. intros Hnan. rewrite Hnan in Hc. exact Hc.
Qed.

Lemma positive_within (v : R) (c : float) :
  within v (Prim2SF c) -> PrimFloat.ltb 0%float c = true ->
  atMost v (Prim2SF c).
Proof.
  rewrite ltb_spec. change (Prim2SF 0%float) with (S754_zero false).
  destruct (Prim2SF c) as [s|s| |[] m e]; cbn; try contradiction;
    try discriminate; auto.
Qed.

Lemma max_within (v : R) (c : float) :
  within v (Prim2SF c) -> atMost v (Prim2SF (JsFloat.max c 0)).
Proof.
  intros Hc. pose proof (Binary64Facts.within_nonneg _ _ Hc) as Hv.
  unfold JsFloat.max. rewrite (within_not_nan v c Hc).
  change (PrimFloat.is_nan 0) with false. cbn [orb].
  destruct (PrimFloat.ltb c 0) eqn:Hneg; [cbn; lra|].
  destruct (PrimFloat.ltb 0 c) eqn:Hpos; [apply positive_within; assumption|].
  destruct (PrimFloat.is_zero c && PrimFloat.get_sign c); [cbn; lra|].
  rewrite ltb_spec in Hneg, Hpos.
  change (Prim2SF 0%float) with (S754_zero false) in Hneg, Hpos.
  destruct (Prim2SF c) as [s|[]| |[] m e]; try discriminate;
    try contradiction.
  cbn. lra.
Qed.

Lemma within_opposite (v : R) (c : float) :
  within v (Prim2SF c) -> within v (Prim2SF (- c)%float).
Proof. rewrite opp_spec. apply Binary64Facts.within_opp. Qed.

Lemma abs_within (v : R) (c : float) :
  within v (Prim2SF c) -> atMost v (Prim2SF (PrimFloat.abs c)).
Proof. rewrite abs_spec. apply Binary64Facts.within_abs. Qed.

Lemma pow2_le (a b : Z) :
  (a <= b)%Z -> (F2R 4503599627370496 a <= F2R 4503599627370496 b)%R.
Proof.
  intros Hle. rewrite !Binary64Facts.pow2_value.
  apply Binary64Facts.bpow_le. lia.
Qed.

Lemma pow2_next (e : Z) :
  F2R 4503599627370496 (e + 1) = (2 * F2R 4503599627370496 e)%R.
Proof.
  rewrite !Binary64Facts.pow2_value, Z.add_assoc.
  apply Binary64Facts.bpow_double.
Qed.

(** Each round of the seeding loop at most doubles the bound of the
    sums. *)
Lemma seed_upper (cs : list float) (j : Z) (g l : float) :
  Forall (fun c => within (F2R 4503599627370496 949) (Prim2SF c)) cs ->
  (0 <= j)%Z -> (j + Z.of_nat (length cs) <= 14)%Z ->
  atMost (F2R 4503599627370496 (949 + j)) (Prim2SF g) ->
  atMost (F2R 4503599627370496 (949 + j)) (Prim2SF l) ->
  atMost (F2R 4503599627370496 (949 + j + Z.of_nat (length cs)))
    (Prim2SF (fst (fold_left Engine.seedStep cs (g, l))))
  /\ atMost (F2R 4503599627370496 (949 + j + Z.of_nat (length cs)))
       (Prim2SF (snd (fold_left Engine.seedStep cs (g, l)))).
Proof.
  revert j g l; induction cs as [|c cs IH]; intros j g l Hcs Hj Hlen Hg Hl.
  - cbn [length Z.of_nat fold_left fst snd]. rewrite Z.add_0_r. auto.
  - inversion Hcs as [|? ? Hc Hcs']; subst.
    cbn [length] in Hlen |- *. rewrite Nat2Z.inj_succ in Hlen |- *.
    replace (949 + j + Z.succ (Z.of_nat (length cs)))%Z
      with (949 + (j + 1) + Z.of_nat (length cs))%Z by lia.
    assert (Hstep : forall x y,
               atMost (F2R 4503599627370496 (949 + j)) (Prim2SF x) ->
               atMost (F2R 4503599627370496 949) (Prim2SF y) ->
               atMost (F2R 4503599627370496 (949 + (j + 1)))
                 (Prim2SF (x + y)%float)).
    { intros x y Hx Hy. rewrite add_spec.
      apply (Binary64Facts.add_upper _ _ _ _ _ _ Hx Hy);
        [apply Binary64Facts.pow2_bounded; lia|].
      rewrite Z.add_assoc, pow2_next.
      pose proof (pow2_le 949 (949 + j) ltac:(lia)). lra. }
    assert (Hkeep : forall x,
               atMost (F2R 4503599627370496 (949 + j)) (Prim2SF x) ->
               atMost (F2R 4503599627370496 (949 + (j + 1))) (Prim2SF x)).
    { intros x. apply Binary64Facts.atMost_weaken, pow2_le. lia. }
    cbn [fold_left]. rewrite seedStep_float.
    destruct (PrimFloat.ltb 0%float c) eqn:Hpos; apply IH;
      try exact Hcs'; try lia.
    + apply Hstep; [exact Hg|apply positive_within; assumption].
    + apply Hkeep, Hl.
    + apply Hkeep, Hg.
    + apply Hstep; [exact Hl|apply abs_within, Hc].
Qed.

Lemma by_14_upper (e : Z) (x : float) :
  (-1074 <= e <= 971)%Z ->
  atMost (F2R 4503599627370496 e) (Prim2SF x) ->
  atMost (F2R 4503599627370496 e) (Prim2SF (x / 14)%float).
Proof.
  intros He Hx. rewrite div_spec.
  change (Prim2SF 14%float) with (S754_finite false 7881299347898368 (-49)).
  apply (Binary64Facts.div_upper_by_finite _ _ _ _ _ _ Hx);
    [apply Binary64Facts.pow2_bounded, He|].
  rewrite fourteen_value.
  pose proof (Binary64Facts.F2R_pos 4503599627370496 e). lra.
Qed.

Lemma multiple_value (k : Z) :
  F2R (k * 2 ^ 49) 966 = (IZR k * F2R 4503599627370496 963)%R.
Proof.
  rewrite Binary64Facts.pow2_value. change (52 + 963)%Z with 1015%Z.
  change (2 ^ 49)%Z with (2 ^ (1015 - 966))%Z.
  rewrite <- Binary64Facts.F2R_change_exp by lia. reflexivity.
Qed.

(** One round of the smoothing on an average of at most [2^1015] and a
    gain or loss of at most [2^1001]. *)
Lemma smooth_upper (avg m : float) :
  atMost (F2R 4503599627370496 963) (Prim2SF avg) ->
  atMost (F2R 4503599627370496 949) (Prim2SF m) ->
  atMost (F2R 4503599627370496 963) (Prim2SF ((avg * 13 + m) / 14)%float).
Proof.
  intros Havg Hm.
  pose proof (Binary64Facts.F2R_pos 4503599627370496 963) as Hpos.
  pose proof (pow2_le 949 963 ltac:(lia)) as Hle.
  pose proof (multiple_value 13) as H13. pose proof (multiple_value 14) as H14.
  change (13 * 2 ^ 49)%Z with 7318349394477056%Z in H13.
  change (14 * 2 ^ 49)%Z with 7881299347898368%Z in H14.
  assert (Hmul : atMost (F2R 7318349394477056 966)
                   (Prim2SF (avg * 13)%float)).
  { rewrite mul_spec.
    change (Prim2SF 13%float)
      with (S754_finite false 7318349394477056 (-49)).
    apply (Binary64Facts.mul_upper (F2R 4503599627370496 963)
             7318349394477056 966);
      [apply Prim2SF_valid|reflexivity|exact Havg|reflexivity|].
    rewrite thirteen_value, H13. lra. }
  assert (Hsum : atMost (F2R 7881299347898368 966)
                   (Prim2SF (avg * 13 + m)%float)).
  { rewrite add_spec.
    apply (Binary64Facts.add_upper (F2R 7318349394477056 966)
             (F2R 4503599627370496 949) 7881299347898368 966);
      [exact Hmul|exact Hm|reflexivity|].
    rewrite H13, H14. lra. }
  rewrite div_spec.
  change (Prim2SF 14%float) with (S754_finite false 7881299347898368 (-49)).
  apply (Binary64Facts.div_upper_by_finite (F2R 7881299347898368 966)
           4503599627370496 963); [exact Hsum|reflexivity|].
  rewrite fourteen_value, H14. lra.
Qed.

Lemma wilder_upper (cs : list float) (g l : float) :
  Forall (fun c => within (F2R 4503599627370496 949) (Prim2SF c)) cs ->
  atMost (F2R 4503599627370496 963) (Prim2SF g) ->
  atMost (F2R 4503599627370496 963) (Prim2SF l) ->
  atMost (F2R 4503599627370496 963)
    (Prim2SF (fst (fold_left (Engine.wilderStep 14) cs (g, l))))
  /\ atMost (F2R 4503599627370496 963)
       (Prim2SF (snd (fold_left (Engine.wilderStep 14) cs (g, l)))).
Proof.
  revert g l; induction cs as [|c cs IH]; intros g l Hcs Hg Hl; [auto|].
  inversion Hcs as [|? ? Hc Hcs']; subst.
  cbn [fold_left]. rewrite wilderStep_float.
  apply IH; [exact Hcs'| |]; apply smooth_upper; try assumption.
  - apply max_within, Hc.
  - apply max_within, within_opposite, Hc.
Qed.

(** For closes of moderate size the RSI is a number between 0 and 100. *)
Lemma rsi_moderate (prices : list float) :
  15 <= length prices ->
  Forall (fun p => moderate p = true) prices ->
  exists r,
    Engine.calculateRSI prices 14 = Some r
    /\ PrimFloat.leb 0%float r = true /\ PrimFloat.leb r 100%float = true.
Proof.
  intros Hlen Hall.
  destruct (calculateRSI_float prices Hlen)
    as (g0 & l0 & avgGain & avgLoss & Hseed & Hwilder & ->).
  cbv zeta in Hseed, Hwilder.
  pose proof (changes_within prices Hall) as Hchanges.
  pose proof (EngineFacts.changesOf_length (reverse prices)) as Hcl.
  rewrite length_reverse in Hcl.
  apply changes_split in Hchanges as [Hfirst Hrest].
  destruct (seed_upper _ 0 0%float 0%float Hfirst) as [Hg0 Hl0];
    [lia|rewrite length_take; lia| | |].
  1-2: cbn; pose proof (Binary64Facts.F2R_pos 4503599627370496 (949 + 0));
       lra.
  rewrite Hseed in Hg0, Hl0. cbn [fst snd] in Hg0, Hl0.
  replace (949 + 0 + Z.of_nat (length (firstn 14 (Engine.changesOf (reverse prices)))))%Z
    with 963%Z in Hg0, Hl0 by (rewrite length_take; lia).
  destruct (wilder_upper _ (g0 / 14)%float (l0 / 14)%float Hrest)
    as [Hg Hl]; try (apply by_14_upper; [lia|assumption]).
  rewrite Hwilder in Hg, Hl. cbn [fst snd] in Hg, Hl.
  destruct (PrimFloat.eqb avgLoss 0%float) eqn:Hzero.
  - exists 100%float. split; [reflexivity|]. split; reflexivity.
  - eexists. split; [reflexivity|]. apply ratio_range.
    rewrite div_spec.
    apply (Binary64Facts.div_nonneg_finite _ _ _ _ Hg Hl), not_zero, Hzero.
Qed.


(** *** Closes that never fall *)

Lemma finite_spec (x : float) :
  PrimFloat.is_finite x = true ->
  (exists s, Prim2SF x = S754_zero s)
  \/ exists s m e, Prim2SF x = S754_finite s m e.
Proof.
  unfold PrimFloat.is_finite, PrimFloat.is_nan, PrimFloat.is_infinity.
  rewrite !FloatAxioms.eqb_spec, abs_spec.
  change (Prim2SF PrimFloat.infinity) with (S754_infinity false).
  destruct (Prim2SF x) as [s|s| |s m e]; eauto; try discriminate.
  destruct s; discriminate.
Qed.

(** The difference of two finite closes in ascending order is not below
    zero. *)
Lemma nonneg_difference (older newer : float) :
  PrimFloat.is_finite older = true -> PrimFloat.is_finite newer = true ->
  PrimFloat.leb older newer = true ->
  PrimFloat.leb 0%float (newer - older)%float = true.
Proof.
  intros Ho Hn Hle.
  destruct (PrimFloat.ltb older newer) eqn:Hlt.
  { apply ltb_leb, positive_ltb, positive_difference, Hlt. }
  rewrite leb_spec, sub_spec. rewrite leb_spec in Hle.
  rewrite ltb_spec in Hlt. unfold SFleb in Hle. unfold SFltb in Hlt.
  change (Prim2SF 0%float) with (S754_zero false).
  destruct (finite_spec older Ho) as [[so Heo]|(so & mo & eo & Heo)];
    destruct (finite_spec newer Hn) as [[sn Hen]|(sn & mn & en & Hen)];
    rewrite Heo, Hen in Hle, Hlt |- *.
  - destruct so, sn; reflexivity.
  - destruct sn; cbn in Hle, Hlt; discriminate.
  - destruct so; cbn in Hle, Hlt; discriminate.
  - assert (Hsame : so = sn /\ mo = mn /\ eo = en).
    { cbn [SFcompare] in Hle, Hlt.
      destruct so, sn; try discriminate;
        destruct (Z.compare_spec eo en) as [->| |]; try discriminate;
        change (Pos.compare_cont Eq mo mn) with (mo ?= mn)%positive
          in Hle, Hlt;
        destruct (Pos.compare_spec mo mn) as [->| |]; try discriminate;
        auto. }
    destruct Hsame as (-> & -> & ->).
    unfold SF64sub, SFsub. cbv zeta. rewrite Z.sub_diag. reflexivity.
Qed.

Lemma never_falling_changes (prices : list float) :
  Forall (fun p => PrimFloat.is_finite p = true) prices ->
  everyChange (fun older newer => PrimFloat.leb older newer = true) prices ->
  Forall (fun c => PrimFloat.leb 0%float c = true)
    (Engine.changesOf (reverse prices)).
Proof.
  intros Hfin Hup. rewrite Forall_lookup in Hfin.
  assert (Hboth : everyChange
                    (fun older newer =>
                       PrimFloat.is_finite older = true
                       /\ PrimFloat.is_finite newer = true
                       /\ PrimFloat.leb older newer = true) prices).
  { intros i older newer Ho Hn. split; [exact (Hfin _ _ Ho)|].
    split; [exact (Hfin _ _ Hn)|exact (Hup i older newer Ho Hn)]. }
  eapply Forall_impl; [exact (changes_of_prices _ _ Hboth)|].
  intros c (older & newer & (Ho & Hn & Hle) & ->).
  apply nonneg_difference; assumption.
Qed.

(** Finite closes none of which is below the one of the day before have
    RSI exactly 100. *)
Lemma never_falling_rsi (prices : list float) :
  15 <= length prices ->
  Forall (fun p => PrimFloat.is_finite p = true) prices ->
  everyChange (fun older newer => PrimFloat.leb older newer = true) prices ->
  Engine.calculateRSI prices 14 = Some 100%float.
Proof.
  intros Hlen Hfin Hup. apply no_loss_rsi; [exact Hlen|].
  apply never_falling_changes; assumption.
Qed.

End FloatFacts.

(** ** RSI in binary64 *)

Module RsiFacts.
Import Notions Binary64.

(** C3, as the code has it, in binary64.  For at least 15 closes
    [calculateRSI(prices, 14)] is a number that is [NaN] or lies between 0
    and 100.  It lies between 0 and 100 when every close is finite and of
    magnitude at most [2^1000]; it is [NaN] when a close is [NaN]; it is
    exactly 100 when every close is above the close of the day before, and
    exactly 0 when every close is below it. *)
Theorem rsi_bounded (prices : list float) :
  15 <= length prices ->
  exists r,
    Engine.calculateRSI prices 14 = Some r
    /\ (r = PrimFloat.nan
        \/ (PrimFloat.leb 0%float r = true
            /\ PrimFloat.leb r 100%float = true))
    /\ (Forall (fun p => moderate p = true) prices ->
        PrimFloat.leb 0%float r = true /\ PrimFloat.leb r 100%float = true)
    /\ (PrimFloat.nan ∈ prices -> r = PrimFloat.nan)
    /\ (everyChange (fun older newer => PrimFloat.ltb older newer = true)
          prices -> r = 100%float)
    /\ (everyChange (fun older newer => PrimFloat.ltb newer older = true)
          prices -> r = 0%float).
Proof.
  intros Hlen.
  destruct (FloatFacts.rsi_range prices Hlen) as (r & Hr & Hrange).
  exists r. split; [exact Hr|]. split; [exact Hrange|].
  split; [|split; [|split]].
  - intros Hmoderate.
    destruct (FloatFacts.rsi_moderate prices Hlen Hmoderate)
      as (r' & Hr' & Hin).
    rewrite Hr in Hr'. injection Hr' as <-. exact Hin.
  - intros Hnan. pose proof (FloatFacts.rsi_nan_close prices Hlen Hnan) as Hr'.
    rewrite Hr in Hr'. injection Hr' as ->. reflexivity.
  - intros Hup. pose proof (FloatFacts.rsi_rising prices Hlen Hup) as Hr'.
    rewrite Hr in Hr'. injection Hr' as ->. reflexivity.
  - intros Hdown. pose proof (FloatFacts.rsi_falling prices Hlen Hdown) as Hr'.
    rewrite Hr in Hr'. injection Hr' as ->. reflexivity.
Qed.

End RsiFacts.

(** ** Extraction and the signal classifiers *)

Module ClassifierFacts.
Import Builtins Extraction Notions.

Lemma insertSorted_permutation {A : Type} (before : A -> A -> bool) (x : A)
    (l : list A) :
  insertSorted before x l ≡ₚ x :: l.
Proof.
  induction l as [|y l IH]; simpl; [reflexivity|].
  destruct (before x y); [reflexivity|].
  rewrite IH. apply Permutation_swap.
Qed.

Lemma sortBy_permutation {A : Type} (before : A -> A -> bool) (l : list A) :
  sortBy before l ≡ₚ l.
Proof.
  unfold sortBy. induction l as [|x l IH]; simpl; [reflexivity|].
  rewrite insertSorted_permutation, IH. reflexivity.
Qed.

Lemma sortedDates_keys (ts : Series) : sortedDates ts ≡ₚ keys ts.
Proof. apply sortBy_permutation. Qed.

Lemma sortedDates_length (ts : Series) :
  length (sortedDates ts) = length ts.
Proof.
  rewrite (Permutation_length (sortedDates_keys ts)). apply length_map.
Qed.

Lemma sortedDates_cons (ts : Series) :
  ts <> [] -> exists latest rest, sortedDates ts = latest :: rest.
Proof.
  intros Hne. destruct (sortedDates ts) as [|latest rest] eqn:Hd; [|eauto].
  apply (f_equal length) in Hd. rewrite sortedDates_length in Hd.
  destruct ts; [congruence|discriminate].
Qed.


(** The close of a date whose record is an object. *)
Lemma closeOf_field (ts : Series) (date : string) (price : float) :
  closeOf ts date = Some price ->
  price = parseFloatOf (closeField ts date).
Proof.
  unfold closeOf, closeField.
  destruct (getProp ts date) as [[fields|]|]; [|discriminate..].
  intros [= <-]. reflexivity.
Qed.

Lemma getProp_key {V : Type} (o : JsObject V) (key : string) :
  key ∈ keys o -> is_Some (getProp o key).
Proof.
  unfold keys. induction o as [|[k v] o IH]; cbn [map getProp fst].
  - intros Hin. inversion Hin.
  - intros Hin. destruct (String.eqb_spec k key) as [->|Hne]; [eauto|].
    apply IH. inversion Hin; subst; [congruence|assumption].
Qed.

(** Without a [null] record every close of the series can be read; with
    one, reading the closes throws. *)
Lemma closes_read (ts : Series) :
  nullFree ts = true ->
  mapM (closeOf ts) (sortedDates ts)
  = Some (map (fun date => parseFloatOf (closeField ts date))
            (sortedDates ts)).
Proof.
  intros Hfree. apply mapM_Some. apply Forall2_fmap_r, Forall_Forall2_diag.
  rewrite (sortedDates_keys ts). apply Forall_forall. intros date Hin.
  unfold nullFree in Hfree. rewrite forallb_forall in Hfree.
  specialize (Hfree date). cbv [compose]. unfold closeOf, closeField.
  destruct (getProp_key ts date Hin) as [record Hrecord].
  rewrite Hrecord in *. destruct record as [fields|]; [reflexivity|].
  apply list_elem_of_In in Hin. specialize (Hfree Hin). discriminate.
Qed.

Lemma closes_fail (ts : Series) :
  nullFree ts = false -> mapM (closeOf ts) (sortedDates ts) = None.
Proof.
  intros Hnull. apply mapM_None. rewrite (sortedDates_keys ts).
  revert Hnull. unfold nullFree. generalize (keys ts) as dates.
  induction dates as [|date dates IH]; cbn [forallb]; [discriminate|].
  intros Hnull. apply andb_false_iff in Hnull as [Hdate|Hdates].
  - left. unfold closeOf.
    destruct (getProp ts date) as [[fields|]|];
      [discriminate|reflexivity|discriminate].
  - right. apply IH, Hdates.
Qed.

(** What an analysis that did not throw was computed from. *)
Lemma monitor_process_inv (now : Z) (data : Payload) (ticker : string)
    (r : Monitor.AnalysisResult) :
  Monitor.processStockData now data ticker = inr r ->
  exists ts latest rest price prices,
    timeSeries data = Some ts
    /\ sortedDates ts = latest :: rest
    /\ closeOf ts latest = Some price
    /\ mapM (closeOf ts) (latest :: rest) = Some prices
    /\ r = Monitor.analyse now ticker latest price prices.
Proof.
  unfold Monitor.processStockData. intros Hr.
  destruct (timeSeries data) as [ts|]; [|discriminate].
  destruct (sortedDates ts) as [|latest rest] eqn:Hd; [discriminate|].
  destruct (closeOf ts latest) as [price|] eqn:Hp; [|discriminate].
  destruct (mapM (closeOf ts) (latest :: rest)) as [prices|] eqn:Hm;
    [|discriminate].
  injection Hr as <-. exists ts, latest, rest, price, prices. auto.
Qed.

Lemma browser_process_inv (now : Z) (data : Payload) (ticker : string)
    (b : Browser.Analysis) :
  Browser.processStockData now data ticker = inr b ->
  exists ts latest rest price prices,
    timeSeries data = Some ts
    /\ sortedDates ts = latest :: rest
    /\ closeOf ts latest = Some price
    /\ mapM (closeOf ts) (latest :: rest) = Some prices
    /\ b = Browser.analyse now ticker latest price prices.
Proof.
  unfold Browser.processStockData. intros Hr.
  destruct (timeSeries data) as [ts|]; [|discriminate].
  destruct (sortedDates ts) as [|latest rest] eqn:Hd; [discriminate|].
  destruct (closeOf ts latest) as [price|] eqn:Hp; [|discriminate].
  destruct (mapM (closeOf ts) (latest :: rest)) as [prices|] eqn:Hm;
    [|discriminate].
  injection Hr as <-. exists ts, latest, rest, price, prices. auto.
Qed.

(** The closes of a series with a record and without a [null] record. *)
Lemma closes_of_series (ts : Series) :
  ts <> [] -> nullFree ts = true ->
  exists latest rest,
    sortedDates ts = latest :: rest
    /\ closeOf ts latest = Some (parseFloatOf (closeField ts latest))
    /\ mapM (closeOf ts) (latest :: rest)
       = Some (map (fun date => parseFloatOf (closeField ts date))
                 (latest :: rest)).
Proof.
  intros Hne Hfree. destruct (sortedDates_cons ts Hne) as (latest & rest & Hd).
  pose proof (closes_read ts Hfree) as Hread. rewrite Hd in Hread.
  exists latest, rest. split; [exact Hd|]. split; [|exact Hread].
  apply mapM_Some in Hread. inversion Hread as [|? ? ? ? Hlatest _]; subst.
  exact Hlatest.
Qed.

(** Both classifiers analyse any payload whose time series has a record
    and no [null] record, and throw on a [null] record. *)
Lemma monitor_process_defined (now : Z) (data : Payload) (ticker : string)
    (ts : Series) :
  timeSeries data = Some ts -> ts <> [] -> nullFree ts = true ->
  exists latest rest,
    sortedDates ts = latest :: rest
    /\ Monitor.processStockData now data ticker
       = inr (Monitor.analyse now ticker latest
                (parseFloatOf (closeField ts latest))
                (map (fun date => parseFloatOf (closeField ts date))
                   (latest :: rest))).
Proof.
  intros Hts Hne Hfree.
  destruct (closes_of_series ts Hne Hfree) as (latest & rest & Hd & Hp & Hm).
  exists latest, rest. split; [exact Hd|].
  unfold Monitor.processStockData. rewrite Hts, Hd, Hp, Hm. reflexivity.
Qed.

Lemma browser_process_defined (now : Z) (data : Payload) (ticker : string)
    (ts : Series) :
  timeSeries data = Some ts -> ts <> [] -> nullFree ts = true ->
  exists latest rest,
    sortedDates ts = latest :: rest
    /\ Browser.processStockData now data ticker
       = inr (Browser.analyse now ticker latest
                (parseFloatOf (closeField ts latest))
                (map (fun date => parseFloatOf (closeField ts date))
                   (latest :: rest))).
Proof.
  intros Hts Hne Hfree.
  destruct (closes_of_series ts Hne Hfree) as (latest & rest & Hd & Hp & Hm).
  exists latest, rest. split; [exact Hd|].
  unfold Browser.processStockData. rewrite Hts, Hd, Hp, Hm. reflexivity.
Qed.

Lemma process_null_record (now : Z) (data : Payload) (ticker : string)
    (ts : Series) :
  timeSeries data = Some ts -> ts <> [] -> nullFree ts = false ->
  Monitor.processStockData now data ticker = inl nullRecord
  /\ Browser.processStockData now data ticker = inl nullRecord.
Proof.
  intros Hts Hne Hnull.
  destruct (sortedDates_cons ts Hne) as (latest & rest & Hd).
  pose proof (closes_fail ts Hnull) as Hfail. rewrite Hd in Hfail.
  unfold Monitor.processStockData, Browser.processStockData.
  rewrite Hts, Hd, Hfail.
  destruct (closeOf ts latest); split; reflexivity.
Qed.

Lemma monitor_sma_block (label : string) (price : float)
    (sma : option float) :
  Forall (fun sig => isInsufficientData sig = false)
    (Monitor.smaSignal label price sma).
Proof.
  unfold Monitor.smaSignal. destruct sma as [s|]; [|constructor].
  destruct (price >? s)%js; repeat constructor.
Qed.

(** C5, as the code has it.  The classifier of [script.js] emits, for a
    50-day or 200-day SMA that is null, a warning "Insufficient data" with
    the required and the available number of points.  The classifier of
    [monitor.js] emits nothing for a null SMA: its signals are then those
    of the other blocks only, and none of its signals is ever an
    "Insufficient data" notice. *)
Theorem insufficient_data_signal (now : Z) (data : Payload)
    (ticker : string) :
  (forall b,
      Browser.processStockData now data ticker = inr b ->
      (Browser.sma50 b = None ->
       In (mkSignal
             [Lit "Insufficient data for 50-day SMA (need 50 days, have ";
              Count (Browser.dataPoints b); Lit ")"] warning)
         (Browser.signals b))
      /\ (Browser.sma200 b = None ->
          In (mkSignal
                [Lit "Insufficient data for 200-day SMA (need 200 days, have ";
                 Count (Browser.dataPoints b);
                 Lit "). Consider fetching full dataset."] warning)
            (Browser.signals b)))
  /\ (forall r a,
         Monitor.processStockData now data ticker = inr r ->
         Monitor.analysis r = Some a ->
         let others :=
           Monitor.rsiSignal (Monitor.rsi a)
             ++ Monitor.macdSignal (Monitor.macd a)
             ++ Monitor.bollingerSignal (Monitor.latestPrice a)
                  (Monitor.bb a) in
         let freshness :=
           Monitor.freshnessSignal (daysDiffOf now (Monitor.latestDate a)) in
         (Monitor.sma50 a = None ->
          Monitor.signals r
          = freshness
              ++ Monitor.smaSignal "100" (Monitor.latestPrice a)
                   (Monitor.sma100 a)
              ++ others)
         /\ (Monitor.sma100 a = None ->
             Monitor.signals r
             = freshness
                 ++ Monitor.smaSignal "50" (Monitor.latestPrice a)
                      (Monitor.sma50 a)
                 ++ others))
  /\ (forall r,
         Monitor.processStockData now data ticker = inr r ->
         Forall (fun sig => isInsufficientData sig = false)
           (Monitor.signals r)).
Proof.
  split; [|split].
  - intros b Hb.
    destruct (browser_process_inv _ _ _ _ Hb)
      as (ts & latest & rest & price & prices & _ & _ & _ & _ & ->).
    unfold Browser.analyse.
    cbn [Browser.sma50 Browser.sma200 Browser.signals Browser.dataPoints].
    split; intros Hnone; rewrite Hnone; apply in_or_app; right.
    + left. reflexivity.
    + right. left. reflexivity.
  - intros r a Hr Ha.
    destruct (monitor_process_inv _ _ _ _ Hr)
      as (ts & latest & rest & price & prices & _ & _ & _ & _ & ->).
    unfold Monitor.analyse in *.
    cbn [Monitor.analysis] in Ha. injection Ha as <-.
    cbn zeta.
    cbn [Monitor.sma50 Monitor.sma100 Monitor.signals Monitor.rsi
         Monitor.macd Monitor.bb Monitor.latestPrice Monitor.latestDate].
    split; intros Hnone; rewrite Hnone.
    + reflexivity.
    + destruct (Engine.calculateSMA _ 50); reflexivity.
  - intros r Hr.
    destruct (monitor_process_inv _ _ _ _ Hr)
      as (ts & latest & rest & price & prices & _ & _ & _ & _ & ->).
    unfold Monitor.analyse.
    cbn [Monitor.signals]. repeat apply Forall_app_2.
    + unfold Monitor.freshnessSignal.
      destruct (daysDiffOf now latest) as [d|]; [|constructor].
      destruct (3 <? d)%Z; repeat constructor.
    + apply monitor_sma_block.
    + apply monitor_sma_block.
    + unfold Monitor.crossSignal.
      destruct (Engine.calculateSMA _ 50) as [s50|]; [|constructor].
      destruct (Engine.calculateSMA _ 100) as [s100|]; [|constructor].
      destruct (s50 >? s100)%js; repeat constructor.
    + unfold Monitor.rsiSignal.
      destruct (Engine.calculateRSI _ 14) as [x|]; [|constructor].
      destruct (x >? _)%js; [|destruct (x <? _)%js]; repeat constructor.
    + unfold Monitor.macdSignal.
      destruct (Engine.calculateMACD _) as [m|]; [|constructor].
      destruct (_ >? _)%js; repeat constructor.
    + unfold Monitor.bollingerSignal.
      destruct (Engine.calculateBollingerBands _ 20) as [b|]; [|constructor].
      destruct (_ >? _)%js; [|destruct (_ <? _)%js]; repeat constructor.
Qed.


(** C7, as the code has it.  No percentage is guarded against a zero
    denominator and none raises an exception: with enough points the
    quotient is formed whatever the denominator is (binary64 division
    gives an infinity or [NaN] for a zero denominator) and the result is
    never null: momentum over one week and one month, the Bollinger band
    width, the deviation from an SMA and the position within the bands.
    A percentage with a zero denominator is an infinity or [NaN]. *)
Theorem percentages_not_guarded (prices : list float) (price : float) :
  (6 <= length prices ->
   Engine.week (Engine.calculateMomentum prices)
   = Some ((Engine.at_ prices 0 - Engine.at_ prices 5)
             / Engine.at_ prices 5 * ofNat 100)%js)
  /\ (22 <= length prices ->
      Engine.month (Engine.calculateMomentum prices)
      = Some ((Engine.at_ prices 0 - Engine.at_ prices 21)
                / Engine.at_ prices 21 * ofNat 100)%js)
  /\ (20 <= length prices ->
      exists stdDev,
        let sma := (Engine.sum (firstn 20 prices) / ofNat 20)%js in
        Engine.calculateBollingerBands prices 20
        = Some (Engine.mkBollinger (sma + ofNat 2 * stdDev)%js sma
                  (sma - ofNat 2 * stdDev)%js
                  (ofNat 4 * stdDev / sma * ofNat 100)%js))
  /\ (forall label sma,
         exists sig,
           Monitor.smaSignal label price (Some sma) = [sig]
           /\ head (text sig)
              = Some (AbsFixed ((price - sma) / sma * ofNat 100)%js 2))
  /\ (forall days hint available sma,
         In (AbsFixed ((price - sma) / sma * ofNat 100)%js 2)
           (text (Browser.smaSignal days hint price (Some sma) available)))
  /\ (forall b,
         (price >? Engine.upper b)%js = false ->
         (price <? Engine.lower b)%js = false ->
         exists sig,
           Monitor.bollingerSignal price (Some b) = [sig]
           /\ type sig = warning
           /\ In (Fixed ((price - Engine.lower b)
                           / (Engine.upper b - Engine.lower b)
                           * ofNat 100)%js 0) (text sig))
  /\ (forall x d,
         (d === ofNat 0)%js = true ->
         Notions.isInfinityOrNaN (x / d * ofNat 100)%js).
Proof.
  split; [|split; [|split; [|split; [|split; [|split]]]]];
    [| | | | | |exact FloatFacts.percent_by_zero].
  - intros Hlen. unfold Engine.calculateMomentum. cbn [Engine.week].
    destruct (Nat.leb_spec 6 (length prices)); [reflexivity|lia].
  - intros Hlen. unfold Engine.calculateMomentum. cbn [Engine.month].
    destruct (Nat.leb_spec 22 (length prices)); [reflexivity|lia].
  - intros Hlen. unfold Engine.calculateBollingerBands.
    destruct (Nat.ltb_spec (length prices) 20); [lia|].
    eexists. reflexivity.
  - intros label sma. unfold Monitor.smaSignal.
    destruct (price >? sma)%js; eexists; split; reflexivity.
  - intros days hint available sma. unfold Browser.smaSignal.
    destruct (price >? sma)%js; cbn [text]; right; left; reflexivity.
  - intros b Hup Hlow. unfold Monitor.bollingerSignal.
    rewrite Hup, Hlow. eexists. split; [reflexivity|].
    split; [reflexivity|]. cbn [text]. right; left; reflexivity.
Qed.

End ClassifierFacts.


(** ** The run orchestrator and the fetch client *)

Module RunFacts.
Import Builtins Notions.
Local Open Scope Z_scope.

Lemma sorted_spaced (log : CallLog) : StronglySorted apart log -> spaced log.
Proof.
  induction 1 as [|c log Hsorted IH Hall]; intros i j newer older Hij Hi Hj.
  - discriminate.
  - destruct j as [|j]; [lia|]. simpl in Hj.
    destruct i as [|i]; simpl in Hi.
    + injection Hi as <-.
      rewrite Forall_forall in Hall. apply Hall.
      eapply list_elem_of_lookup_2. exact Hj.
    + apply (IH i j); [lia|assumption|assumption].
Qed.

(** *** The main loop of [monitor.js] *)

Lemma monitor_process_shape (now : Z) (data : Payload) (ticker : string)
    (r : Monitor.AnalysisResult) :
  Monitor.processStockData now data ticker = inr r ->
  Monitor.ticker r = toUpperCase ticker /\ Monitor.error r = None.
Proof.
  intros Hr.
  destruct (ClassifierFacts.monitor_process_inv _ _ _ _ Hr)
    as (ts & latest & rest & price & prices & _ & _ & _ & _ & ->).
  split; reflexivity.
Qed.

Lemma outcome_ticker (env : Env) (ticker : string) (time : Z)
    (r : Monitor.AnalysisResult) :
  outcome env ticker time r -> Monitor.ticker r = toUpperCase ticker.
Proof.
  unfold outcome.
  destruct (MonitorRun.classify ticker (respond env ticker time))
    as [err|data]; [intros ->; reflexivity|].
  destruct (Monitor.processStockData _ data ticker) as [err|a] eqn:Hp.
  - intros ->. reflexivity.
  - intros [-> _]. apply (monitor_process_shape _ _ _ _ Hp).
Qed.

(** One round of the loop: the [try] block and its [catch] clause. *)
Lemma attempt_outcome (env : Env) (ticker : string) (st : MonitorRun.State) :
  outcome env ticker (MonitorRun.clock st)
    match fst (MonitorRun.attempt env ticker st) with
    | inr analysis => analysis
    | inl err => MonitorRun.failed ticker err
    end
  /\ MonitorRun.calls (snd (MonitorRun.attempt env ticker st))
     = (MonitorRun.clock st, ticker) :: MonitorRun.calls st.
Proof.
  unfold outcome, MonitorRun.attempt, MonitorRun.fetchStockData.
  cbn [fst snd MonitorRun.clock MonitorRun.calls].
  split; [|reflexivity].
  destruct (MonitorRun.classify ticker _) as [err|data]; [reflexivity|].
  destruct (Monitor.processStockData _ data ticker) as [err|a] eqn:Hp;
    [reflexivity|].
  split; [reflexivity|]. apply (monitor_process_shape _ _ _ _ Hp).
Qed.

Lemma mainLoop_results (env : Env) (tickers : list string) :
  forall i st acc,
    exists times rs,
      length times = length tickers
      /\ fst (MonitorRun.mainLoop env i tickers st acc) = acc ++ rs
      /\ MonitorRun.calls (snd (MonitorRun.mainLoop env i tickers st acc))
         = reverse (zip times tickers) ++ MonitorRun.calls st
      /\ Forall2 (fun call r => outcome env (snd call) (fst call) r)
           (zip times tickers) rs.
Proof.
  induction tickers as [|ticker rest IH]; intros i st acc.
  - exists [], []. simpl. rewrite app_nil_r. repeat split. constructor.
  - cbn [MonitorRun.mainLoop].
    set (st1 := if (0 <? i)%nat then _ else st).
    assert (Hcalls : MonitorRun.calls st1 = MonitorRun.calls st).
    { subst st1. destruct (0 <? i)%nat; reflexivity. }
    destruct (attempt_outcome env ticker st1) as [Hout Hlog].
    destruct (MonitorRun.attempt env ticker st1) as [outcome st2].
    cbn [fst snd] in Hout, Hlog.
    set (result := match outcome with inr a => a | inl err => _ end) in *.
    destruct (IH (S i) st2 (acc ++ [result]))
      as (times & rs & Hlen & Hrs & Hlog' & Hall).
    exists (MonitorRun.clock st1 :: times), (result :: rs).
    split; [simpl; lia|]. split; [|split].
    + rewrite Hrs, <- app_assoc. reflexivity.
    + rewrite Hlog', Hlog, Hcalls. cbn [zip zip_with].
      rewrite reverse_cons, <- app_assoc. reflexivity.
    + cbn [zip zip_with]. constructor; [exact Hout|exact Hall].
Qed.

(** C2. A run returns one result per input ticker, in the order of the
    tickers, and calls the provider once for each of them, in that order.
    The result of a ticker whose fetch or analysis throws has [error] set
    to the message of the error (which names the kind of failure), no
    signals and no analysis; the result of any other ticker is its
    analysis, with [error] null.  Every ticker is processed, whatever
    happened to the tickers before it. *)
Theorem run_one_result_per_ticker (env : Env) (tickers : list string)
    (st : MonitorRun.State) :
  let results := fst (MonitorRun.run env tickers st) in
  let final := snd (MonitorRun.run env tickers st) in
  length results = length tickers
  /\ map Monitor.ticker results = map toUpperCase tickers
  /\ exists times,
       length times = length tickers
       /\ MonitorRun.calls final
          = reverse (zip times tickers) ++ MonitorRun.calls st
       /\ Forall2
            (fun call r =>
               let ticker := snd call in
               let time := fst call in
               let arrived := time + Z.of_nat (latency env ticker time) in
               let failure (err : Thrown) :=
                 r = Monitor.mkResult (toUpperCase ticker)
                       (Some (messageOf err)) [] None in
               match MonitorRun.classify ticker (respond env ticker time) with
               | inl err => failure err
               | inr data =>
                   match Monitor.processStockData arrived data ticker with
                   | inl err => failure err
                   | inr analysis => r = analysis /\ Monitor.error r = None
                   end
               end) (zip times tickers) results.
Proof.
  intros results final. subst results final. unfold MonitorRun.run.
  destruct (mainLoop_results env tickers 0%nat st [])
    as (times & rs & Hlen & -> & Hlog & Hall).
  cbn [app].
  assert (Hzip : length (zip times tickers) = length tickers).
  { rewrite length_zip_with. lia. }
  split; [|split].
  - rewrite <- Hzip. symmetry. eapply Forall2_length. exact Hall.
  - clear Hlog Hzip. revert times rs Hlen Hall.
    induction tickers as [|ticker rest IH]; intros times rs Hlen Hall.
    + destruct times; [|discriminate]. inversion Hall. reflexivity.
    + destruct times as [|time times]; [discriminate|].
      cbn [zip zip_with] in Hall.
      inversion Hall as [|? r ? rs' Hr Hrest]; subst.
      cbn [map]. f_equal.
      * apply (outcome_ticker env ticker time), Hr.
      * apply (IH times); [simpl in Hlen; lia|exact Hrest].
  - exists times. split; [exact Hlen|]. split; [exact Hlog|exact Hall].
Qed.

Lemma mainLoop_spaced (env : Env) (tickers : list string) :
  forall i st acc,
    (i = 0%nat -> MonitorRun.calls st = []) ->
    monitorInv st ->
    monitorInv (snd (MonitorRun.mainLoop env i tickers st acc)).
Proof.
  induction tickers as [|ticker rest IH]; intros i st acc Hfirst Hinv;
    [exact Hinv|].
  cbn [MonitorRun.mainLoop].
  set (st1 := if (0 <? i)%nat then _ else st).
  unfold MonitorRun.attempt, MonitorRun.fetchStockData.
  cbn [fst snd].
  apply IH; [discriminate|].
  destruct Hinv as [Hsorted Hle].
  assert (Hclock : MonitorRun.calls st1 = MonitorRun.calls st
                   /\ Forall (fun c => apart (MonitorRun.clock st1, ticker) c)
                        (MonitorRun.calls st)
                   /\ MonitorRun.clock st <= MonitorRun.clock st1).
  { subst st1. destruct (Nat.ltb_spec 0 i) as [Hpos|Hzero].
    - cbn [MonitorRun.calls MonitorRun.clock]. split; [reflexivity|].
      unfold afterTimeout. split; [|unfold API_RATE_LIMIT_DELAY; lia].
      eapply Forall_impl; [exact Hle|].
      intros c Hc. unfold apart. cbn [fst] in *. lia.
    - rewrite Hfirst by lia. split; [reflexivity|]. split; [constructor|lia]. }
  destruct Hclock as (Hcalls & Hapart & Hmono).
  unfold monitorInv. cbn [MonitorRun.calls MonitorRun.clock].
  rewrite Hcalls. split.
  - apply SSorted_cons; assumption.
  - constructor; [cbn [fst]; lia|].
    eapply Forall_impl; [exact Hle|]. intros c Hc. cbn beta in *. lia.
Qed.

(** *** The fetch client of [script.js] *)

Lemma getCachedData_frame (ticker : string) (st : Browser.State) :
  let st' := snd (Browser.getCachedData ticker st) in
  Browser.calls st' = Browser.calls st
  /\ Browser.lastAPICallTime st' = Browser.lastAPICallTime st
  /\ Browser.clock st' = Browser.clock st.
Proof.
  unfold Browser.getCachedData.
  destruct (Browser.storage st !! Browser.cacheKeyOf ticker) as [[ts d|]|];
    [destruct (_ <? _)|..]; repeat split.
Qed.

Lemma setCachedData_frame (env : Env) (ticker : string) (data : Payload)
    (st : Browser.State) :
  let st' := Browser.setCachedData env ticker data st in
  Browser.calls st' = Browser.calls st
  /\ Browser.lastAPICallTime st' = Browser.lastAPICallTime st
  /\ Browser.clock st' = Browser.clock st.
Proof.
  unfold Browser.setCachedData.
  destruct (setItemThrows env _ _); repeat split.
Qed.

Lemma fetch_keeps_spacing (env : Env) (ticker : string)
    (st : Browser.State) :
  browserInv st -> browserInv (snd (Browser.fetchStockData env ticker st)).
Proof.
  intros [Hsorted Hle]. unfold Browser.fetchStockData.
  pose proof (getCachedData_frame ticker st) as (Hc & Hl & Hk).
  destruct (Browser.getCachedData ticker st) as [[data|] st0];
    cbn [snd] in Hc, Hl, Hk.
  - cbn [snd]. unfold browserInv. rewrite Hc, Hl. split; assumption.
  - set (resumed := if _ <? _ then _ else Browser.clock st0).
    assert (Hres : Browser.lastAPICallTime st + API_RATE_LIMIT_DELAY
                   <= resumed).
    { subst resumed. rewrite Hl.
      destruct (Z.ltb_spec (Browser.clock st0 - Browser.lastAPICallTime st)
                  API_RATE_LIMIT_DELAY); [unfold afterTimeout|]; lia. }
    assert (Hinv : browserInv
                     (Browser.mkState (Browser.storage st0) resumed
                        (resumed
                         + Z.of_nat (latency env ticker resumed))
                        ((resumed, ticker) :: Browser.calls st0))).
    { unfold browserInv. cbn [Browser.calls Browser.lastAPICallTime].
      rewrite Hc. split.
      - apply SSorted_cons; [exact Hsorted|].
        eapply Forall_impl; [exact Hle|].
        intros c Hcle. unfold apart. cbn [fst] in *. lia.
      - constructor; [cbn [fst]; lia|].
        eapply Forall_impl; [exact Hle|].
        intros c Hcle. cbn beta in *. unfold API_RATE_LIMIT_DELAY in Hres.
        lia. }
    destruct (Browser.classify (respond env ticker resumed)) as [err|data];
      cbn [snd]; [exact Hinv|].
    unfold browserInv in *.
    destruct (setCachedData_frame env ticker data
                (Browser.mkState (Browser.storage st0) resumed
                   (resumed + Z.of_nat (latency env ticker resumed))
                   ((resumed, ticker) :: Browser.calls st0)))
      as (Hcalls & Hlast & _).
    rewrite Hcalls, Hlast. exact Hinv.
Qed.

Lemma session_keeps_spacing (env : Env) (requests : list (nat * string)) :
  forall st, browserInv st -> browserInv (Browser.session env requests st).
Proof.
  induction requests as [|[idle ticker] rest IH]; intros st Hinv;
    [exact Hinv|].
  cbn [Browser.session]. apply IH, fetch_keeps_spacing. exact Hinv.
Qed.

(** C9. Whatever the provider answers and however long calls and timers
    take, the outbound calls of a session of [script.js] are pairwise at
    least 12 seconds apart, and so are those of a run of [monitor.js]:
    fetches are issued one after the other and each network call waits
    until the delay has passed since the call before it. *)
Theorem calls_are_spaced (env : Env) :
  (forall requests store now,
      spaced (Browser.calls
                (Browser.session env requests (Browser.initial store now))))
  /\ (forall tickers now,
         spaced (MonitorRun.calls
                   (snd (MonitorRun.run env tickers
                           (MonitorRun.mkState now []))))).
Proof.
  split.
  - intros requests store now. apply sorted_spaced.
    apply (session_keeps_spacing env requests).
    split; constructor.
  - intros tickers now. apply sorted_spaced.
    apply (mainLoop_spaced env tickers); [reflexivity|].
    split; constructor.
Qed.

(** What [getCachedData] does to the cache: a fresh entry is returned and
    nothing changes; in every other case (no entry, an entry as old as the
    cache duration, a text that is no JSON) the result is null and the key
    is absent afterwards, all other keys being kept. *)
Lemma getCachedData_outcome (ticker : string) (st : Browser.State) :
  let key := Browser.cacheKeyOf ticker in
  match Browser.getCachedData ticker st with
  | (Some data, st') =>
      st' = st
      /\ exists timestamp,
           Browser.storage st !! key = Some (Browser.Entry timestamp data)
           /\ Browser.clock st - timestamp < Browser.CACHE_DURATION_MS
  | (None, st') =>
      Browser.storage st' !! key = None
      /\ (forall other, other <> key ->
            Browser.storage st' !! other = Browser.storage st !! other)
      /\ Browser.calls st' = Browser.calls st
      /\ Browser.lastAPICallTime st' = Browser.lastAPICallTime st
      /\ Browser.clock st' = Browser.clock st
  end.
Proof.
  intros key. unfold Browser.getCachedData. fold key.
  destruct (Browser.storage st !! key) as [[timestamp data|]|] eqn:Hlook.
  - destruct (Z.ltb_spec (Browser.clock st - timestamp)
                Browser.CACHE_DURATION_MS) as [Hfresh|Hold].
    + split; [reflexivity|]. eauto.
    + cbn [Browser.storage Browser.calls Browser.lastAPICallTime
           Browser.clock].
      split; [apply lookup_delete_eq|].
      split; [intros other Hne; apply lookup_delete_ne; congruence|].
      repeat split.
  - cbn [Browser.storage Browser.calls Browser.lastAPICallTime
         Browser.clock].
    split; [apply lookup_delete_eq|].
    split; [intros other Hne; apply lookup_delete_ne; congruence|].
    repeat split.
  - split; [exact Hlook|]. repeat split.
Qed.

Lemma setCachedData_key (env : Env) (ticker : string) (data : Payload)
    (st : Browser.State) :
  let key := Browser.cacheKeyOf ticker in
  Browser.storage (Browser.setCachedData env ticker data st) !! key
  = if setItemThrows env key (Browser.clock st)
    then Browser.storage st !! key
    else Some (Browser.Entry (Browser.clock st) data).
Proof.
  intros key. unfold Browser.setCachedData. fold key.
  destruct (setItemThrows env key (Browser.clock st)); [reflexivity|].
  cbn [Browser.storage]. apply lookup_insert_eq.
Qed.

Lemma setCachedData_other (env : Env) (ticker : string) (data : Payload)
    (st : Browser.State) (other : string) :
  other <> Browser.cacheKeyOf ticker ->
  Browser.storage (Browser.setCachedData env ticker data st) !! other
  = Browser.storage st !! other.
Proof.
  intros Hne. unfold Browser.setCachedData.
  destruct (setItemThrows env _ _); [reflexivity|].
  cbn [Browser.storage]. apply lookup_insert_ne. congruence.
Qed.




End RunFacts.

(** ** The properties at sample inputs *)

Module AtSamples.
Import Builtins Extraction Samples.

(** The built-in functions on the texts of the samples. *)
Example parseFloat_samples :
  map parseFloat ["12.5000"; "  -0.75"; ".5e1"; "12abc"; "abc"; ""; "1e400"]
  = [12.5; -0.75; 5; 12; PrimFloat.nan; PrimFloat.nan;
     PrimFloat.infinity]%float.
Proof. reflexivity. Qed.

Example Date_parse_samples :
  map Date_parse ["1970-01-01"; "2024-01-03"; "2023-02-29"; "yesterday"]
  = [Some 0%Z; Some 1704240000000%Z; None; None].
Proof. reflexivity. Qed.

Example sortedDates_sample :
  option_map sortedDates (timeSeries badClose)
  = Some ["2024-01-03"; "2024-01-02"; "2023-12-29"; "2023-12-28";
          "2023-12-27"; "2023-12-26"].
Proof. reflexivity. Qed.

(** RSI in binary64 on a rising and on a falling sequence. *)
Example rsi_rising_float :
  Engine.calculateRSI thirtyFive 14 = Some 100%float
  /\ Engine.calculateRSI (reverse thirtyFive) 14 = Some 0%float.
Proof. split; reflexivity. Qed.

(** C3 fails on binary64: with a close that is [NaN], and with finite
    closes whose sums overflow, the RSI is [NaN], which is neither at
    least 0 nor at most 100. *)
Lemma rsi_can_be_nan :
  (15 <= length closesWithNaN
   /\ Engine.calculateRSI closesWithNaN 14 = Some PrimFloat.nan)
  /\ (15 <= length swinging
      /\ Forall (fun p => PrimFloat.is_finite p = true) swinging
      /\ Engine.calculateRSI swinging 14 = Some PrimFloat.nan)
  /\ PrimFloat.leb 0%float PrimFloat.nan = false
  /\ PrimFloat.leb PrimFloat.nan 100%float = false.
Proof.
  split; [split; [vm_compute; lia|reflexivity]|].
  split; [|split; reflexivity].
  split; [vm_compute; lia|]. split; [|reflexivity].
  unfold swinging. cbn [replicate concat app].
  repeat (apply Forall_cons_2; [reflexivity|]). apply Forall_nil_2.
Qed.

Lemma rsi_bounded_witness :
  exists r,
    Engine.calculateRSI thirtyFive 14 = Some r
    /\ (r = PrimFloat.nan
        \/ (PrimFloat.leb 0%float r = true
            /\ PrimFloat.leb r 100%float = true))
    /\ (Forall (fun p => Binary64.moderate p = true) thirtyFive ->
        PrimFloat.leb 0%float r = true /\ PrimFloat.leb r 100%float = true)
    /\ (PrimFloat.nan ∈ thirtyFive -> r = PrimFloat.nan)
    /\ (Notions.everyChange (fun older newer => PrimFloat.ltb older newer = true)
          thirtyFive -> r = 100%float)
    /\ (Notions.everyChange (fun older newer => PrimFloat.ltb newer older = true)
          thirtyFive -> r = 0%float).
Proof. apply (RsiFacts.rsi_bounded thirtyFive). vm_compute. lia. Defined.

Lemma short_series_is_null_witness :
  Engine.calculateSMA [1; 2]%float 3 = None
  /\ Engine.calculateRSI [1; 2]%float 14 = None
  /\ Engine.calculateMACD [1; 2]%float = None
  /\ Engine.calculateBollingerBands [1; 2]%float 20 = None.
Proof.
  destruct (EngineFacts.short_series_is_null [1; 2]%float 3)
    as (Hsma & Hrsi & Hmacd & Hbb).
  split; [|split; [|split]];
    [apply Hsma|apply Hrsi|apply Hmacd|apply Hbb]; simpl; lia.
Defined.

(** C4 fails for an input shorter than the period: the result is the empty
    array, not an array as long as the input. *)
Lemma emaArray_short_is_empty :
  Engine._emaArray [1; 2]%float 3 = []
  /\ length (Engine._emaArray [1; 2]%float 3) <> length [1; 2]%float.
Proof. split; [reflexivity|]. vm_compute. discriminate. Qed.

Lemma emaArray_chain_witness :
  let oldestFirst := [1; 2; 3; 4]%float in
  let ema := Engine._emaArray oldestFirst 2 in
  let k := (ofNat 2 / (ofNat 2 + ofNat 1))%js in
  length ema = length oldestFirst
  /\ (forall i, i < 2 - 1 -> ema !! i = Some None)
  /\ ema !! (2 - 1)
     = Some (Some (Engine.sum (firstn 2 oldestFirst) / ofNat 2)%js)
  /\ (forall i price,
        2 <= i -> oldestFirst !! i = Some price ->
        exists prev,
          ema !! (i - 1) = Some (Some prev)
          /\ ema !! i = Some (Some (price * k + prev * (ofNat 1 - k))%js)).
Proof.
  apply (proj2 (EngineFacts.emaArray_chain [1; 2; 3; 4]%float 2)).
  simpl. lia.
Defined.

(** C5 fails for the classifier of [monitor.js]: three data points, no
    50-day SMA, and no signal at all. *)
Lemma monitor_has_no_insufficient_data_signal :
  exists r a,
    Monitor.processStockData now threeDays "MSFT" = inr r
    /\ Monitor.analysis r = Some a
    /\ Monitor.sma50 a = None
    /\ Monitor.sma100 a = None
    /\ Monitor.dataPoints a = 3
    /\ Monitor.signals r = [].
Proof. eexists. eexists. vm_compute. repeat split. Qed.

Lemma insufficient_data_signal_witness :
  exists b,
    Browser.processStockData now threeDays "MSFT" = inr b
    /\ In (mkSignal
             [Lit "Insufficient data for 50-day SMA (need 50 days, have ";
              Count 3; Lit ")"] warning)
         (Browser.signals b).
Proof.
  destruct (Browser.processStockData now threeDays "MSFT") as [e|b] eqn:Hb;
    [vm_compute in Hb; discriminate|].
  exists b. split; [reflexivity|].
  destruct (ClassifierFacts.insufficient_data_signal now threeDays "MSFT")
    as (Hbrowser & _ & _).
  destruct (Hbrowser b Hb) as [H50 _].
  vm_compute in Hb. injection Hb as <-. apply H50. reflexivity.
Defined.



(** A [null] record makes both analyses throw a [TypeError]; the digest
    stores it as the error of the ticker. *)
Example null_record_throws :
  Monitor.processStockData now nullDay "MSFT" = inl nullRecord
  /\ Browser.processStockData now nullDay "MSFT" = inl nullRecord
  /\ map Monitor.error
       (fst (MonitorRun.run
               (mkEnv (fun _ _ => Json nullDay) (fun _ _ => 300%nat)
                  (fun _ => 2%nat) (fun _ _ => false))
               ["MSFT"] (MonitorRun.mkState now [])))
     = [Some "Cannot read properties of null (reading '4. close')"].
Proof. repeat split. Qed.

(** C7 fails: a zero denominator is divided by and the result, an infinity
    or [NaN], is kept as the value. *)
Lemma zero_denominator_gives_value :
  Engine.week (Engine.calculateMomentum zeroWeekAgo)
  = Some PrimFloat.infinity
  /\ Engine.bandwidth <$> Engine.calculateBollingerBands (flat 0%float) 20
     = Some PrimFloat.nan
  /\ Monitor.smaSignal "50" 1%float (Some 0%float)
     = [mkSignal [AbsFixed PrimFloat.infinity 2;
                  Lit "% above 50-day SMA ($"; Fixed 0%float 2;
                  Lit (") " +:+ emDash +:+ " Bullish")] bullish]
  /\ Monitor.bollingerSignal 5%float
       (Engine.calculateBollingerBands (flat 5%float) 20)
     = [mkSignal [Lit "Price at "; Fixed PrimFloat.nan 0;
                  Lit "% within Bollinger Bands ($"; Fixed 5%float 2;
                  Lit (" " +:+ enDash +:+ " $"); Fixed 5%float 2; Lit ")"]
          warning].
Proof. repeat split. Qed.

Lemma percentages_not_guarded_witness :
  Engine.week (Engine.calculateMomentum zeroWeekAgo)
  = Some ((Engine.at_ zeroWeekAgo 0 - Engine.at_ zeroWeekAgo 5)
            / Engine.at_ zeroWeekAgo 5 * ofNat 100)%js.
Proof.
  apply (proj1 (ClassifierFacts.percentages_not_guarded zeroWeekAgo 1%float)).
  simpl. lia.
Defined.

Lemma macd_null_iff_short_witness :
  10 <= length (Engine.macdValuesOf (reverse thirtyFive))
  /\ is_Some (Engine.calculateMACD thirtyFive).
Proof.
  destruct (EngineFacts.macd_null_iff_short thirtyFive) as [Hline Hnull].
  split; [apply Hline; vm_compute; lia|].
  destruct (Engine.calculateMACD thirtyFive) as [m|] eqn:Hm; [eauto|].
  exfalso. destruct Hnull as [Hshort _]. specialize (Hshort eq_refl).
  vm_compute in Hshort. lia.
Defined.

(** The run of the digest over AAA (no data) and BBB: two results in that
    order, the first with the error, the second without. *)
Example run_two_tickers :
  map (fun r => (Monitor.ticker r, Monitor.error r))
    (fst (MonitorRun.run provider ["AAA"; "BBB"]
            (MonitorRun.mkState now [])))
  = [("AAA", Some "NO_DATA: AAA"); ("BBB", None)].
Proof. reflexivity. Qed.

(** A session of the browser application: MSFT is fetched, asked again one
    second later and served from the cache, then GOOG is asked another
    second later and its call waits until 12 s after the call for MSFT
    (plus the 2 ms by which the timer is late). *)
Example session_calls :
  Browser.calls
    (Browser.session provider
       [(0, "MSFT"); (1000, "MSFT"); (1000, "GOOG")]
       (Browser.initial ∅ now))
  = [((now + 12002)%Z, "GOOG"); (now, "MSFT")].
Proof. reflexivity. Qed.



End AtSamples.

(** * Further properties *)

(** ** Strings: trimming, splitting, joining *)

Module TextFacts.
Import Builtins Text.

Lemma upperChar_whitespace (c : ascii) :
  isWhiteSpace (upperChar c) = isWhiteSpace c.
Proof. destruct c as [[] [] [] [] [] [] [] []]; reflexivity. Qed.

Lemma upperChar_idempotent (c : ascii) : upperChar (upperChar c) = upperChar c.
Proof. destruct c as [[] [] [] [] [] [] [] []]; reflexivity. Qed.

Lemma upperChar_letter (c : ascii) :
  isLetter c = true -> isUpperLetter (upperChar c) = true.
Proof.
  destruct c as [[] [] [] [] [] [] [] []]; vm_compute; congruence.
Qed.

Lemma toUpperCase_idempotent (s : string) :
  toUpperCase (toUpperCase s) = toUpperCase s.
Proof.
  induction s as [|c s IH]; simpl; [reflexivity|].
  rewrite upperChar_idempotent, IH. reflexivity.
Qed.

Lemma toUpperCase_empty (s : string) :
  String.eqb (toUpperCase s) "" = String.eqb s "".
Proof. destruct s; reflexivity. Qed.

Lemma toUpperCase_trimStart (s : string) :
  toUpperCase (trimStart s) = trimStart (toUpperCase s).
Proof.
  induction s as [|c s IH]; simpl; [reflexivity|].
  rewrite upperChar_whitespace. destruct (isWhiteSpace c); [exact IH|].
  reflexivity.
Qed.

Lemma toUpperCase_trimEnd (s : string) :
  toUpperCase (trimEnd s) = trimEnd (toUpperCase s).
Proof.
  induction s as [|c s IH]; simpl; [reflexivity|].
  rewrite upperChar_whitespace, <- IH, toUpperCase_empty.
  destruct (isWhiteSpace c && String.eqb (trimEnd s) ""); reflexivity.
Qed.

Lemma toUpperCase_trim (s : string) :
  toUpperCase (trim s) = trim (toUpperCase s).
Proof.
  unfold trim. rewrite toUpperCase_trimEnd, toUpperCase_trimStart.
  reflexivity.
Qed.

Lemma trimEnd_idempotent (s : string) : trimEnd (trimEnd s) = trimEnd s.
Proof.
  induction s as [|c s IH]; simpl; [reflexivity|].
  destruct (isWhiteSpace c && String.eqb (trimEnd s) "") eqn:Hc;
    [reflexivity|].
  simpl. rewrite IH, Hc. reflexivity.
Qed.

Lemma trimStart_head (s : string) (c : ascii) (t : string) :
  trimStart s = String c t -> isWhiteSpace c = false.
Proof.
  induction s as [|d s IH]; simpl; [discriminate|].
  destruct (isWhiteSpace d) eqn:Hd; [exact IH|].
  intros [= <- <-]. exact Hd.
Qed.

Lemma trim_idempotent (s : string) : trim (trim s) = trim s.
Proof.
  unfold trim. destruct (trimStart s) as [|c t] eqn:Hs; [reflexivity|].
  pose proof (trimStart_head _ _ _ Hs) as Hc.
  cbn [trimEnd]. rewrite Hc. cbn [andb trimStart]. rewrite Hc.
  change (String c (trimEnd t)) with (String c (trimEnd t)).
  cbn [trimEnd]. rewrite Hc, trimEnd_idempotent. reflexivity.
Qed.




Lemma trimStart_blank (s : string) :
  allChars isWhiteSpace s = true -> trimStart s = "".
Proof.
  induction s as [|c s IH]; simpl; [reflexivity|].
  intros H. apply andb_prop in H as [Hc Hs]. rewrite Hc. apply IH, Hs.
Qed.

Lemma trim_blank (s : string) : allChars isWhiteSpace s = true -> trim s = "".
Proof. intros H. unfold trim. rewrite (trimStart_blank s H). reflexivity. Qed.

Lemma trim_letters (s : string) : allChars isLetter s = true -> trim s = s.
Proof.
  assert (Hend : forall t, allChars isLetter t = true -> trimEnd t = t).
  { induction t as [|c t IH]; simpl; [reflexivity|].
    intros H. apply andb_prop in H as [Hc Ht]. rewrite (IH Ht).
    replace (isWhiteSpace c) with false; [reflexivity|].
    destruct c as [[] [] [] [] [] [] [] []]; try reflexivity; discriminate. }
  intros H. unfold trim.
  replace (trimStart s) with s; [apply Hend, H|].
  destruct s as [|c s]; [reflexivity|]. simpl in *.
  apply andb_prop in H as [Hc _].
  replace (isWhiteSpace c) with false; [reflexivity|].
  destruct c as [[] [] [] [] [] [] [] []]; try reflexivity; discriminate.
Qed.

(** The pieces of a split hold no separator, and joining them with the
    separator gives the string back. *)
Lemma split_pieces (sep : ascii) (s : string) :
  Forall (fun piece => allChars (fun c => negb (Ascii.eqb c sep)) piece = true)
    (split sep s).
Proof.
  unfold split. induction s as [|c s IH]; simpl; [repeat constructor|].
  destruct (splitOn sep s) as [piece rest].
  destruct (Ascii.eqb c sep) eqn:Hc.
  - constructor; [reflexivity|exact IH].
  - inversion IH as [|? ? Hp Hr]; subst. constructor; [|exact Hr].
    simpl. rewrite Hc, Hp. reflexivity.
Qed.

Lemma split_all (p : ascii -> bool) (sep : ascii) (s : string) :
  allChars p s = true ->
  Forall (fun piece => allChars p piece = true) (split sep s).
Proof.
  unfold split. induction s as [|c s IH]; simpl; [repeat constructor|].
  intros H. apply andb_prop in H as [Hc Hs]. specialize (IH Hs).
  destruct (splitOn sep s) as [piece rest].
  inversion IH as [|? ? Hp Hr]; subst.
  destruct (Ascii.eqb c sep).
  - constructor; [reflexivity|]. constructor; assumption.
  - constructor; [|exact Hr]. simpl. rewrite Hc, Hp. reflexivity.
Qed.





End TextFacts.

(** ** The settings of the digest *)

Module ConfigFacts.
Import Builtins Text MonitorConfig MoreNotions.

Lemma blank_pieces (v : string) :
  separatorsOnly v ->
  Forall (fun piece => trim piece = "") (split "," v).
Proof.
  intros Hv.
  pose proof (TextFacts.split_all _ "," v Hv) as Hall.
  pose proof (TextFacts.split_pieces "," v) as Hsep.
  rewrite Forall_forall in *. intros piece Hin.
  specialize (Hall piece Hin). specialize (Hsep piece Hin). cbn beta in *.
  apply TextFacts.trim_blank.
  clear Hin. induction piece as [|c piece IH]; simpl in *; [reflexivity|].
  apply andb_prop in Hall as [Hc Hall]. apply andb_prop in Hsep as [Hn Hsep].
  rewrite (IH Hall Hsep), andb_true_r.
  destruct (Ascii.eqb c ","); [discriminate|exact Hc].
Qed.

Lemma filter_blank (f : string -> string) (l : list string) :
  Forall (fun x => f x = "") l ->
  filter (fun e => nonEmpty e = true) (map f l) = [].
Proof.
  induction 1 as [|x l Hx _ IH]; [reflexivity|].
  cbn [map]. rewrite filter_cons, Hx.
  destruct (decide (nonEmpty "" = true)) as [H|_]; [discriminate|exact IH].
Qed.

(** Every ticker of the list [TICKERS] is non-empty, has no white space
    around it and is in upper case, whatever the variable holds. *)
Theorem tickers_are_normalised (var : option string) :
  Forall (fun t => t <> "" /\ trim t = t /\ toUpperCase t = t)
    (parseTickers var).
Proof.
  assert (Hdefault : Forall (fun t => t <> "" /\ trim t = t
                                      /\ toUpperCase t = t) DEFAULT_TICKERS).
  { repeat constructor; discriminate. }
  unfold parseTickers. destruct var as [v|]; [|exact Hdefault].
  destruct (nonEmpty v); [|exact Hdefault].
  apply Forall_forall. intros t Ht.
  apply list_elem_of_filter in Ht as [Hne Hin].
  apply list_elem_of_fmap in Hin as (x & -> & _).
  split; [|split].
  - intros Heq. rewrite Heq in Hne. discriminate.
  - rewrite <- TextFacts.toUpperCase_trim, TextFacts.trim_idempotent.
    reflexivity.
  - apply TextFacts.toUpperCase_idempotent.
Qed.

(** A variable [TICKERS] that is set but holds only commas and white space
    gives the empty list, not the default tickers: the run then fetches
    nothing and has no results. *)
Theorem blank_tickers_give_empty_run (v : string) (env : Env)
    (st : MonitorRun.State) :
  v <> "" -> separatorsOnly v ->
  parseTickers (Some v) = []
  /\ MonitorRun.run env (parseTickers (Some v)) st = ([], st).
Proof.
  intros Hne Hv.
  assert (Hparse : parseTickers (Some v) = []).
  { unfold parseTickers.
    destruct v as [|c v']; [congruence|]. cbn [nonEmpty String.eqb negb].
    apply (filter_blank (fun t => toUpperCase (trim t))).
    eapply Forall_impl; [apply blank_pieces, Hv|].
    intros piece Hp. cbn beta in *. rewrite Hp. reflexivity. }
  split; [exact Hparse|]. rewrite Hparse. reflexivity.
Qed.




(** [main] leaves with exit code 1, before any call, when the key, the
    user or the password is missing or empty, or when [EMAIL_TO] names no
    recipient (is unset, or holds only commas and white space). *)
Theorem main_needs_settings (settings : Settings) (env : Env)
    (st : MonitorRun.State) :
  truthy (ALPHA_VANTAGE_API_KEY settings) = false
  \/ truthy (EMAIL_USER settings) = false
  \/ truthy (EMAIL_PASS settings) = false
  \/ EMAIL_TO_var settings = None
  \/ (exists v, EMAIL_TO_var settings = Some v /\ separatorsOnly v) ->
  mainResults settings env st = None.
Proof.
  intros Hmissing. unfold mainResults.
  replace (missingSettings settings) with true; [reflexivity|].
  symmetry. unfold missingSettings.
  assert (Hto : EMAIL_TO_var settings = None
                \/ (exists v, EMAIL_TO_var settings = Some v
                               /\ separatorsOnly v) ->
                nonEmpty (parseRecipients (EMAIL_TO_var settings)) = false).
  { intros [H|(v & H & Hv)]; rewrite H; [reflexivity|].
    unfold parseRecipients. change (default EmptyString (Some v)) with v.
    rewrite (filter_blank trim (split "," v) (blank_pieces v Hv)).
    reflexivity. }
  destruct Hmissing as [H|[H|[H|H]]];
    [rewrite H|rewrite H|rewrite H|rewrite (Hto H)];
    repeat match goal with
           | |- context [truthy ?x] => destruct (truthy x)
           end;
    try destruct (nonEmpty _); reflexivity.
Qed.

End ConfigFacts.

(** ** The form of the browser application *)

Module FormFacts.
Import Builtins Text BrowserForm MoreNotions.

Lemma length_zero (s : string) : (String.length s =? 0)%nat = String.eqb s "".
Proof. destruct s; reflexivity. Qed.

Lemma ticker_accepted (input : string) :
  valid (validateTicker input) = alphabetOnly (trim input)
  /\ (valid (validateTicker input) = true ->
      message (validateTicker input) = "Valid ticker entered"
      /\ allChars isUpperLetter (toUpperCase (trim input)) = true)
  /\ message (validateTicker input)
     <> "Ticker must be at least 1 character long".
Proof.
  unfold validateTicker. rewrite length_zero. unfold alphabetOnly, nonEmpty.
  destruct (String.eqb (trim input) "") eqn:He; cbn [negb andb].
  - split; [reflexivity|]. split; [discriminate|discriminate].
  - destruct (allChars isLetter (trim input)) eqn:Hl; cbn [negb].
    + assert (Hlen : (String.length (trim input) <? 1)%nat = false).
      { destruct (trim input); [discriminate|reflexivity]. }
      rewrite Hlen.
      assert (Hup : allChars isUpperLetter (toUpperCase (trim input)) = true).
      { clear He Hlen. induction (trim input) as [|c t IH]; [reflexivity|].
        simpl in *. apply andb_prop in Hl as [Hc Ht].
        rewrite (TextFacts.upperChar_letter c Hc), (IH Ht). reflexivity. }
      destruct (5 <? String.length (trim input))%nat; cbn [valid message];
        (split; [reflexivity|split; [auto|discriminate]]).
    + split; [reflexivity|]. split; [discriminate|discriminate].
Qed.

(** An ASCII input is accepted as a ticker exactly when, trimmed, it is a
    non-empty word of letters; its length is never a reason to refuse it.
    In upper case an accepted ticker has the letters A to Z only. *)
Theorem validateTicker_accepts (input : string) :
  isAscii input ->
  valid (validateTicker input) = alphabetOnly (trim input)
  /\ (valid (validateTicker input) = true ->
      message (validateTicker input) = "Valid ticker entered"
      /\ allChars isUpperLetter (toUpperCase (trim input)) = true)
  /\ message (validateTicker input)
     <> "Ticker must be at least 1 character long".
Proof. intros _. exact (ticker_accepted input). Qed.

(** A click with an ASCII input that is not accepted shows the validation
    message and changes nothing: no fetch, no call, no use of the cache. *)
Theorem invalid_input_is_not_fetched (env : Env) (value : string)
    (st : Browser.State) :
  isAscii value ->
  alphabetOnly (trim value) = false ->
  exists v,
    onClick env value st = (ValidationMessage v, st) /\ valid v = false.
Proof.
  intros _ Hinvalid. unfold onClick.
  destruct (String.length (trim value) =? 0)%nat; [eauto|].
  destruct (ticker_accepted (trim value)) as [Hv _].
  rewrite TextFacts.trim_idempotent, Hinvalid in Hv. rewrite Hv. eauto.
Qed.

End FormFacts.

(** ** Which indicators and signals an analysis has *)

Module AnalysisFacts.
Import Builtins Extraction Notions MoreNotions.

Section WithNumber.
Context {num : Type} `{Number num}.
Import Engine.

Lemma calculateSMA_null (prices : list num) (period : nat) :
  calculateSMA prices period = None <-> length prices < period.
Proof.
  unfold calculateSMA.
  destruct (Nat.ltb_spec (length prices) period); split; intros; try lia;
    try reflexivity; discriminate.
Qed.

Lemma calculateRSI_null (prices : list num) :
  calculateRSI prices 14 = None <-> length prices < 15.
Proof.
  unfold calculateRSI.
  destruct (Nat.ltb_spec (length prices) (14 + 1)) as [Hlt|Hge].
  - split; intros; [lia|reflexivity].
  - destruct (rsiAverages _ 14) as [g l]. destruct (l === ofNat 0)%js;
      split; intros; try lia; discriminate.
Qed.

Lemma calculateMACD_null (prices : list num) :
  calculateMACD prices = None <-> length prices < 35.
Proof.
  split.
  - intros Hnone. destruct (Nat.lt_ge_cases (length prices) 35) as [|Hge];
      [assumption|].
    destruct (EngineFacts.calculateMACD_enough prices Hge) as [m Hm].
    congruence.
  - intros Hlt. unfold calculateMACD.
    destruct (Nat.ltb_spec (length prices) 35); [reflexivity|lia].
Qed.

Lemma calculateBollingerBands_null (prices : list num) (period : nat) :
  calculateBollingerBands prices period = None <-> length prices < period.
Proof.
  unfold calculateBollingerBands.
  destruct (Nat.ltb_spec (length prices) period); split; intros; try lia;
    try reflexivity; discriminate.
Qed.

Lemma calculateMomentum_null (prices : list num) :
  (week (calculateMomentum prices) = None <-> length prices < 6)
  /\ (month (calculateMomentum prices) = None <-> length prices < 22).
Proof.
  unfold calculateMomentum. cbn [week month].
  destruct (Nat.leb_spec 6 (length prices)),
    (Nat.leb_spec 22 (length prices));
    repeat split; intros; try lia; try reflexivity; discriminate.
Qed.

End WithNumber.

(** The indicators of an analysis of the digest depend on the number of
    data points alone for being null or not: an indicator is null exactly
    below the number of points it needs (50 and 100 for the SMAs, 15 for
    RSI, 35 for MACD, 20 for the Bollinger bands, 6 and 22 for the
    momentum), and there is at least one point. *)
Theorem indicators_by_data_points (now : Z) (data : Payload)
    (ticker : string) (r : Monitor.AnalysisResult) (a : Monitor.Analysis) :
  Monitor.processStockData now data ticker = inr r ->
  Monitor.analysis r = Some a ->
  let n := Monitor.dataPoints a in
  1 <= n
  /\ (Monitor.sma50 a = None <-> n < 50)
  /\ (Monitor.sma100 a = None <-> n < 100)
  /\ (Monitor.rsi a = None <-> n < 15)
  /\ (Monitor.macd a = None <-> n < 35)
  /\ (Monitor.bb a = None <-> n < 20)
  /\ (Engine.week (Monitor.mom a) = None <-> n < 6)
  /\ (Engine.month (Monitor.mom a) = None <-> n < 22).
Proof.
  intros Hr Ha.
  destruct (ClassifierFacts.monitor_process_inv _ _ _ _ Hr)
    as (ts & latest & rest & price & prices & _ & _ & _ & Hprices & ->).
  unfold Monitor.analyse in Ha.
  cbn [Monitor.analysis] in Ha. injection Ha as <-.
  cbn [Monitor.dataPoints Monitor.sma50 Monitor.sma100 Monitor.rsi
       Monitor.macd Monitor.bb Monitor.mom].
  cbv zeta.
  split; [apply length_mapM in Hprices; cbn [length] in Hprices; lia|].
  split; [apply calculateSMA_null|].
  split; [apply calculateSMA_null|].
  split; [apply calculateRSI_null|].
  split; [apply calculateMACD_null|].
  split; [apply calculateBollingerBands_null|].
  apply calculateMomentum_null.
Qed.

Local Open Scope Z_scope.

Lemma more_than_three_days (now t : Z) :
  (3 <? (now - t) / msPerDay) = (t + 4 * msPerDay <=? now).
Proof.
  unfold msPerDay.
  destruct (Z.ltb_spec 3 ((now - t) / (1000 * 60 * 60 * 24)))
    as [Hlt|Hge], (Z.leb_spec (t + 4 * (1000 * 60 * 60 * 24)) now)
    as [Hle|Hgt]; try reflexivity; exfalso.
  - assert ((now - t) / (1000 * 60 * 60 * 24) < 4); [|lia].
    apply Z.div_lt_upper_bound; lia.
  - assert (4 <= (now - t) / (1000 * 60 * 60 * 24)); [|lia].
    apply Z.div_le_lower_bound; lia.
Qed.

Lemma monitor_freshness_count (now : Z) (latest : string) :
  length (Monitor.freshnessSignal (daysDiffOf now latest))
  = if staleAt now latest then 1%nat else 0%nat.
Proof.
  unfold Monitor.freshnessSignal, daysDiffOf, staleAt.
  destruct (Date_parse latest) as [t|]; [|reflexivity].
  rewrite more_than_three_days. destruct (_ <=? _); reflexivity.
Qed.

Lemma browser_freshness_count (now : Z) (latest : string) :
  length (Browser.freshnessSignal (daysDiffOf now latest))
  = if staleAt now latest then 1%nat else 0%nat.
Proof.
  unfold Browser.freshnessSignal, daysDiffOf, staleAt.
  destruct (Date_parse latest) as [t|]; [|reflexivity].
  rewrite more_than_three_days. destruct (_ <=? _); reflexivity.
Qed.

(** The number of signals of the digest for a ticker is the number of its
    indicators that are not null, counting the cross when both SMAs are
    there, plus one when the data is stale: between 0 and 7.  (For a time
    series whose keys are dates.) *)
Theorem monitor_signal_count (now : Z) (data : Payload) (ticker : string)
    (ts : Series) (r : Monitor.AnalysisResult) (a : Monitor.Analysis) :
  timeSeries data = Some ts ->
  Forall isDate (keys ts) ->
  Monitor.processStockData now data ticker = inr r ->
  Monitor.analysis r = Some a ->
  length (Monitor.signals r)
  = ((if staleAt now (Monitor.latestDate a) then 1 else 0)
     + one (Monitor.sma50 a) + one (Monitor.sma100 a)
     + one (Monitor.sma100 a)
     + one (Monitor.rsi a) + one (Monitor.macd a) + one (Monitor.bb a))%nat.
Proof.
  intros _ _ Hr Ha.
  destruct (ClassifierFacts.monitor_process_inv _ _ _ _ Hr)
    as (ts' & latest & rest & close & prices & _ & _ & _ & _ & ->).
  unfold Monitor.analyse in *.
  cbn [Monitor.analysis] in Ha. injection Ha as <-.
  cbn [Monitor.signals Monitor.latestDate Monitor.sma50 Monitor.sma100
       Monitor.rsi Monitor.macd Monitor.bb].
  rewrite !length_app, monitor_freshness_count.
  assert (Hcross : length (Monitor.crossSignal
                             (Engine.calculateSMA prices 50)
                             (Engine.calculateSMA prices 100))
                   = one (Engine.calculateSMA prices 100)).
  { unfold Monitor.crossSignal.
    destruct (Engine.calculateSMA prices 100) as [s100|] eqn:H100.
    - destruct (Engine.calculateSMA prices 50) as [s50|] eqn:H50.
      + destruct (s50 >? s100)%js; reflexivity.
      + exfalso. apply calculateSMA_null in H50.
        assert (H100' : Engine.calculateSMA prices 100 <> None)
          by congruence.
        apply H100'. apply calculateSMA_null. lia.
    - destruct (Engine.calculateSMA prices 50); reflexivity. }
  rewrite Hcross.
  assert (Hsma : forall label price sma,
             length (Monitor.smaSignal label price sma) = one sma).
  { intros label price [s|]; [|reflexivity]. unfold Monitor.smaSignal.
    destruct (price >? s)%js; reflexivity. }
  rewrite !Hsma.
  assert (Hrsi : forall x, length (Monitor.rsiSignal x) = one x).
  { intros [x|]; [|reflexivity]. unfold Monitor.rsiSignal.
    destruct (x >? _)%js; [|destruct (x <? _)%js]; reflexivity. }
  assert (Hmacd : forall m, length (Monitor.macdSignal m) = one m).
  { intros [m|]; [|reflexivity]. unfold Monitor.macdSignal.
    destruct (_ >? _)%js; reflexivity. }
  assert (Hbb : forall price b,
             length (Monitor.bollingerSignal price b) = one b).
  { intros price [b|]; [|reflexivity]. unfold Monitor.bollingerSignal.
    destruct (_ >? _)%js; [|destruct (_ <? _)%js]; reflexivity. }
  rewrite Hrsi, Hmacd, Hbb. lia.
Qed.

(** The browser application always shows one signal for each of its two
    SMAs (a comparison or the "Insufficient data" notice), the cross
    exactly when there are 200 data points, and the staleness warning
    exactly when the data is stale: 2, 3 or 4 signals.  (For a time series
    whose keys are dates.) *)
Theorem browser_signal_count (now : Z) (data : Payload) (ticker : string)
    (ts : Series) (b : Browser.Analysis) :
  timeSeries data = Some ts ->
  Forall isDate (keys ts) ->
  Browser.processStockData now data ticker = inr b ->
  length (Browser.signals b)
  = ((if staleAt now (Browser.latestDate b) then 1 else 0) + 2
     + (if (200 <=? Browser.dataPoints b)%nat then 1 else 0))%nat.
Proof.
  intros _ _ Hb.
  destruct (ClassifierFacts.browser_process_inv _ _ _ _ Hb)
    as (ts' & latest & rest & close & prices & _ & _ & _ & _ & ->).
  unfold Browser.analyse.
  cbn [Browser.signals Browser.latestDate Browser.dataPoints].
  rewrite !length_app, browser_freshness_count. cbn [length].
  assert (Hcross : length (Browser.crossSignal
                             (Engine.calculateSMA prices 50)
                             (Engine.calculateSMA prices 200))
                   = if (200 <=? length prices)%nat then 1%nat else 0%nat).
  { unfold Browser.crossSignal, Engine.calculateSMA.
    destruct (Nat.ltb_spec (length prices) 50),
      (Nat.ltb_spec (length prices) 200),
      (Nat.leb_spec 200 (length prices)); try lia; try reflexivity.
    destruct (_ >? _)%js; reflexivity. }
  rewrite Hcross. lia.
Qed.

End AnalysisFacts.

(** ** Sorting the dates of a payload *)

Module SortFacts.
Import Builtins Extraction Notions MoreNotions.

Section Sorting.
Context {A : Type} (before : A -> A -> bool) (P : A -> Prop).
Hypothesis total :
  forall x y, P x -> P y -> before x y = false -> before y x = true.
Hypothesis trans :
  forall x y z, P x -> P y -> P z ->
    before x y = true -> before y z = true -> before x z = true.

Lemma insertSorted_sorted (x : A) (l : list A) :
  P x -> Forall P l ->
  StronglySorted (fun a b => before a b = true) l ->
  StronglySorted (fun a b => before a b = true) (insertSorted before x l).
Proof using total trans.
  intros Hx Hall Hsorted. induction Hsorted as [|y l Hl IH Hy]; simpl.
  - repeat constructor.
  - inversion Hall as [|? ? HPy HPl]; subst.
    destruct (before x y) eqn:Hxy.
    + constructor; [constructor; assumption|].
      constructor; [exact Hxy|].
      rewrite Forall_forall in *. intros z Hz.
      apply (trans x y z); auto.
    + constructor; [apply IH, HPl|].
      rewrite (ClassifierFacts.insertSorted_permutation before x l).
      constructor; [apply total; assumption|exact Hy].
Qed.

Lemma sortBy_sorted (l : list A) :
  Forall P l ->
  StronglySorted (fun a b => before a b = true) (sortBy before l).
Proof using total trans.
  unfold sortBy. induction 1 as [|x l Hx Hl IH]; simpl; [constructor|].
  apply insertSorted_sorted; [exact Hx| |exact IH].
  fold (sortBy before l). rewrite ClassifierFacts.sortBy_permutation. exact Hl.
Qed.

End Sorting.

Lemma newerFirst_dates (a b : string) :
  isDate a -> isDate b ->
  exists ta tb,
    Date_parse a = Some ta /\ Date_parse b = Some tb
    /\ newerFirst a b = (tb <=? ta)%Z.
Proof.
  intros [ta Ha] [tb Hb]. exists ta, tb. unfold newerFirst.
  rewrite Ha, Hb. repeat split.
  destruct (Z.leb_spec (tb - ta) 0), (Z.leb_spec tb ta); try reflexivity; lia.
Qed.

Lemma newerFirst_total (a b : string) :
  isDate a -> isDate b -> newerFirst a b = false -> newerFirst b a = true.
Proof.
  intros Ha Hb.
  destruct (newerFirst_dates a b Ha Hb) as (ta & tb & Hta & Htb & ->).
  destruct (newerFirst_dates b a Hb Ha) as (tb' & ta' & Htb' & Hta' & ->).
  rewrite Hta in Hta'. rewrite Htb in Htb'.
  injection Hta' as <-. injection Htb' as <-. lia.
Qed.

Lemma newerFirst_trans (a b c : string) :
  isDate a -> isDate b -> isDate c ->
  newerFirst a b = true -> newerFirst b c = true -> newerFirst a c = true.
Proof.
  intros Ha Hb Hc.
  destruct (newerFirst_dates a b Ha Hb) as (ta & tb & Hta & Htb & ->).
  destruct (newerFirst_dates b c Hb Hc) as (tb' & tc & Htb' & Htc & ->).
  destruct (newerFirst_dates a c Ha Hc) as (ta' & tc' & Hta' & Htc' & ->).
  rewrite Hta in Hta'. rewrite Htb in Htb'. rewrite Htc in Htc'.
  injection Hta' as <-. injection Htb' as <-. injection Htc' as <-. lia.
Qed.

Lemma sortedDates_ordered (ts : Series) :
  Forall isDate (keys ts) ->
  sortedDates ts ≡ₚ keys ts
  /\ StronglySorted
       (fun a b =>
          exists ta tb,
            Date_parse a = Some ta /\ Date_parse b = Some tb /\ (tb <= ta)%Z)
       (sortedDates ts).
Proof.
  intros Hdates. unfold sortedDates. split; [apply ClassifierFacts.sortBy_permutation|].
  pose proof (sortBy_sorted newerFirst isDate newerFirst_total
                newerFirst_trans (keys ts) Hdates) as Hsorted.
  assert (Hall : Forall isDate (sortBy newerFirst (keys ts))).
  { rewrite ClassifierFacts.sortBy_permutation. exact Hdates. }
  induction Hsorted as [|d l Hl IH Hd]; [constructor|].
  inversion Hall as [|? ? Hdd Hdl]; subst.
  constructor; [apply IH, Hdl|].
  rewrite Forall_forall in *. intros e He.
  destruct (newerFirst_dates d e Hdd (Hdl e He))
    as (ta & tb & Hta & Htb & Heq).
  exists ta, tb. repeat split; try assumption.
  specialize (Hd e He). rewrite Heq in Hd. lia.
Qed.

(** The dates of a payload are sorted newest first, whatever their order in
    the payload: the sorted list has the same dates, and no date in it is
    older than a date after it.  (All keys being dates.) *)
Theorem sortedDates_newest_first (ts : Series) :
  Forall isDate (keys ts) ->
  sortedDates ts ≡ₚ keys ts
  /\ StronglySorted
       (fun a b =>
          exists ta tb,
            Date_parse a = Some ta /\ Date_parse b = Some tb /\ (tb <= ta)%Z)
       (sortedDates ts).
Proof. exact (sortedDates_ordered ts). Qed.

Lemma fmap_injective_on {B : Type} (f : string -> B) (l : list string)
    (x y : string) :
  NoDup (f <$> l) -> x ∈ l -> y ∈ l -> f x = f y -> x = y.
Proof.
  induction l as [|z l IH]; intros Hnd Hx Hy Hf; [inversion Hx|].
  cbn [fmap list_fmap] in Hnd. apply NoDup_cons in Hnd as [Hz Hnd].
  apply elem_of_cons in Hx as [->|Hx]; apply elem_of_cons in Hy as [->|Hy];
    auto.
  - exfalso. apply Hz. rewrite Hf. apply list_elem_of_fmap. eauto.
  - exfalso. apply Hz. rewrite <- Hf. apply list_elem_of_fmap. eauto.
Qed.

Lemma getProp_elem {V : Type} (o : JsObject V) (key : string) (v : V) :
  NoDup (keys o) -> (key, v) ∈ o -> getProp o key = Some v.
Proof.
  unfold keys. induction o as [|[k w] o IH]; intros Hnd Hin; [inversion Hin|].
  cbn [map fst] in Hnd. apply NoDup_cons in Hnd as [Hk Hnd].
  cbn [getProp]. apply elem_of_cons in Hin as [Heq|Hin].
  - injection Heq as <- <-. rewrite String.eqb_refl. reflexivity.
  - destruct (String.eqb_spec k key) as [->|_]; [|apply IH; assumption].
    exfalso. apply Hk. apply list_elem_of_fmap. exists (key, v). auto.
Qed.

Lemma getProp_permutation {V : Type} (o1 o2 : JsObject V) (key : string) :
  o1 ≡ₚ o2 -> NoDup (keys o1) -> key ∈ keys o1 ->
  getProp o1 key = getProp o2 key.
Proof.
  intros Hperm Hnd Hkey.
  apply list_elem_of_fmap in Hkey as ([k v] & -> & Hin). cbn [fst].
  rewrite (getProp_elem o1 k v Hnd Hin).
  symmetry. apply getProp_elem.
  - unfold keys in *. rewrite <- Hperm. exact Hnd.
  - rewrite <- Hperm. exact Hin.
Qed.

Lemma sortedDates_permutation (ts1 ts2 : Series) :
  ts1 ≡ₚ ts2 ->
  Forall isDate (keys ts1) ->
  NoDup (Date_parse <$> keys ts1) ->
  sortedDates ts1 = sortedDates ts2.
Proof.
  intros Hperm Hdates Hnd.
  assert (Hkeys : keys ts1 ≡ₚ keys ts2).
  { unfold keys. rewrite Hperm. reflexivity. }
  assert (Hdates2 : Forall isDate (keys ts2)) by (rewrite <- Hkeys; auto).
  unfold sortedDates.
  apply (StronglySorted_unique_strong (fun a b => newerFirst a b = true)).
  - intros x1 x2 Hx1 Hx2 H12 H21.
    rewrite ClassifierFacts.sortBy_permutation in Hx1, Hx2. rewrite <- Hkeys in Hx2.
    rewrite Forall_forall in Hdates.
    destruct (newerFirst_dates x1 x2 (Hdates _ Hx1) (Hdates _ Hx2))
      as (t1 & t2 & Ht1 & Ht2 & Heq).
    destruct (newerFirst_dates x2 x1 (Hdates _ Hx2) (Hdates _ Hx1))
      as (t2' & t1' & Ht2' & Ht1' & Heq').
    rewrite Ht1 in Ht1'. rewrite Ht2 in Ht2'.
    injection Ht1' as <-. injection Ht2' as <-.
    rewrite Heq in H12. rewrite Heq' in H21.
    apply (fmap_injective_on Date_parse (keys ts1)); auto.
    rewrite Ht1, Ht2. f_equal. lia.
  - apply (sortBy_sorted newerFirst isDate newerFirst_total
             newerFirst_trans _ Hdates).
  - apply (sortBy_sorted newerFirst isDate newerFirst_total
             newerFirst_trans _ Hdates2).
  - rewrite !ClassifierFacts.sortBy_permutation. exact Hkeys.
Qed.

(** The analysis does not depend on the order of the records in the
    payload: two payloads with the same records, dated with distinct dates,
    give the same result, in both applications. *)
Theorem analysis_ignores_record_order (now : Z) (data1 data2 : Payload)
    (ticker : string) (ts1 ts2 : Series) :
  timeSeries data1 = Some ts1 -> timeSeries data2 = Some ts2 ->
  ts1 ≡ₚ ts2 ->
  Forall isDate (keys ts1) ->
  NoDup (Date_parse <$> keys ts1) ->
  Monitor.processStockData now data1 ticker
  = Monitor.processStockData now data2 ticker
  /\ Browser.processStockData now data1 ticker
     = Browser.processStockData now data2 ticker.
Proof.
  intros Hts1 Hts2 Hperm Hdates Hnd.
  pose proof (sortedDates_permutation ts1 ts2 Hperm Hdates Hnd) as Hsorted.
  assert (Hkeys : NoDup (keys ts1)).
  { apply (NoDup_fmap_1 Date_parse). exact Hnd. }
  assert (Hclose : forall d, d ∈ sortedDates ts1 ->
                             closeOf ts1 d = closeOf ts2 d).
  { intros d Hd.
    assert (Hget : getProp ts1 d = getProp ts2 d).
    { apply getProp_permutation; [exact Hperm|exact Hkeys|].
      rewrite <- (ClassifierFacts.sortedDates_keys ts1). exact Hd. }
    unfold closeOf. rewrite Hget. reflexivity. }
  assert (Hmap : forall l, l ⊆ sortedDates ts1 ->
                           mapM (closeOf ts1) l = mapM (closeOf ts2) l).
  { intros l Hl. apply Forall_mapM_ext, Forall_forall.
    intros d Hd. apply Hclose, Hl, Hd. }
  unfold Monitor.processStockData, Browser.processStockData.
  rewrite Hts1, Hts2, <- Hsorted.
  destruct (sortedDates ts1) as [|latest rest] eqn:Hd; [split; reflexivity|].
  rewrite <- (Hmap (latest :: rest)) by reflexivity.
  rewrite <- (Hclose latest) by constructor.
  split; reflexivity.
Qed.

(** For a time series whose keys are dates, the latest date of an analysis
    is the newest date of the payload, and the latest price is the close
    recorded for it. *)
Theorem latest_is_newest (now : Z) (data : Payload) (ticker : string)
    (ts : Series) (r : Monitor.AnalysisResult)
    (a : Monitor.Analysis) :
  timeSeries data = Some ts ->
  Forall isDate (keys ts) ->
  Monitor.processStockData now data ticker = inr r ->
  Monitor.analysis r = Some a ->
  Monitor.latestDate a ∈ keys ts
  /\ closeOf ts (Monitor.latestDate a) = Some (Monitor.latestPrice a)
  /\ forall d t,
       d ∈ keys ts -> Date_parse d = Some t ->
       exists tl,
         Date_parse (Monitor.latestDate a) = Some tl /\ (t <= tl)%Z.
Proof.
  intros Hts Hdates Hr Ha.
  destruct (ClassifierFacts.monitor_process_inv _ _ _ _ Hr)
    as (ts' & latest & rest & price & prices & Hts' & Hd & Hprice & _ & ->).
  assert (ts' = ts) as -> by congruence.
  unfold Monitor.analyse in Ha.
  cbn [Monitor.analysis] in Ha. injection Ha as <-.
  cbn [Monitor.latestDate Monitor.latestPrice].
  destruct (sortedDates_ordered ts Hdates) as [Hperm Hsorted].
  rewrite Hd in Hperm, Hsorted.
  split; [rewrite <- Hperm; left|]. split; [exact Hprice|].
  intros d t Hin Ht. rewrite <- Hperm in Hin.
  apply StronglySorted_inv in Hsorted as [_ Hall].
  apply elem_of_cons in Hin as [->|Hin].
  - exists t. split; [exact Ht|lia].
  - rewrite Forall_forall in Hall.
    destruct (Hall d Hin) as (tl & t' & Htl & Ht' & Hle).
    exists tl. split; [exact Htl|]. congruence.
Qed.

End SortFacts.

(** ** More on the run of the digest *)

Module MonitorRunFacts.
Import Builtins Notions MoreNotions.
Local Open Scope Z_scope.

Lemma monitor_classify_clean (ticker : string) (r : Response)
    (data : Payload) :
  MonitorRun.classify ticker r = inr data <->
  r = Json data /\ isClean data = true.
Proof.
  unfold MonitorRun.classify, isClean. destruct r as [m|status|m|d].
  - split; [discriminate|intros [[=] _]].
  - split; [discriminate|intros [[=] _]].
  - split; [discriminate|intros [[=] _]].
  - destruct (truthy (errorMessage d)) eqn:H1;
      [split; [discriminate|intros [[= <-] H]; rewrite H1 in H;
               discriminate]|].
    destruct (truthy (note d)) eqn:H2;
      [split; [discriminate|intros [[= <-] H]; rewrite H1, H2 in H;
               discriminate]|].
    destruct (truthy (information d)) eqn:H3;
      [split; [discriminate|intros [[= <-] H]; rewrite H1, H2, H3 in H;
               discriminate]|].
    destruct (timeSeries d) as [[|rec rest]|] eqn:H4.
    + split; [discriminate|].
      intros [[= <-] H]. rewrite H1, H2, H3, H4 in H. discriminate.
    + split.
      * intros [= <-]. rewrite H1, H2, H3, H4. auto.
      * intros [[= <-] _]. reflexivity.
    + split; [discriminate|].
      intros [[= <-] H]. rewrite H1, H2, H3, H4 in H. discriminate.
Qed.

Lemma clean_series (data : Payload) :
  isClean data = true -> exists ts, timeSeries data = Some ts /\ ts <> [].
Proof.
  unfold isClean. intros H.
  destruct (timeSeries data) as [[|rec rest]|] eqn:Hts;
    try (rewrite andb_false_r in H; discriminate).
  eexists. split; [reflexivity|discriminate].
Qed.

(** What both analyses make of a clean payload. *)
Lemma clean_is_analysed (now : Z) (data : Payload) (ticker : string) :
  isClean data = true ->
  if isAnalysable data
  then (exists r, Monitor.processStockData now data ticker = inr r)
       /\ (exists b, Browser.processStockData now data ticker = inr b)
  else Monitor.processStockData now data ticker = inl Extraction.nullRecord
       /\ Browser.processStockData now data ticker = inl Extraction.nullRecord.
Proof.
  intros Hclean. unfold isAnalysable. rewrite Hclean. cbn [andb].
  destruct (clean_series data Hclean) as (ts & Hts & Hne). rewrite Hts.
  destruct (nullFree ts) eqn:Hfree.
  - split.
    + destruct (ClassifierFacts.monitor_process_defined now data ticker ts
                  Hts Hne Hfree) as (latest & more & _ & Heq); eauto.
    + destruct (ClassifierFacts.browser_process_defined now data ticker ts
                  Hts Hne Hfree) as (latest & more & _ & Heq); eauto.
  - apply (ClassifierFacts.process_null_record now data ticker ts);
      assumption.
Qed.

(** A ticker of the digest gets an analysis exactly when the provider
    answers with a body that has no notice and a time series with a record
    and without a [null] record.  Every other answer becomes an error
    entry; for a body that is clean but for a [null] record the error is
    the [TypeError] of the analysis. *)
Theorem analysed_iff_sound_answer (env : Env) (ticker : string)
    (st : MonitorRun.State) :
  ((exists a, fst (MonitorRun.attempt env ticker st) = inr a)
   <-> exists data,
         respond env ticker (MonitorRun.clock st) = Json data
         /\ isAnalysable data = true)
  /\ forall data,
       respond env ticker (MonitorRun.clock st) = Json data ->
       isClean data = true -> isAnalysable data = false ->
       fst (MonitorRun.attempt env ticker st) = inl Extraction.nullRecord.
Proof.
  unfold MonitorRun.attempt, MonitorRun.fetchStockData. cbn [fst].
  destruct (MonitorRun.classify ticker
              (respond env ticker (MonitorRun.clock st)))
    as [err|data] eqn:Hc.
  - assert (Hno : forall data,
               respond env ticker (MonitorRun.clock st) = Json data ->
               isClean data = true -> False).
    { intros data Hr Hclean.
      assert (Hok : MonitorRun.classify ticker
                      (respond env ticker (MonitorRun.clock st)) = inr data)
        by (apply monitor_classify_clean; auto).
      congruence. }
    split; [split|].
    + intros [a Ha]. discriminate.
    + intros (data & Hr & Hsound). exfalso. apply (Hno data Hr).
      unfold isAnalysable in Hsound.
      apply andb_true_iff in Hsound as [Hclean _]. exact Hclean.
    + intros data Hr Hclean _. exfalso. apply (Hno data Hr Hclean).
  - apply monitor_classify_clean in Hc as [Hr Hclean].
    cbn [MonitorRun.clock].
    pose proof (clean_is_analysed
                  (MonitorRun.clock st
                   + Z.of_nat (latency env ticker (MonitorRun.clock st)))
                  data ticker Hclean) as Hprocess.
    split; [split|].
    + intros [a Ha]. exists data. split; [exact Hr|].
      destruct (isAnalysable data); [reflexivity|].
      destruct Hprocess as [Hthrown _]. congruence.
    + intros (data' & Hr' & Hsound).
      assert (data' = data) as -> by congruence.
      rewrite Hsound in Hprocess. destruct Hprocess as [[r Hr''] _]. eauto.
    + intros data' Hr' _ Hnull.
      assert (data' = data) as -> by congruence.
      rewrite Hnull in Hprocess. apply Hprocess.
Qed.

Lemma mainLoop_calls (env : Env) (tickers : list string) :
  forall i st acc,
    let st' := snd (MonitorRun.mainLoop env i tickers st acc) in
    map snd (MonitorRun.calls st')
    = reverse tickers ++ map snd (MonitorRun.calls st)
    /\ MonitorRun.clock st
       + API_RATE_LIMIT_DELAY
         * (Z.of_nat (length tickers) - (if (0 <? i)%nat then 0 else 1))
       <= MonitorRun.clock st'
       \/ tickers = [].
Proof.
  induction tickers as [|ticker rest IH]; intros i st acc; [right; auto|].
  left. cbn [MonitorRun.mainLoop].
  set (st1 := if (0 <? i)%nat then _ else st).
  unfold MonitorRun.attempt, MonitorRun.fetchStockData. cbn [fst snd].
  set (st2 := MonitorRun.mkState _ _).
  set (result := match _ with inr a => a | inl err => _ end).
  assert (Hst1 : MonitorRun.calls st1 = MonitorRun.calls st
                 /\ MonitorRun.clock st
                    + (if (0 <? i)%nat then API_RATE_LIMIT_DELAY else 0)
                    <= MonitorRun.clock st1).
  { subst st1. destruct (0 <? i)%nat; cbn; unfold afterTimeout; split;
      try reflexivity; lia. }
  destruct Hst1 as [Hcalls Hclock].
  assert (Hst2 : MonitorRun.calls st2
                 = (MonitorRun.clock st1, ticker) :: MonitorRun.calls st
                 /\ MonitorRun.clock st1 <= MonitorRun.clock st2).
  { subst st2. cbn. rewrite Hcalls. split; [reflexivity|lia]. }
  destruct Hst2 as [Hcalls2 Hclock2].
  destruct (IH (S i) st2 (acc ++ [result])) as [[Hc Ht]| ->].
  - cbn zeta in Hc, Ht |- *. split.
    + rewrite Hc, Hcalls2, reverse_cons, <- app_assoc. reflexivity.
    + cbn [length] in *. change (0 <? S i)%nat with true in Ht.
      unfold API_RATE_LIMIT_DELAY in *.
      destruct (0 <? i)%nat; lia.
  - cbn [MonitorRun.mainLoop snd]. split.
    + rewrite Hcalls2. reflexivity.
    + cbn [length]. unfold API_RATE_LIMIT_DELAY in *.
      destruct (0 <? i)%nat; lia.
Qed.

(** A run calls the provider once for every ticker, in the order of the
    list, whatever the answers are: nothing is retried, skipped or served
    from a cache. *)
Theorem run_calls_each_ticker_once (env : Env) (tickers : list string)
    (now : Z) :
  map snd
    (MonitorRun.calls
       (snd (MonitorRun.run env tickers (MonitorRun.mkState now []))))
  = reverse tickers.
Proof.
  unfold MonitorRun.run.
  destruct (mainLoop_calls env tickers 0%nat (MonitorRun.mkState now []) [])
    as [[Hc _]| ->]; [|reflexivity].
  cbn zeta in Hc. rewrite Hc. cbn. apply app_nil_r.
Qed.

(** A run over [n] tickers lasts at least 12 seconds times [n - 1]. *)
Theorem run_duration (env : Env) (tickers : list string)
    (st : MonitorRun.State) :
  tickers <> [] ->
  MonitorRun.clock st
  + API_RATE_LIMIT_DELAY * (Z.of_nat (length tickers) - 1)
  <= MonitorRun.clock (snd (MonitorRun.run env tickers st)).
Proof.
  intros Hne. unfold MonitorRun.run.
  destruct (mainLoop_calls env tickers 0%nat st []) as [[_ Ht]|?];
    [|congruence].
  exact Ht.
Qed.

End MonitorRunFacts.

(** ** More on the fetch client of the browser application *)

Module BrowserFacts.
Import Builtins Notions MonitorRunFacts MoreNotions.
Local Open Scope Z_scope.

Lemma cacheKeyOf_injective (t1 t2 : string) :
  Browser.cacheKeyOf t1 = Browser.cacheKeyOf t2 -> t1 = t2.
Proof. unfold Browser.cacheKeyOf. cbn. intros [= H]. exact H. Qed.

Lemma browser_classify_clean (r : Response) (data : Payload) :
  Browser.classify r = inr data <-> r = Json data /\ isClean data = true.
Proof.
  unfold Browser.classify, isClean. destruct r as [m|status|m|d].
  - split; [discriminate|intros [[=] _]].
  - split; [discriminate|intros [[=] _]].
  - split; [discriminate|intros [[=] _]].
  - destruct (truthy (errorMessage d)) eqn:H1;
      [split; [discriminate|intros [[= <-] H]; rewrite H1 in H;
               discriminate]|].
    destruct (truthy (note d)) eqn:H2;
      [split; [discriminate|intros [[= <-] H]; rewrite H1, H2 in H;
               discriminate]|].
    destruct (truthy (information d)) eqn:H3;
      [split; [discriminate|intros [[= <-] H]; rewrite H1, H2, H3 in H;
               discriminate]|].
    destruct (timeSeries d) as [[|rec rest]|] eqn:H4.
    + split; [discriminate|].
      intros [[= <-] H]. rewrite H1, H2, H3, H4 in H. discriminate.
    + split.
      * intros [= <-]. rewrite H1, H2, H3, H4. auto.
      * intros [[= <-] _]. reflexivity.
    + split; [discriminate|].
      intros [[= <-] H]. rewrite H1, H2, H3, H4 in H. discriminate.
Qed.

(** A fetch for a ticker leaves the cache entries of all other tickers as
    they are. *)
Theorem fetch_keeps_other_tickers (env : Env) (ticker other : string)
    (st : Browser.State) :
  other <> ticker ->
  Browser.storage (snd (Browser.fetchStockData env ticker st))
    !! Browser.cacheKeyOf other
  = Browser.storage st !! Browser.cacheKeyOf other.
Proof.
  intros Hne.
  assert (Hkey : Browser.cacheKeyOf other <> Browser.cacheKeyOf ticker).
  { intros Heq. apply Hne, cacheKeyOf_injective, Heq. }
  unfold Browser.fetchStockData.
  pose proof (RunFacts.getCachedData_outcome ticker st) as Hget. cbn zeta in Hget.
  destruct (Browser.getCachedData ticker st) as [[data|] st0].
  - destruct Hget as [-> _]. reflexivity.
  - destruct Hget as (_ & Hothers & _).
    destruct (Browser.classify _) as [err|data]; cbn [snd].
    + cbn [Browser.storage]. apply Hothers, Hkey.
    + rewrite RunFacts.setCachedData_other by exact Hkey.
      cbn [Browser.storage]. apply Hothers, Hkey.
Qed.



(** The time of a network call: at once when the delay has passed since
    the last call, otherwise when the rest of the delay has passed, late by
    the lag of the timer at most. *)
Theorem call_waits_for_the_rest (env : Env) (ticker : string)
    (st : Browser.State) :
  fst (Browser.getCachedData ticker st) = None ->
  let now := Browser.clock st in
  let last := Browser.lastAPICallTime st in
  exists t,
    Browser.calls (snd (Browser.fetchStockData env ticker st))
    = (t, ticker) :: Browser.calls st
    /\ (last + API_RATE_LIMIT_DELAY <= now -> t = now)
    /\ (now < last + API_RATE_LIMIT_DELAY ->
        t = last + API_RATE_LIMIT_DELAY + Z.of_nat (timerLag env now)).
Proof.
  intros Hmiss now last. unfold Browser.fetchStockData.
  pose proof (RunFacts.getCachedData_outcome ticker st) as Hget. cbn zeta in Hget.
  destruct (Browser.getCachedData ticker st) as [[data|] st0];
    [discriminate|].
  destruct Hget as (_ & _ & Hcalls & Hlast & Hclock).
  rewrite Hlast, Hclock. fold now last.
  eexists. split.
  - destruct (Browser.classify _) as [err|data]; cbn [snd];
      [|rewrite (proj1 (RunFacts.setCachedData_frame env ticker data _))];
      cbn [Browser.calls]; rewrite Hcalls; reflexivity.
  - unfold afterTimeout.
    destruct (Z.ltb_spec (now - last) API_RATE_LIMIT_DELAY); split; intros;
      lia.
Qed.

Lemma fetch_keeps_store_valid (env : Env) (ticker : string)
    (st : Browser.State) :
  validStore (Browser.storage st) ->
  validStore (Browser.storage (snd (Browser.fetchStockData env ticker st)))
  /\ forall data,
       fst (Browser.fetchStockData env ticker st) = inr data ->
       isClean data = true.
Proof.
  intros Hvalid. unfold Browser.fetchStockData.
  pose proof (RunFacts.getCachedData_outcome ticker st) as Hget. cbn zeta in Hget.
  destruct (Browser.getCachedData ticker st) as [[data|] st0].
  - destruct Hget as (-> & timestamp & Hlook & _). cbn [fst snd].
    split; [exact Hvalid|]. intros d [= <-]. eapply Hvalid, Hlook.
  - destruct Hget as (Habsent & Hothers & _).
    assert (Hvalid0 : validStore (Browser.storage st0)).
    { intros key timestamp d Hlook.
      destruct (decide (key = Browser.cacheKeyOf ticker)) as [->|Hne];
        [congruence|].
      rewrite (Hothers key Hne) in Hlook. eapply Hvalid, Hlook. }
    destruct (Browser.classify _) as [err|data] eqn:Hc; cbn [fst snd].
    + split; [exact Hvalid0|discriminate].
    + apply browser_classify_clean in Hc as [_ Hclean].
      split; [|intros d [= <-]; exact Hclean].
      intros key timestamp d Hlook.
      destruct (decide (key = Browser.cacheKeyOf ticker)) as [->|Hne].
      * match type of Hlook with
        | context [Browser.setCachedData _ _ _ ?called] =>
            pose proof (RunFacts.setCachedData_key env ticker data called)
              as Hkey
        end.
        cbn zeta in Hkey. rewrite Hkey in Hlook.
        destruct (setItemThrows env _ _).
        -- cbn [Browser.storage] in Hlook. congruence.
        -- injection Hlook as <- <-. exact Hclean.
      * rewrite RunFacts.setCachedData_other in Hlook by exact Hne.
        eapply Hvalid0, Hlook.
Qed.

Lemma session_keeps_store_valid (env : Env)
    (requests : list (nat * string)) :
  forall st,
    validStore (Browser.storage st) ->
    validStore (Browser.storage (Browser.session env requests st)).
Proof.
  induction requests as [|[idle ticker] rest IH]; intros st Hvalid;
    [exact Hvalid|].
  cbn [Browser.session]. apply IH.
  apply (fetch_keeps_store_valid env ticker
           (Browser.mkState (Browser.storage st) (Browser.lastAPICallTime st)
              (Browser.clock st + Z.of_nat idle) (Browser.calls st))).
  exact Hvalid.
Qed.

(** Starting from a cache filled by the fetch client alone (or empty),
    every payload that a fetch returns later in the session, from the
    network or from the cache, has no notice and a time series with a
    record.  Its analysis succeeds when no record is [null] and throws a
    [TypeError] otherwise, whenever it is made. *)
Theorem fetched_payload_analysis (env : Env)
    (requests : list (nat * string)) (store : gmap string Browser.Item)
    (start : Z) (ticker : string) (data : Payload) (now : Z) :
  validStore store ->
  fst (Browser.fetchStockData env ticker
         (Browser.session env requests (Browser.initial store start)))
  = inr data ->
  isClean data = true
  /\ if isAnalysable data
     then exists analysis,
            Browser.processStockData now data ticker = inr analysis
     else Browser.processStockData now data ticker
          = inl Extraction.nullRecord.
Proof.
  intros Hvalid Hfetch.
  pose proof (session_keeps_store_valid env requests
                (Browser.initial store start) Hvalid) as Hsession.
  destruct (fetch_keeps_store_valid env ticker _ Hsession) as [_ Hclean].
  specialize (Hclean data Hfetch). split; [exact Hclean|].
  pose proof (clean_is_analysed now data ticker Hclean) as Hprocess.
  destruct (isAnalysable data); apply Hprocess.
Qed.

Lemma fetch_calls_at_most_once (env : Env) (ticker : string)
    (st : Browser.State) :
  (length (Browser.calls (snd (Browser.fetchStockData env ticker st)))
   <= S (length (Browser.calls st)))%nat.
Proof.
  unfold Browser.fetchStockData.
  pose proof (RunFacts.getCachedData_outcome ticker st) as Hget. cbn zeta in Hget.
  destruct (Browser.getCachedData ticker st) as [[data|] st0].
  - destruct Hget as [-> _]. cbn. lia.
  - destruct Hget as (_ & _ & Hcalls & _).
    destruct (Browser.classify _) as [err|data]; cbn [snd];
      [|rewrite (proj1 (RunFacts.setCachedData_frame env ticker data _))];
      cbn [Browser.calls length]; rewrite Hcalls; lia.
Qed.

(** A session never calls the provider more often than it has requests:
    a request leads to one call or, when served from the cache, to none. *)
Theorem session_calls_bounded (env : Env) (requests : list (nat * string))
    (st : Browser.State) :
  (length (Browser.calls (Browser.session env requests st))
   <= length requests + length (Browser.calls st))%nat.
Proof.
  revert st. induction requests as [|[idle ticker] rest IH]; intros st;
    [simpl; lia|].
  cbn [Browser.session length].
  etransitivity; [apply IH|].
  pose proof (fetch_calls_at_most_once env ticker
                (Browser.mkState (Browser.storage st)
                   (Browser.lastAPICallTime st)
                   (Browser.clock st + Z.of_nat idle) (Browser.calls st))).
  cbn [Browser.calls] in *. lia.
Qed.

End BrowserFacts.

(** ** Prices that never fall, in binary64 *)

Module FlatSeriesFacts.
Import Notions.

(** In binary64, finite closes (15 or more) none of which is below the
    close of the day before have RSI(14) exactly 100: rises and days
    without a move alike leave the loss average at 0. *)
Theorem rsi_without_losses (prices : list float) :
  15 <= length prices ->
  Forall (fun p => PrimFloat.is_finite p = true) prices ->
  everyChange (fun older newer => PrimFloat.leb older newer = true) prices ->
  Engine.calculateRSI prices 14 = Some 100%float.
Proof. exact (FloatFacts.never_falling_rsi prices). Qed.

Lemma sub_self (c : float) :
  PrimFloat.is_finite c = true -> (c - c)%float = 0%float.
Proof.
  intros Hfin. apply Prim2SF_inj. rewrite sub_spec.
  change (Prim2SF 0%float) with (S754_zero false).
  unfold PrimFloat.is_finite, PrimFloat.is_nan, PrimFloat.is_infinity in Hfin.
  rewrite !FloatAxioms.eqb_spec, abs_spec in Hfin.
  change (Prim2SF PrimFloat.infinity) with (S754_infinity false) in Hfin.
  destruct (Prim2SF c) as [s|s| |s m e].
  - destruct s; reflexivity.
  - destruct s; discriminate.
  - discriminate.
  - unfold SF64sub, SFsub. cbv zeta. rewrite Z.sub_diag. reflexivity.
Qed.

Lemma seed_flat_float (cs : list float) :
  Forall (fun c => c = 0%float) cs ->
  fold_left Engine.seedStep cs (0%float, 0%float) = (0%float, 0%float).
Proof.
  induction 1 as [|c cs -> _ IH]; [reflexivity|]. exact IH.
Qed.

Lemma wilder_flat_float (cs : list float) :
  Forall (fun c => c = 0%float) cs ->
  fold_left (Engine.wilderStep 14) cs (0%float, 0%float)
  = (0%float, 0%float).
Proof.
  induction 1 as [|c cs -> _ IH]; [reflexivity|]. exact IH.
Qed.

Lemma changes_flat_float (prices : list float) (c : float) :
  PrimFloat.is_finite c = true ->
  Forall (fun p => p = c) prices ->
  Forall (fun d => d = 0%float) (Engine.changesOf (reverse prices)).
Proof.
  intros Hfin Hall. apply Forall_lookup. intros i d Hd.
  apply EngineFacts.changesOf_lookup in Hd as (a & b & Ha & Hb & ->).
  apply Forall_reverse in Hall. rewrite Forall_lookup in Hall.
  rewrite (Hall _ _ Ha), (Hall _ _ Hb).
  cbn [nsub JsFloat.number]. apply sub_self, Hfin.
Qed.

(** In binary64, closes that are all the same finite number (15 or more)
    have RSI exactly 100, and the digest classifies the ticker as
    overbought. *)
Theorem flat_series_is_overbought (prices : list float) (c : float) :
  15 <= length prices ->
  PrimFloat.is_finite c = true ->
  Forall (fun p => p = c) prices ->
  Engine.calculateRSI prices 14 = Some 100%float
  /\ Monitor.rsiSignal (Engine.calculateRSI prices 14)
     = [mkSignal [Lit "RSI "; Fixed 100%float 1;
                  Lit (" " +:+ emDash +:+ " Overbought")] bearish].
Proof.
  intros Hlen Hfin Hall.
  assert (Hrsi : Engine.calculateRSI prices 14 = Some 100%float).
  { unfold Engine.calculateRSI.
    destruct (Nat.ltb_spec (length prices) (14 + 1)) as [Hlt|_]; [lia|].
    pose proof (changes_flat_float prices c Hfin Hall) as Hzero.
    set (changes := Engine.changesOf (reverse prices)) in *.
    rewrite <- (take_drop 14 changes) in Hzero.
    apply Forall_app in Hzero as [Hseed Hwilder].
    unfold Engine.rsiAverages.
    change (ofNat 0, ofNat 0) with (0%float, 0%float).
    rewrite (seed_flat_float _ Hseed).
    change (0%float / ofNat 14, 0%float / ofNat 14)%js
      with (0%float, 0%float).
    rewrite (wilder_flat_float _ Hwilder). reflexivity. }
  split; [exact Hrsi|]. rewrite Hrsi. reflexivity.
Qed.

End FlatSeriesFacts.

(** ** The staleness warning and the error box *)

Module DisplayFacts.
Import Builtins Extraction Notions Text BrowserForm AnalysisFacts MoreNotions.
Local Open Scope Z_scope.

Lemma monitor_freshness_block (now : Z) (latest : string) :
  match Date_parse latest with
  | Some t =>
      if t + 4 * msPerDay <=? now
      then Monitor.freshnessSignal (daysDiffOf now latest)
           = [mkSignal [Lit "Warning: Data is "; Days ((now - t) / msPerDay);
                        Lit " days old"] warning]
           /\ 4 <= (now - t) / msPerDay
      else Monitor.freshnessSignal (daysDiffOf now latest) = []
  | None => Monitor.freshnessSignal (daysDiffOf now latest) = []
  end.
Proof.
  unfold Monitor.freshnessSignal, daysDiffOf.
  destruct (Date_parse latest) as [t|]; [|reflexivity].
  rewrite more_than_three_days.
  destruct (Z.leb_spec (t + 4 * msPerDay) now) as [Hle|Hgt]; [|reflexivity].
  split; [reflexivity|].
  apply Z.div_le_lower_bound; unfold msPerDay in *; lia.
Qed.

Lemma no_stale_warning_in (l : list Signal) :
  Forall (fun sig => isStaleWarning sig = false) l ->
  existsb isStaleWarning l = false.
Proof.
  induction 1 as [|sig l Hsig _ IH]; [reflexivity|].
  simpl. rewrite Hsig, IH. reflexivity.
Qed.

(** For a time series whose keys are dates, the digest warns about old
    data exactly when the midnight (UTC) of the latest date lies four days
    or more before the time of the analysis; the warning is then the first
    signal and names the whole days passed, at least 4. *)
Theorem stale_warning_threshold (now : Z) (data : Payload) (ticker : string)
    (ts : Series) (r : Monitor.AnalysisResult) (a : Monitor.Analysis) :
  timeSeries data = Some ts ->
  Forall isDate (keys ts) ->
  Monitor.processStockData now data ticker = inr r ->
  Monitor.analysis r = Some a ->
  existsb isStaleWarning (Monitor.signals r)
  = staleAt now (Monitor.latestDate a)
  /\ (staleAt now (Monitor.latestDate a) = true ->
      exists days rest,
        Monitor.signals r
        = mkSignal [Lit "Warning: Data is "; Days days; Lit " days old"]
            warning :: rest
        /\ 4 <= days).
Proof.
  intros _ _ Hr Ha.
  destruct (ClassifierFacts.monitor_process_inv _ _ _ _ Hr)
    as (ts' & latest & rest & close & prices & _ & _ & _ & _ & ->).
  unfold Monitor.analyse in *.
  cbn [Monitor.analysis] in Ha. injection Ha as <-.
  cbn [Monitor.signals Monitor.latestDate].
  pose proof (monitor_freshness_block now latest) as Hfresh.
  assert (Hothers :
            existsb isStaleWarning
              (Monitor.smaSignal "50" close
                 (Engine.calculateSMA prices 50)
               ++ Monitor.smaSignal "100" close
                    (Engine.calculateSMA prices 100)
               ++ Monitor.crossSignal (Engine.calculateSMA prices 50)
                    (Engine.calculateSMA prices 100)
               ++ Monitor.rsiSignal (Engine.calculateRSI prices 14)
               ++ Monitor.macdSignal (Engine.calculateMACD prices)
               ++ Monitor.bollingerSignal close
                    (Engine.calculateBollingerBands prices 20)) = false).
  { apply no_stale_warning_in. repeat apply Forall_app_2.
    - unfold Monitor.smaSignal.
      destruct (Engine.calculateSMA prices 50) as [s|]; [|constructor].
      destruct (_ >? _)%js; repeat constructor.
    - unfold Monitor.smaSignal.
      destruct (Engine.calculateSMA prices 100) as [s|]; [|constructor].
      destruct (_ >? _)%js; repeat constructor.
    - unfold Monitor.crossSignal.
      destruct (Engine.calculateSMA prices 50) as [s50|]; [|constructor].
      destruct (Engine.calculateSMA prices 100) as [s100|]; [|constructor].
      destruct (s50 >? s100)%js; repeat constructor.
    - unfold Monitor.rsiSignal.
      destruct (Engine.calculateRSI _ 14) as [x|]; [|constructor].
      destruct (x >? _)%js; [|destruct (x <? _)%js]; repeat constructor.
    - unfold Monitor.macdSignal.
      destruct (Engine.calculateMACD _) as [m|]; [|constructor].
      destruct (_ >? _)%js; repeat constructor.
    - unfold Monitor.bollingerSignal.
      destruct (Engine.calculateBollingerBands _ 20) as [b|]; [|constructor].
      destruct (_ >? _)%js; [|destruct (_ <? _)%js]; repeat constructor. }
  rewrite existsb_app, Hothers, orb_false_r.
  unfold staleAt. destruct (Date_parse latest) as [t|].
  - destruct (t + 4 * msPerDay <=? now).
    + destruct Hfresh as [Hf Hdays]. rewrite Hf. split; [reflexivity|].
      intros _. eexists. eexists. split; [reflexivity|exact Hdays].
    + rewrite Hfresh. split; [reflexivity|discriminate].
  - rewrite Hfresh. split; [reflexivity|discriminate].
Qed.

(** The error box of the browser application after a failed fetch.  An
    answer of the provider (HTTP status or JSON body) that is refused gets
    the title of its kind: connection error for a bad status, else the
    first of invalid ticker, rate limit, API key and no data that applies.
    A failure of the transport gets the title of a connection error,
    unless its own message starts with the name of a provider error. *)
Theorem error_box_title (r : Response) (ticker : string) (error : Thrown) :
  Browser.classify r = inl error ->
  titleShown (onError (Browser.rethrow error) ticker)
  = Some
      match r with
      | HttpStatus _ => "Connection Error"
      | Json data =>
          if truthy (errorMessage data) then "Ticker Not Found"
          else if truthy (note data) then "Rate Limit Exceeded"
          else if truthy (information data) then "API Key Error"
          else "No Data Available"
      | NetworkFailure m | NotJson m =>
          if namesProviderError m then fst (displayError m ticker)
          else "Connection Error"
      end.
Proof.
  unfold Browser.classify. destruct r as [m|status|m|data].
  - intros [= <-]. unfold Browser.rethrow, namesProviderError.
    cbn [messageOf].
    destruct (String.prefix "INVALID_TICKER" m || String.prefix "RATE_LIMIT" m
              || String.prefix "API_KEY_ERROR" m || String.prefix "NO_DATA" m)
      eqn:Hp; [|reflexivity].
    unfold onError. cbn [messageOf].
    assert (Hne : nonEmpty m = true).
    { destruct m; [discriminate|reflexivity]. }
    rewrite Hne. destruct (displayError m ticker). reflexivity.
  - intros [= <-]. reflexivity.
  - intros [= <-]. unfold Browser.rethrow, namesProviderError.
    cbn [messageOf].
    destruct (String.prefix "INVALID_TICKER" m || String.prefix "RATE_LIMIT" m
              || String.prefix "API_KEY_ERROR" m || String.prefix "NO_DATA" m)
      eqn:Hp; [|reflexivity].
    unfold onError. cbn [messageOf].
    assert (Hne : nonEmpty m = true).
    { destruct m; [discriminate|reflexivity]. }
    rewrite Hne. destruct (displayError m ticker). reflexivity.
  - destruct (truthy (errorMessage data)); [intros [= <-]; reflexivity|].
    destruct (truthy (note data)); [intros [= <-]; reflexivity|].
    destruct (truthy (information data)); [intros [= <-]; reflexivity|].
    destruct (timeSeries data) as [[|rec rest]|]; intros [= <-]; reflexivity.
Qed.

End DisplayFacts.

(** ** The further properties at sample inputs *)

Module AtMoreSamples.
Import Builtins Extraction Text Notions MoreNotions Samples MoreSamples.

(** Solves [Forall P l] for a list that is written out. *)
Ltac each tac := repeat (apply Forall_cons_2; [tac|]); apply Forall_nil_2.

Lemma blank_tickers_give_empty_run_witness :
  MonitorConfig.parseTickers (Some blankList) = []
  /\ MonitorRun.run provider (MonitorConfig.parseTickers (Some blankList))
       (MonitorRun.mkState now [])
     = ([], MonitorRun.mkState now []).
Proof.
  apply (ConfigFacts.blank_tickers_give_empty_run blankList provider);
    [discriminate|reflexivity].
Defined.

Lemma main_needs_settings_witness :
  MonitorConfig.mainResults noRecipient provider (MonitorRun.mkState now [])
  = None.
Proof.
  apply ConfigFacts.main_needs_settings.
  do 4 right. exists blankList. split; reflexivity.
Defined.

Lemma invalid_input_is_not_fetched_witness :
  exists v,
    BrowserForm.onClick provider "MS-FT" (Browser.initial ∅ now)
    = (BrowserForm.ValidationMessage v, Browser.initial ∅ now)
    /\ BrowserForm.valid v = false.
Proof.
  apply FormFacts.invalid_input_is_not_fetched; reflexivity.
Defined.

Lemma validateTicker_accepts_witness :
  BrowserForm.valid (BrowserForm.validateTicker "  msft ") = true
  /\ BrowserForm.valid (BrowserForm.validateTicker "MS-FT") = false.
Proof.
  split.
  - rewrite (proj1 (FormFacts.validateTicker_accepts "  msft " eq_refl)).
    reflexivity.
  - rewrite (proj1 (FormFacts.validateTicker_accepts "MS-FT" eq_refl)).
    reflexivity.
Defined.

Lemma rsi_without_losses_witness :
  Engine.calculateRSI stairs 14 = Some 100%float.
Proof.
  apply (FlatSeriesFacts.rsi_without_losses stairs); [simpl; lia| |].
  - unfold stairs. each ltac:(reflexivity).
  - intros i older newer Holder Hnewer.
    do 16 (destruct i as [|i];
           [cbn in Holder, Hnewer;
            first [discriminate Holder
                  |injection Holder as <-; injection Hnewer as <-;
                   vm_compute; reflexivity]|]).
    cbn in Hnewer. discriminate Hnewer.
Defined.

Lemma flat_series_is_overbought_witness :
  Engine.calculateRSI (replicate 15 5%float) 14 = Some 100%float
  /\ Monitor.rsiSignal (Engine.calculateRSI (replicate 15 5%float) 14)
     = [mkSignal [Lit "RSI "; Fixed 100%float 1;
                  Lit (" " +:+ emDash +:+ " Overbought")] bearish].
Proof.
  apply (FlatSeriesFacts.flat_series_is_overbought _ 5%float);
    [simpl; lia|reflexivity|].
  apply Forall_replicate. reflexivity.
Defined.

Lemma series_dates : Forall isDate (keys series).
Proof. cbn. each ltac:(eexists; vm_compute; reflexivity). Qed.

(** The analysis of [threeDays] by the digest at a given time. *)
Ltac analysed payload time r a Hr Ha :=
  destruct (Monitor.processStockData time payload "MSFT") as [?|r] eqn:Hr;
    [vm_compute in Hr; discriminate|];
  destruct (Monitor.analysis r) as [a|] eqn:Ha;
    [|vm_compute in Hr; injection Hr as <-; discriminate].

Lemma indicators_by_data_points_witness :
  exists r a,
    Monitor.processStockData now threeDays "MSFT" = inr r
    /\ Monitor.analysis r = Some a
    /\ 1 <= Monitor.dataPoints a
    /\ (Monitor.sma50 a = None <-> Monitor.dataPoints a < 50).
Proof.
  analysed threeDays now r a Hr Ha.
  destruct (AnalysisFacts.indicators_by_data_points _ _ _ _ _ Hr Ha)
    as (H1 & H50 & _).
  exists r, a. split; [reflexivity|]. split; [exact Ha|].
  split; [exact H1|exact H50].
Defined.

Lemma monitor_signal_count_witness :
  exists r a,
    Monitor.processStockData later threeDays "MSFT" = inr r
    /\ Monitor.analysis r = Some a
    /\ length (Monitor.signals r)
       = (if staleAt later (Monitor.latestDate a) then 1 else 0)
         + one (Monitor.sma50 a) + one (Monitor.sma100 a)
         + one (Monitor.sma100 a) + one (Monitor.rsi a)
         + one (Monitor.macd a) + one (Monitor.bb a).
Proof.
  analysed threeDays later r a Hr Ha.
  pose proof (AnalysisFacts.monitor_signal_count later threeDays "MSFT"
                series r a eq_refl series_dates Hr Ha) as Hcount.
  exists r, a. split; [reflexivity|]. split; [exact Ha|exact Hcount].
Defined.

Lemma browser_signal_count_witness :
  exists b,
    Browser.processStockData now threeDays "MSFT" = inr b
    /\ length (Browser.signals b)
       = (if staleAt now (Browser.latestDate b) then 1 else 0) + 2
         + (if 200 <=? Browser.dataPoints b then 1 else 0).
Proof.
  destruct (Browser.processStockData now threeDays "MSFT") as [e|b] eqn:Hb;
    [vm_compute in Hb; discriminate|].
  exists b. split; [reflexivity|].
  apply (AnalysisFacts.browser_signal_count now threeDays "MSFT" series b
           eq_refl series_dates Hb).
Defined.

Lemma stale_warning_threshold_witness :
  exists r a,
    Monitor.processStockData later threeDays "MSFT" = inr r
    /\ Monitor.analysis r = Some a
    /\ existsb isStaleWarning (Monitor.signals r)
       = staleAt later (Monitor.latestDate a).
Proof.
  analysed threeDays later r a Hr Ha.
  destruct (DisplayFacts.stale_warning_threshold later threeDays "MSFT"
              series r a eq_refl series_dates Hr Ha) as [Hstale _].
  exists r, a. split; [reflexivity|]. split; [exact Ha|exact Hstale].
Defined.

Lemma sortedDates_newest_first_witness :
  sortedDates series ≡ₚ keys series
  /\ StronglySorted
       (fun a b =>
          exists ta tb,
            Date_parse a = Some ta /\ Date_parse b = Some tb /\ (tb <= ta)%Z)
       (sortedDates series).
Proof. apply SortFacts.sortedDates_newest_first, series_dates. Defined.

Lemma analysis_ignores_record_order_witness :
  Monitor.processStockData now threeDays "MSFT"
  = Monitor.processStockData now threeDaysShuffled "MSFT"
  /\ Browser.processStockData now threeDays "MSFT"
     = Browser.processStockData now threeDaysShuffled "MSFT".
Proof.
  apply (SortFacts.analysis_ignores_record_order now threeDays
           threeDaysShuffled "MSFT" series seriesShuffled);
    [reflexivity|reflexivity| |exact series_dates|].
  - apply Permutation_swap.
  - apply (bool_decide_unpack _). vm_compute. exact I.
Defined.

Lemma latest_is_newest_witness :
  exists r a,
    Monitor.processStockData now threeDays "MSFT" = inr r
    /\ Monitor.analysis r = Some a
    /\ Monitor.latestDate a ∈ keys series
    /\ closeOf series (Monitor.latestDate a)
       = Some (Monitor.latestPrice a).
Proof.
  analysed threeDays now r a Hr Ha.
  destruct (SortFacts.latest_is_newest now threeDays "MSFT" series r a
              eq_refl series_dates Hr Ha) as (Hin & Hprice & _).
  exists r, a. split; [reflexivity|]. split; [exact Ha|].
  split; [exact Hin|exact Hprice].
Defined.

Lemma run_duration_witness :
  (now + API_RATE_LIMIT_DELAY * (Z.of_nat 2 - 1)
   <= MonitorRun.clock
        (snd (MonitorRun.run provider ["AAA"; "BBB"]
                (MonitorRun.mkState now []))))%Z.
Proof.
  apply (MonitorRunFacts.run_duration provider ["AAA"; "BBB"]
           (MonitorRun.mkState now [])).
  discriminate.
Defined.

Lemma fetch_keeps_other_tickers_witness :
  Browser.storage
    (snd (Browser.fetchStockData provider "MSFT" (Browser.initial ∅ now)))
    !! Browser.cacheKeyOf "GOOG"
  = Browser.storage (Browser.initial ∅ now) !! Browser.cacheKeyOf "GOOG".
Proof. apply BrowserFacts.fetch_keeps_other_tickers. discriminate. Defined.


Lemma call_waits_for_the_rest_witness :
  exists t,
    Browser.calls
      (snd (Browser.fetchStockData provider "MSFT" (Browser.initial ∅ now)))
    = [(t, "MSFT")]
    /\ ((0 + API_RATE_LIMIT_DELAY <= now)%Z -> t = now).
Proof.
  assert (Hmiss :
            fst (Browser.getCachedData "MSFT" (Browser.initial ∅ now))
            = None).
  { vm_compute. reflexivity. }
  destruct (BrowserFacts.call_waits_for_the_rest provider "MSFT"
              (Browser.initial ∅ now) Hmiss) as (t & Hcalls & Hnow & _).
  exists t. split; [exact Hcalls|exact Hnow].
Defined.

Lemma fetched_payload_analysis_witness :
  isClean threeDays = true
  /\ exists analysis,
       Browser.processStockData later threeDays "MSFT" = inr analysis.
Proof.
  apply (BrowserFacts.fetched_payload_analysis provider
           [(0, "GOOG")] ∅ now "MSFT" threeDays later).
  - intros key timestamp data Hlook. rewrite lookup_empty in Hlook.
    discriminate.
  - reflexivity.
Defined.

Lemma error_box_title_witness :
  titleShown
    (BrowserForm.onError (Browser.rethrow (JsError "NETWORK_ERROR")) "MSFT")
  = Some "Connection Error".
Proof.
  apply (DisplayFacts.error_box_title (HttpStatus 500) "MSFT"
           (JsError "NETWORK_ERROR")).
  reflexivity.
Defined.

End AtMoreSamples.
